(** * DaShan robot: frame transport and behaviour controller

    A shallow embedding of [protocol.c], [state_machine.c] and the start-up
    sequence of [main.c], with the properties of the specification stated
    over it.

    Conventions.
    - A [uint8_t] is a [Z] in [0, 256), a [uint16_t] a [Z] in [0, 65536), a
      [uint32_t] a [Z] in [0, 2^32); every assignment that can leave the
      range has its wrap-around written out ([uint8], [uint16], [uint32]).
    - The firmware keeps everything in process-wide globals
      ([protocol_handler], [state_machine], the LED matrix, the UART).  They
      are gathered in one record, [World], that every operation takes and
      returns.
    - [ProtocolFrame] is laid out as the target (ESP32, little endian,
      natural alignment) lays it out: [head] at offset 0, [cmd] at 1, [len]
      at 2..3 (low byte first), [data] at 4..1027, [crc] at 1028, one byte
      of padding at 1029.  [calc_crc8] is called on that memory image. *)

From Stdlib Require Import ZArith Lia Bool List.
From stdpp Require Import base list.
Import ListNotations.

Local Open Scope Z_scope.

(** ** Machine integers *)

Definition uint8 (z : Z) : Z := z mod 256.
Definition uint16 (z : Z) : Z := z mod 65536.
Definition uint32 (z : Z) : Z := z mod 4294967296.

Definition is_uint8 (z : Z) : Prop := 0 <= z < 256.

(** ** protocol.h *)

Definition FRAME_HEAD : Z := 0xAA.
Definition MAX_DATA_LEN : Z := 1024.

Definition CMD_HEARTBEAT : Z := 0x01.
Definition CMD_SET_EXPRESSION : Z := 0x02.
Definition CMD_SET_SERVO : Z := 0x03.
Definition CMD_PLAY_AUDIO : Z := 0x04.
Definition CMD_RECORD_AUDIO : Z := 0x05.
Definition CMD_SEND_IMAGE : Z := 0x06.
Definition CMD_SET_STATE : Z := 0x07.
Definition CMD_GET_STATUS : Z := 0x08.
Definition CMD_SENSOR_DATA : Z := 0x09.
Definition CMD_RECORD_CONTROL : Z := 0x0A.
Definition CMD_CAMERA_CONTROL : Z := 0x0B.
Definition CMD_SET_GAZE : Z := 0x0C.
Definition CMD_ERROR : Z := 0xFF.

(** [data] is the initialised part of the 1024-byte array: all of it for the
    receive frame (zeroed by [protocol_init]), the copied payload for a frame
    built in an automatic variable by [protocol_send_response], whose other
    bytes are indeterminate and never read. *)
Record ProtocolFrame := mkFrame {
  head : Z;
  cmd : Z;
  len : Z;
  data : list Z;
  crc : Z
}.

(** [tx_queue] is the FreeRTOS queue created by [xQueueCreate(10, ...)]: the
    frames it holds by value, oldest first.  The [callbacks] array of the C
    struct is kept beside the world (see [CallbackTable]). *)
Record ProtocolHandler := mkHandler {
  rx_frame : ProtocolFrame;
  rx_index : Z;
  rx_receiving : bool;
  tx_queue : list ProtocolFrame
}.

Definition TX_QUEUE_LENGTH : Z := 10.

(** ** state_machine.h *)

Definition STATE_IDLE : Z := 0.
Definition STATE_SLEEP : Z := 1.
Definition STATE_WAKE : Z := 2.
Definition STATE_LISTEN : Z := 3.
Definition STATE_THINK : Z := 4.
Definition STATE_TALK : Z := 5.

(** [SystemState] is a C enum, that is an integer: nothing keeps a value of
    that type inside the six enumerators, so the fields are [Z]. *)
Record StateMachine := mkStateMachine {
  current_state : Z;
  previous_state : Z;
  state_enter_time : Z;
  battery_level : Z;
  current_expression : Z;
  servo_h_angle : Z;
  servo_v_angle : Z;
  running : bool
}.

(** ** The globals

    - [led_expressions]: the arguments of the calls of
      [led_matrix_set_expression] so far, oldest first;
    - [uart_tx]: the bytes handed to [uart_write_bytes] so far;
    - [timer_us]: what [esp_timer_get_time()] returns, in microseconds.  The
      clock is moved by the environment between calls only. *)
Record World := mkWorld {
  protocol_handler : ProtocolHandler;
  state_machine : StateMachine;
  led_expressions : list Z;
  uart_tx : list Z;
  timer_us : Z
}.

(** The [CommandCallback] function pointer type, [void] of
    [(const uint8_t * data, uint16_t len)]: a handler sees the payload
    buffer and the length and acts on the globals. *)
Definition CommandCallback : Type := list Z -> Z -> World -> World.

(** [callbacks[256]], indexed by the command byte; [None] is [NULL]. *)
Definition CallbackTable : Type := Z -> option CommandCallback.

(** *** Field updates *)

Definition set_head (v : Z) (f : ProtocolFrame) : ProtocolFrame :=
  mkFrame v (cmd f) (len f) (data f) (crc f).
Definition set_cmd (v : Z) (f : ProtocolFrame) : ProtocolFrame :=
  mkFrame (head f) v (len f) (data f) (crc f).
Definition set_len (v : Z) (f : ProtocolFrame) : ProtocolFrame :=
  mkFrame (head f) (cmd f) v (data f) (crc f).
Definition set_data (v : list Z) (f : ProtocolFrame) : ProtocolFrame :=
  mkFrame (head f) (cmd f) (len f) v (crc f).
Definition set_crc (v : Z) (f : ProtocolFrame) : ProtocolFrame :=
  mkFrame (head f) (cmd f) (len f) (data f) v.

Definition set_rx_frame (v : ProtocolFrame) (h : ProtocolHandler) : ProtocolHandler :=
  mkHandler v (rx_index h) (rx_receiving h) (tx_queue h).
Definition set_rx_index (v : Z) (h : ProtocolHandler) : ProtocolHandler :=
  mkHandler (rx_frame h) v (rx_receiving h) (tx_queue h).
Definition set_rx_receiving (v : bool) (h : ProtocolHandler) : ProtocolHandler :=
  mkHandler (rx_frame h) (rx_index h) v (tx_queue h).
Definition set_tx_queue (v : list ProtocolFrame) (h : ProtocolHandler) : ProtocolHandler :=
  mkHandler (rx_frame h) (rx_index h) (rx_receiving h) v.

Definition set_protocol_handler (v : ProtocolHandler) (w : World) : World :=
  mkWorld v (state_machine w) (led_expressions w) (uart_tx w) (timer_us w).
Definition set_state_machine (v : StateMachine) (w : World) : World :=
  mkWorld (protocol_handler w) v (led_expressions w) (uart_tx w) (timer_us w).
Definition set_led_expressions (v : list Z) (w : World) : World :=
  mkWorld (protocol_handler w) (state_machine w) v (uart_tx w) (timer_us w).
Definition set_uart_tx (v : list Z) (w : World) : World :=
  mkWorld (protocol_handler w) (state_machine w) (led_expressions w) v (timer_us w).
Definition set_timer_us (v : Z) (w : World) : World :=
  mkWorld (protocol_handler w) (state_machine w) (led_expressions w) (uart_tx w) v.

(** ** protocol.c *)

(** One round of the inner loop of [calc_crc8]:
    [crc = (crc & 0x80) ? (crc << 1) ^ 0x07 : crc << 1], stored in a
    [uint8_t]. *)
Definition crc8_shift (crc : Z) : Z :=
  uint8 (if Z.land crc 0x80 =? 0 then Z.shiftl crc 1
         else Z.lxor (Z.shiftl crc 1) 0x07).

(** The body of the outer loop: [crc ^= data[i]], then eight rounds. *)
Definition crc8_update (crc byte : Z) : Z :=
  Nat.iter 8 crc8_shift (uint8 (Z.lxor crc byte)).

(** The outer loop, [n] bytes from the start of [mem]. *)
Fixpoint crc8_loop (mem : list Z) (n : nat) (crc : Z) {struct n} : Z :=
  match n, mem with
  | S n', byte :: rest => crc8_loop rest n' (crc8_update crc byte)
  | _, _ => crc
  end.

Definition calc_crc8 (mem : list Z) (n : Z) : Z :=
  Z.land (crc8_loop mem (Z.to_nat n) 0) 0xFF.

(** The memory image of a frame, what [(uint8_t * )&frame] points to. *)
Definition frame_bytes (f : ProtocolFrame) : list Z :=
  [head f; cmd f; Z.land (len f) 0xFF; Z.land (Z.shiftr (len f) 8) 0xFF]
    ++ data f ++ [crc f].

(** [protocol_init]: the handler is zeroed, the queue created empty.  The
    loop that sets every entry of [callbacks] to [NULL] gives
    [protocol_init_callbacks]. *)
Definition protocol_init (w : World) : World :=
  set_protocol_handler
    (mkHandler (mkFrame 0 0 0 (replicate (Z.to_nat MAX_DATA_LEN) 0) 0) 0 false [])
    w.

Definition protocol_init_callbacks : CallbackTable := fun _ => None.

(** [handler->callbacks[cmd] = callback]. *)
Definition protocol_register_callback
    (callbacks : CallbackTable) (c : Z) (callback : CommandCallback) : CallbackTable :=
  fun c' => if c' =? c then Some callback else callbacks c'.

(** What the receive loop does that leaves no mark in the globals: stores
    into the payload buffer, the frame completed at its checksum byte
    together with the checksum computed for it, handler calls, and the three
    warnings ([ESP_LOGW]). *)
Inductive Event :=
| EvStore (idx byte : Z)
| EvFrame (frame : ProtocolFrame) (calc_crc : Z)
| EvCallback (c : Z) (payload : list Z) (n : Z)
| EvNoCallback (c : Z)
| EvCrcMismatch (calc_crc recv_crc : Z)
| EvTooLong.

(** [frame.data[idx] = byte].  The array has indices 0..1023; index 1024 is
    the address of the [crc] field and index 1025 that of the padding byte
    after it, the only two addresses past the array that the receive loop
    can form. *)
Definition store_data (idx byte : Z) (f : ProtocolFrame) : ProtocolFrame :=
  if (0 <=? idx) && (idx <? MAX_DATA_LEN)
  then set_data (<[Z.to_nat idx := byte]> (data f)) f
  else if idx =? MAX_DATA_LEN then set_crc byte f
  else f.

(** The body of the [for] loop of [protocol_process_data], for one byte. *)
Definition process_byte (callbacks : CallbackTable) (w : World) (byte : Z)
    : World * list Event :=
  let handler := protocol_handler w in
  if negb (rx_receiving handler) then
    if byte =? FRAME_HEAD then
      (set_protocol_handler
         (set_rx_frame (set_head byte (rx_frame handler))
            (set_rx_index 0 (set_rx_receiving true handler))) w, [])
    else (w, [])
  else
    let idx := uint16 (rx_index handler + 1) in
    let handler := set_rx_index idx handler in
    let frame := rx_frame handler in
    let '(w, evs) :=
      if idx =? 1 then
        (set_protocol_handler (set_rx_frame (set_cmd byte frame) handler) w, [])
      else if idx =? 2 then
        (set_protocol_handler (set_rx_frame (set_len byte frame) handler) w, [])
      else if idx =? 3 then
        (set_protocol_handler
           (set_rx_frame
              (set_len (uint16 (Z.lor (len frame) (Z.shiftl byte 8))) frame)
              handler) w, [])
      else if idx <? 4 + len frame then
        (set_protocol_handler
           (set_rx_frame (store_data (idx - 4) byte frame) handler) w,
         [EvStore (idx - 4) byte])
      else if idx =? 4 + len frame then
        let frame := set_crc byte frame in
        let w := set_protocol_handler (set_rx_frame frame handler) w in
        let calc_crc := calc_crc8 (frame_bytes frame) (uint16 (4 + len frame)) in
        let '(w, evs) :=
          if calc_crc =? crc frame then
            match callbacks (cmd frame) with
            | Some callback =>
                (callback (data frame) (len frame) w,
                 [EvCallback (cmd frame) (data frame) (len frame)])
            | None => (w, [EvNoCallback (cmd frame)])
            end
          else (w, [EvCrcMismatch calc_crc (crc frame)]) in
        (set_protocol_handler
           (set_rx_index 0 (set_rx_receiving false (protocol_handler w))) w,
         EvFrame frame calc_crc :: evs)
      else (set_protocol_handler handler w, [])
    in
    if rx_index (protocol_handler w) >=? 4 + MAX_DATA_LEN + 1 then
      (set_protocol_handler
         (set_rx_index 0 (set_rx_receiving false (protocol_handler w))) w,
       evs ++ [EvTooLong])
    else (w, evs).

(** [protocol_process_data]: the bytes of the buffer, in order. *)
Fixpoint protocol_process_data (callbacks : CallbackTable) (w : World)
    (bytes : list Z) : World * list Event :=
  match bytes with
  | [] => (w, [])
  | byte :: rest =>
      let '(w1, evs1) := process_byte callbacks w byte in
      let '(w2, evs2) := protocol_process_data callbacks w1 rest in
      (w2, evs1 ++ evs2)
  end.

(** FreeRTOS's [xQueueSend] on the queue of [TX_QUEUE_LENGTH] items, with
    its return value.  The only consumer, [protocol_send_queued], runs in
    the caller's own task, so a full queue is still full when the wait of
    the caller ends. *)
Definition pdTRUE : Z := 1.
Definition errQUEUE_FULL : Z := 0.

Definition xQueueSend (queue : list ProtocolFrame) (item : ProtocolFrame)
    : list ProtocolFrame * Z :=
  if Z.of_nat (length queue) <? TX_QUEUE_LENGTH
  then (queue ++ [item], pdTRUE)
  else (queue, errQUEUE_FULL).

(** [protocol_send_frame] is [void]: the value of [xQueueSend] is dropped. *)
Definition protocol_send_frame (w : World) (frame : ProtocolFrame) : World :=
  let handler := protocol_handler w in
  set_protocol_handler
    (set_tx_queue (fst (xQueueSend (tx_queue handler) frame)) handler) w.

(** The [total_len] bytes written to the UART for one frame by
    [protocol_send_queued]. *)
Definition frame_wire (frame : ProtocolFrame) : list Z :=
  let total_len := uint16 (5 + len frame) in
  let buffer :=
    [head frame; cmd frame; Z.land (len frame) 0xFF;
     Z.land (Z.shiftr (len frame) 8) 0xFF]
      ++ take (Z.to_nat (len frame)) (data frame) ++ [crc frame] in
  take (Z.to_nat total_len) buffer.

(** The [while] loop of [protocol_send_queued]: frames leave oldest first. *)
Fixpoint send_queued_loop (queue : list ProtocolFrame) (out : list Z) : list Z :=
  match queue with
  | [] => out
  | frame :: rest => send_queued_loop rest (out ++ frame_wire frame)
  end.

Definition protocol_send_queued (w : World) : World :=
  let handler := protocol_handler w in
  set_uart_tx (send_queued_loop (tx_queue handler) (uart_tx w))
    (set_protocol_handler (set_tx_queue [] handler) w).

(** The frame [protocol_send_response] builds before it sends it. *)
Definition response_frame (c : Z) (payload : list Z) (n : Z) : ProtocolFrame :=
  let frame := mkFrame FRAME_HEAD c n (take (Z.to_nat n) payload) 0 in
  set_crc (calc_crc8 (frame_bytes frame) (uint16 (4 + n))) frame.

Definition protocol_send_response (w : World) (c : Z) (payload : list Z) (n : Z)
    : World :=
  protocol_send_frame w (response_frame c payload n).

(** ** state_machine.c *)

(** The display collaborator: the call is recorded. *)
Definition led_matrix_set_expression (expression_id : Z) (w : World) : World :=
  set_led_expressions (led_expressions w ++ [expression_id]) w.

(** [esp_timer_get_time() / 1000] stored in a [uint32_t]. *)
Definition now_ms (w : World) : Z := uint32 (Z.quot (timer_us w) 1000).

Definition state_machine_init (w : World) : World :=
  led_matrix_set_expression 0x00
    (set_state_machine
       (mkStateMachine STATE_SLEEP STATE_SLEEP 0 100 0x00 90 90 false) w).

Definition state_machine_start (w : World) : World :=
  let sm := state_machine w in
  set_state_machine
    (mkStateMachine (current_state sm) (previous_state sm) (now_ms w)
       (battery_level sm) (current_expression sm) (servo_h_angle sm)
       (servo_v_angle sm) true) w.

Definition state_machine_stop (w : World) : World :=
  let sm := state_machine w in
  set_state_machine
    (mkStateMachine (current_state sm) (previous_state sm) (state_enter_time sm)
       (battery_level sm) (current_expression sm) (servo_h_angle sm)
       (servo_v_angle sm) false) w.

(** The [switch] of [state_machine_transition]: the expression of the five
    states, and the expression left as it was for anything else. *)
Definition expression_for (new_state : Z) (current : Z) : Z :=
  if new_state =? STATE_SLEEP then 0x00
  else if new_state =? STATE_WAKE then 0x01
  else if new_state =? STATE_LISTEN then 0x02
  else if new_state =? STATE_THINK then 0x03
  else if new_state =? STATE_TALK then 0x04
  else current.

Section StateMachine.

(** [state_machine_transition] declares [uint8_t data[9]], fills bytes 0 to
    6 and sends all nine: [stack_byte 7] and [stack_byte 8] stand for what
    the last two bytes of the array happen to hold. *)
Variable stack_byte : Z -> Z.

(** The nine payload bytes [state_machine_transition] sends. *)
Definition transition_data (new_state : Z) (sm : StateMachine) : list Z :=
  [uint8 new_state; battery_level sm; current_expression sm;
   Z.land (servo_h_angle sm) 0xFF; Z.land (Z.shiftr (servo_h_angle sm) 8) 0xFF;
   Z.land (servo_v_angle sm) 0xFF; Z.land (Z.shiftr (servo_v_angle sm) 8) 0xFF;
   stack_byte 7; stack_byte 8].

Definition state_machine_transition (new_state : Z) (w : World) : World :=
  let sm := state_machine w in
  if new_state =? current_state sm then w
  else
    let sm :=
      mkStateMachine new_state (current_state sm) (now_ms w)
        (battery_level sm)
        (expression_for new_state (current_expression sm))
        (servo_h_angle sm) (servo_v_angle sm) (running sm) in
    let w := set_state_machine sm w in
    let w := led_matrix_set_expression (current_expression sm) w in
    protocol_send_response w CMD_SET_STATE (transition_data new_state sm) 9.

Definition state_machine_update (w : World) : World :=
  let sm := state_machine w in
  if negb (running sm) then w
  else
    let now := now_ms w in
    let elapsed := uint32 (now - state_enter_time sm) in
    if current_state sm =? STATE_SLEEP then w
    else if current_state sm =? STATE_WAKE then
      if elapsed >? 2000 then state_machine_transition STATE_LISTEN w else w
    else if current_state sm =? STATE_LISTEN then w
    else if current_state sm =? STATE_THINK then w
    else if current_state sm =? STATE_TALK then w
    else w.

End StateMachine.

Definition state_machine_get_state (w : World) : Z :=
  current_state (state_machine w).

Definition state_machine_set_battery_level (level : Z) (w : World) : World :=
  let sm := state_machine w in
  set_state_machine
    (mkStateMachine (current_state sm) (previous_state sm) (state_enter_time sm)
       level (current_expression sm) (servo_h_angle sm) (servo_v_angle sm)
       (running sm)) w.

(** ** main.c *)

(** [app_main] up to its loop.  [led_matrix_init], [servo_init],
    [audio_init], [sensor_init] and the UART set-up touch none of the
    globals of [World]; no module calls [protocol_register_callback], so the
    table the loop runs with is the one [protocol_init] leaves. *)
Definition app_main_startup (w : World) : World :=
  state_machine_start (state_machine_init (protocol_init w)).

Definition app_main_callbacks : CallbackTable := protocol_init_callbacks.

(** The world at power-on, clock at zero; [app_main_startup] overwrites the
    handler and the state machine. *)
Definition power_on : World :=
  mkWorld (mkHandler (mkFrame 0 0 0 [] 0) 0 false [])
    (mkStateMachine 0 0 0 0 0 0 0 false) [] [] 0.

(** * Vocabulary of the properties *)

(** The frames completed during a run, with their computed checksums. *)
Definition completed_frames (evs : list Event) : list (ProtocolFrame * Z) :=
  flat_map (fun e => match e with EvFrame f c => [(f, c)] | _ => [] end) evs.

(** The handler calls made during a run. *)
Definition callback_calls (evs : list Event) : list (Z * list Z * Z) :=
  flat_map (fun e => match e with EvCallback c p n => [(c, p, n)] | _ => [] end) evs.

(** The payload of a frame: the first [len] bytes of its buffer. *)
Definition payload_of (f : ProtocolFrame) : list Z :=
  take (Z.to_nat (len f)) (data f).

(** A world whose outbound queue holds ten heartbeat-sized frames: start-up
    followed by ten responses and no drain. *)
Definition saturated_world : World :=
  Nat.iter 10
    (fun w => protocol_send_response w CMD_HEARTBEAT [0; 0; 0; 0; 0; 0; 0; 0] 8)
    (app_main_startup power_on).

(** The state machine record after a transition that is not a
    self-transition. *)
Definition entered (new_state : Z) (w : World) : StateMachine :=
  let sm := state_machine w in
  mkStateMachine new_state (current_state sm) (now_ms w) (battery_level sm)
    (expression_for new_state (current_expression sm))
    (servo_h_angle sm) (servo_v_angle sm) (running sm).

(** The time, in milliseconds modulo 2^32, since the current state was
    entered, as [state_machine_update] computes it. *)
Definition elapsed_ms (w : World) : Z :=
  uint32 (now_ms w - state_enter_time (state_machine w)).

(** After start-up at time zero, WAKE is entered and the clock is then moved
    to [ms] milliseconds. *)
Definition awake_for (ms : Z) : World :=
  set_timer_us (ms * 1000)
    (state_machine_transition (fun _ => 0) STATE_WAKE (app_main_startup power_on)).

(** The next byte is the checksum byte of the frame in progress: the parser
    is inside a frame and the incremented cursor is [4 + len]. *)
Definition at_checksum_byte (w : World) : Prop :=
  let handler := protocol_handler w in
  rx_receiving handler = true
  /\ 3 < uint16 (rx_index handler + 1)
  /\ uint16 (rx_index handler + 1) = 4 + len (rx_frame handler).

(** The receive frame as it stands when the checksum byte [byte] has been
    stored in it. *)
Definition frame_received (w : World) (byte : Z) : ProtocolFrame :=
  set_crc byte (rx_frame (protocol_handler w)).

(** The checksum the parser computes for a frame:
    [calc_crc8((uint8_t * )&frame, 4 + frame.len)]. *)
Definition computed_crc (f : ProtocolFrame) : Z :=
  calc_crc8 (frame_bytes f) (uint16 (4 + len f)).

(** The payload buffer after successive stores of [bytes] from index [k]
    on. *)
Fixpoint write_bytes (k : nat) (bytes : list Z) (buffer : list Z) : list Z :=
  match bytes with
  | [] => buffer
  | byte :: rest => write_bytes (S k) rest (<[k := byte]> buffer)
  end.

(** The events of these stores. *)
Fixpoint store_events (k : Z) (bytes : list Z) : list Event :=
  match bytes with
  | [] => []
  | byte :: rest => EvStore k byte :: store_events (k + 1) rest
  end.

(** The receive frame when the checksum byte of a frame sent with command
    [c] and payload [payload] has been stored: the payload lies at the start
    of the buffer, the rest of the buffer is what it was. *)
Definition received_frame (w : World) (c : Z) (payload : list Z) : ProtocolFrame :=
  let n := Z.of_nat (length payload) in
  mkFrame FRAME_HEAD c n
    (write_bytes 0 payload (data (rx_frame (protocol_handler w))))
    (crc (response_frame c payload n)).

(** What the parser does with that frame, its checksum having matched: the
    bound handler is called on the globals of that moment, or the missing
    callback is reported. *)
Definition dispatch (callbacks : CallbackTable) (w : World) (c : Z)
    (payload : list Z) : World * list Event :=
  let n := Z.of_nat (length payload) in
  let frame := received_frame w c payload in
  let w1 :=
    set_protocol_handler
      (mkHandler frame (4 + n) true (tx_queue (protocol_handler w))) w in
  match callbacks c with
  | Some callback => (callback (data frame) n w1, [EvCallback c (data frame) n])
  | None => (w1, [EvNoCallback c])
  end.

(** An idle parser whose payload buffer is the 1024-byte array. *)
Definition rx_idle (w : World) : Prop :=
  rx_receiving (protocol_handler w) = false
  /\ length (data (rx_frame (protocol_handler w))) = Z.to_nat MAX_DATA_LEN.

(** The bytes of a frame that announces 1025 payload bytes. *)
Definition oversized_stream : list Z :=
  [0xAA; 0x01; 0x01; 0x04] ++ replicate 1025 0x00.

(** The bytes of a frame that announces 1026 payload bytes. *)
Definition longer_stream : list Z :=
  [0xAA; 0x01; 0x02; 0x04] ++ replicate 1026 0x00.

(** The twelve bytes of the scenario: AA 07 09 00 05 64 01 5A 00 5A 00 and
    the CRC-8 of these eleven bytes, 0xEA. *)
Definition scenario_bytes : list Z :=
  [0xAA; 0x07; 0x09; 0x00; 0x05; 0x64; 0x01; 0x5A; 0x00; 0x5A; 0x00; 0xEA].

(** The seven payload bytes of the scenario. *)
Definition scenario_payload : list Z := [0x05; 0x64; 0x01; 0x5A; 0x00; 0x5A; 0x00].

(** * The rest of protocol.c and the loop of main.c *)

(** The bytes [memcpy] copies out of a [uint16_t] and out of a [uint32_t] on
    the little-endian target. *)
Definition bytes_of_uint16 (v : Z) : list Z :=
  [Z.land v 0xFF; Z.land (Z.shiftr v 8) 0xFF].

Definition bytes_of_uint32 (v : Z) : list Z :=
  [Z.land v 0xFF; Z.land (Z.shiftr v 8) 0xFF;
   Z.land (Z.shiftr v 16) 0xFF; Z.land (Z.shiftr v 24) 0xFF].

(** [protocol_send_heartbeat]: up-time in seconds and free heap, four bytes
    each.  [free_heap] is what [esp_get_free_heap_size()] returns. *)
Definition protocol_send_heartbeat (free_heap : Z) (w : World) : World :=
  let uptime := uint32 (Z.quot (timer_us w) 1000000) in
  protocol_send_response w CMD_HEARTBEAT
    (bytes_of_uint32 uptime ++ bytes_of_uint32 free_heap) 8.

(** [protocol_send_status] declares [uint8_t data[9]], fills bytes 0 to 6 and
    sends nine; [stack_7] and [stack_8] are what the last two bytes happen to
    hold. *)
Definition protocol_send_status (stack_7 stack_8 : Z) (w : World)
    (state battery expression servo_h servo_v : Z) : World :=
  protocol_send_response w CMD_GET_STATUS
    ([uint8 state; battery; expression]
       ++ bytes_of_uint16 servo_h ++ bytes_of_uint16 servo_v
       ++ [stack_7; stack_8]) 9.

Definition protocol_send_sensor_data (w : World) (distance proximity light : Z)
    : World :=
  protocol_send_response w CMD_SENSOR_DATA
    (bytes_of_uint16 distance ++ [proximity; light]) 4.

(** One iteration of the [while (1)] loop of [app_main], on the globals of
    [World]: the bytes read from the UART (none when the read times out) go
    to the parser, the outbound queue is drained, the state machine is
    updated.  [led_matrix_update], [servo_update], [audio_update] and
    [sensor_update] follow and touch none of these globals. *)
Definition main_loop_iteration (callbacks : CallbackTable) (stack_byte : Z -> Z)
    (bytes : list Z) (w : World) : World :=
  let w :=
    if 0 <? Z.of_nat (length bytes)
    then fst (protocol_process_data callbacks w bytes)
    else w in
  let w := protocol_send_queued w in
  state_machine_update stack_byte w.

(** The loop run over successive reads, the clock standing at [fst tick]
    microseconds when the iteration that reads [snd tick] runs. *)
Fixpoint main_loop (callbacks : CallbackTable) (stack_byte : Z -> Z)
    (ticks : list (Z * list Z)) (w : World) : World :=
  match ticks with
  | [] => w
  | (now, bytes) :: rest =>
      main_loop callbacks stack_byte rest
        (main_loop_iteration callbacks stack_byte bytes (set_timer_us now w))
  end.

(** * Vocabulary of the further properties *)

(** The value of a little-endian byte sequence. *)
Fixpoint uint_of_bytes (bytes : list Z) : Z :=
  match bytes with
  | [] => 0
  | byte :: rest => byte + 256 * uint_of_bytes rest
  end.

(** The 256 values of a byte. *)
Definition byte_values : list Z := map Z.of_nat (seq 0 256).

(** The wire bytes of a sequence of responses, given as command and
    payload. *)
Definition wire_of (msg : Z * list Z) : list Z :=
  frame_wire (response_frame (fst msg) (snd msg) (Z.of_nat (length (snd msg)))).

(** What a run of the parser says of each frame it completed: command,
    payload, and whether the computed checksum was the received one. *)
Definition frame_summary (evs : list Event) : list (Z * list Z * bool) :=
  map (fun p => (cmd (fst p), payload_of (fst p), snd p =? crc (fst p)))
    (completed_frames evs).

(** No handler of the table changes the size of the parser's payload
    buffer. *)
Definition keeps_rx_buffer (callbacks : CallbackTable) : Prop :=
  forall c callback payload n w,
    callbacks c = Some callback ->
    length (data (rx_frame (protocol_handler (callback payload n w))))
    = length (data (rx_frame (protocol_handler w))).

(** The receive frame when the header for command [c] and the length of
    [payload], then [payload], then the checksum byte [byte] have been
    stored. *)
Definition frame_with_checksum (w : World) (c : Z) (payload : list Z) (byte : Z)
    : ProtocolFrame :=
  mkFrame FRAME_HEAD c (Z.of_nat (length payload))
    (write_bytes 0 payload (data (rx_frame (protocol_handler w)))) byte.

(** The bytes fed to the parser in successive calls of
    [protocol_process_data], one call per chunk. *)
Fixpoint feed_chunks (callbacks : CallbackTable) (w : World)
    (chunks : list (list Z)) : World * list Event :=
  match chunks with
  | [] => (w, [])
  | chunk :: rest =>
      let '(w1, evs1) := protocol_process_data callbacks w chunk in
      let '(w2, evs2) := feed_chunks callbacks w1 rest in
      (w2, evs1 ++ evs2)
  end.

(** Responses sent one after the other. *)
Definition send_all (msgs : list (Z * list Z)) (w : World) : World :=
  fold_left
    (fun w msg =>
       protocol_send_response w (fst msg) (snd msg) (Z.of_nat (length (snd msg))))
    msgs w.

(** The outbound queue holds no more than its capacity. *)
Definition tx_queue_bounded (w : World) : Prop :=
  Z.of_nat (length (tx_queue (protocol_handler w))) <= TX_QUEUE_LENGTH.

(** * servo.c *)

Module ServoDriver.

Definition SERVO_H_PIN : Z := 6.
Definition SERVO_V_PIN : Z := 7.
Definition SERVO_MIN_PULSE : Z := 500.
Definition SERVO_MAX_PULSE : Z := 2500.
Definition LEDC_CHANNEL_0 : Z := 0.
Definition LEDC_CHANNEL_1 : Z := 1.

Record Servo := mkServo {
  pin : Z;
  current_angle : Z;
  target_angle : Z;
  current_pulse : Z;
  target_pulse : Z;
  speed : Z;
  moving : bool;
  last_update : Z
}.

Record ServoController := mkServoController {
  horizontal : Servo;
  vertical : Servo;
  enabled : bool
}.

(** The file's global [servo_controller] and the calls of [ledc_set_duty]
    made so far (channel and duty), oldest first. *)
Record State := mkState {
  servo_controller : ServoController;
  ledc_duties : list (Z * Z)
}.

(** [&servo_controller.horizontal] or [&servo_controller.vertical], read and
    written through. *)
Definition get_servo (is_horizontal : bool) (st : State) : Servo :=
  if is_horizontal then horizontal (servo_controller st)
  else vertical (servo_controller st).

Definition set_servo (is_horizontal : bool) (servo : Servo) (st : State) : State :=
  let sc := servo_controller st in
  mkState
    (if is_horizontal then mkServoController servo (vertical sc) (enabled sc)
     else mkServoController (horizontal sc) servo (enabled sc))
    (ledc_duties st).

(** [SERVO_MIN_PULSE + (SERVO_MAX_PULSE - SERVO_MIN_PULSE) * angle / 180],
    in [int], returned as [uint16_t]. *)
Definition servo_angle_to_pulse (angle : Z) : Z :=
  let angle := if angle >? 180 then 180 else angle in
  uint16 (SERVO_MIN_PULSE
          + Z.quot ((SERVO_MAX_PULSE - SERVO_MIN_PULSE) * angle) 180).

Definition servo_pulse_to_angle (pulse : Z) : Z :=
  let pulse := if pulse <? SERVO_MIN_PULSE then SERVO_MIN_PULSE else pulse in
  let pulse := if pulse >? SERVO_MAX_PULSE then SERVO_MAX_PULSE else pulse in
  uint16 (Z.quot ((pulse - SERVO_MIN_PULSE) * 180)
            (SERVO_MAX_PULSE - SERVO_MIN_PULSE)).

Definition servo_set_angle (servo_id angle speed_arg : Z) (st : State) : State :=
  if negb (enabled (servo_controller st)) then st
  else
    let angle := if angle >? 180 then 180 else angle in
    let h := servo_id =? 1 in
    let servo := get_servo h st in
    set_servo h
      (mkServo (pin servo) (current_angle servo) angle (current_pulse servo)
         (servo_angle_to_pulse angle) speed_arg true (last_update servo)) st.

(** [duty = pulse * 65535 / 20000] is computed in [int] (the product fits
    for every pulse up to 32768) and stored in a [uint32_t]. *)
Definition servo_set_pulse (servo_id pulse : Z) (st : State) : State :=
  if negb (enabled (servo_controller st)) then st
  else
    let h := servo_id =? 1 in
    let servo := get_servo h st in
    let st :=
      set_servo h
        (mkServo (pin servo) (servo_pulse_to_angle pulse) (target_angle servo)
           pulse (target_pulse servo) (speed servo) (moving servo)
           (last_update servo)) st in
    let channel := if servo_id =? 1 then LEDC_CHANNEL_0 else LEDC_CHANNEL_1 in
    let duty := uint32 (Z.quot (pulse * 65535) 20000) in
    mkState (servo_controller st) (ledc_duties st ++ [(channel, duty)]).

Definition servo_stop (servo_id : Z) (st : State) : State :=
  let h := servo_id =? 1 in
  let servo := get_servo h st in
  set_servo h
    (mkServo (pin servo) (current_angle servo) (target_angle servo)
       (current_pulse servo) (target_pulse servo) (speed servo) false
       (last_update servo)) st.

Definition servo_stop_all (st : State) : State :=
  let sc := servo_controller st in
  let stop servo :=
    mkServo (pin servo) (current_angle servo) (target_angle servo)
      (current_pulse servo) (target_pulse servo) (speed servo) false
      (last_update servo) in
  mkState (mkServoController (stop (horizontal sc)) (stop (vertical sc)) (enabled sc))
    (ledc_duties st).

(** The body of the [for] loop of [servo_update], for index [i]; [now] is
    what [xTaskGetTickCount()] returned. *)
Definition servo_update_one (i : Z) (now : Z) (st : State) : State :=
  let h := i =? 0 in
  let servo := get_servo h st in
  if moving servo then
    let diff := uint16 (Z.abs (target_pulse servo - current_pulse servo)) in
    if diff <=? 1 then
      let st :=
        set_servo h
          (mkServo (pin servo) (target_angle servo) (target_angle servo)
             (target_pulse servo) (target_pulse servo) (speed servo) false
             (last_update servo)) st in
      servo_set_pulse (i + 1) (current_pulse (get_servo h st)) st
    else
      let step := uint16 (Z.quot ((speed servo + 1) * 10) 100) in
      let step := if step <? 1 then 1 else step in
      let step := if step >? diff then diff else step in
      let pulse :=
        if target_pulse servo >? current_pulse servo
        then uint16 (current_pulse servo + step)
        else uint16 (current_pulse servo - step) in
      let st :=
        set_servo h
          (mkServo (pin servo) (servo_pulse_to_angle pulse) (target_angle servo)
             pulse (target_pulse servo) (speed servo) (moving servo)
             (last_update servo)) st in
      let st := servo_set_pulse (i + 1) (current_pulse (get_servo h st)) st in
      let servo := get_servo h st in
      set_servo h
        (mkServo (pin servo) (current_angle servo) (target_angle servo)
           (current_pulse servo) (target_pulse servo) (speed servo)
           (moving servo) now) st
  else st.

Definition servo_update (now : Z) (st : State) : State :=
  if negb (enabled (servo_controller st)) then st
  else servo_update_one 1 now (servo_update_one 0 now st).

Definition servo_set_home (st : State) : State :=
  servo_set_angle 2 90 50 (servo_set_angle 1 90 50 st).

(** [servo_init]: the controller is zeroed, pins and angles set, the LEDC
    timer and channels configured (no duty is set), the servos sent home. *)
Definition servo_init (st : State) : State :=
  servo_set_home
    (mkState
       (mkServoController
          (mkServo SERVO_H_PIN 90 0 0 0 0 false 0)
          (mkServo SERVO_V_PIN 90 0 0 0 0 false 0)
          true)
       (ledc_duties st)).

(** [servo_update] called [n] times, at the ticks [now], [now + 1], ... *)
Fixpoint updates (n : nat) (now : Z) (st : State) : State :=
  match n with
  | O => st
  | S n' => updates n' (now + 1) (servo_update now st)
  end.

(** How far a servo is from its target, in microseconds of pulse. *)
Definition distance (servo : Servo) : Z :=
  Z.abs (target_pulse servo - current_pulse servo).

(** Both pulses of a servo are [uint16_t] values. *)
Definition pulses_in_range (servo : Servo) : Prop :=
  0 <= current_pulse servo < 65536 /\ 0 <= target_pulse servo < 65536.

(** What one call of [servo_update] makes of one servo of an enabled
    controller. *)
Definition servo_step (now : Z) (servo : Servo) : Servo :=
  if moving servo then
    let diff := uint16 (Z.abs (target_pulse servo - current_pulse servo)) in
    if diff <=? 1 then
      mkServo (pin servo) (servo_pulse_to_angle (target_pulse servo))
        (target_angle servo) (target_pulse servo) (target_pulse servo)
        (speed servo) false (last_update servo)
    else
      let step := uint16 (Z.quot ((speed servo + 1) * 10) 100) in
      let step := if step <? 1 then 1 else step in
      let step := if step >? diff then diff else step in
      let pulse :=
        if target_pulse servo >? current_pulse servo
        then uint16 (current_pulse servo + step)
        else uint16 (current_pulse servo - step) in
      mkServo (pin servo) (servo_pulse_to_angle pulse) (target_angle servo)
        pulse (target_pulse servo) (speed servo) (moving servo) now
  else servo.

End ServoDriver.

(** * led_matrix.c *)

Module LedMatrixDriver.

Definition MATRIX_SIZE : Z := 8.
Definition LED_BRIGHTNESS_DEFAULT : Z := 255.

(** [matrix] is the array [uint8_t matrix[8][8][3]] as it lies in memory:
    192 bytes, [matrix[x][y][c]] at offset [(x * 8 + y) * 3 + c]. *)
Record LedMatrix := mkLedMatrix {
  matrix : list Z;
  brightness : Z;
  last_update : Z;
  animating : bool;
  animation_frame : Z
}.

(** One [rmt_item32_t]. *)
Record rmt_item := mkItem {
  duration0 : Z;
  level0 : Z;
  duration1 : Z;
  level1 : Z
}.

(** The file's global [led_matrix] and the item sequences handed to
    [rmt_write_items] so far, oldest first. *)
Record State := mkState {
  led_matrix : LedMatrix;
  rmt_writes : list (list rmt_item)
}.

Definition set_matrix (v : list Z) (m : LedMatrix) : LedMatrix :=
  mkLedMatrix v (brightness m) (last_update m) (animating m) (animation_frame m).

Definition set_led_matrix (m : LedMatrix) (st : State) : State :=
  mkState m (rmt_writes st).

(** The integers [lo], [lo + 1], ..., [hi], the values a [for] loop counter
    takes. *)
Definition int_range (lo hi : Z) : list Z :=
  map (fun k => lo + Z.of_nat k) (seq 0 (Z.to_nat (hi - lo + 1))).

Definition offset (x y c : Z) : nat := Z.to_nat ((x * 8 + y) * 3 + c).

(** The items of one byte: bit 7 first, a set bit as 8 ticks high and 4 low,
    a clear bit as 4 high and 8 low. *)
Definition ws2812_byte_items (pixel : Z) : list rmt_item :=
  map (fun j =>
         let bit := Z.land (Z.shiftr pixel j) 0x01 in
         if bit =? 0 then mkItem 4 1 8 0 else mkItem 8 1 4 0)
    [7; 6; 5; 4; 3; 2; 1; 0].

(** [ws2812_write_pixels]: the loop runs over [num_pixels] bytes of
    [pixels]. *)
Definition ws2812_write_pixels (pixels : list Z) (num_pixels : Z) (st : State)
    : State :=
  mkState (led_matrix st)
    (rmt_writes st
       ++ [flat_map ws2812_byte_items (take (Z.to_nat num_pixels) pixels)]).

Definition led_matrix_set_pixel (x y r g b : Z) (m : LedMatrix) : LedMatrix :=
  if (x >=? MATRIX_SIZE) || (y >=? MATRIX_SIZE) then m
  else
    set_matrix
      (<[offset x y 2 := uint8 (Z.quot (b * brightness m) 255)]>
         (<[offset x y 1 := uint8 (Z.quot (g * brightness m) 255)]>
            (<[offset x y 0 := uint8 (Z.quot (r * brightness m) 255)]>
               (matrix m))))
      m.

(** [led_matrix_get_pixel]: the three values stored through the pointers,
    or [None] when the function returns without storing. *)
Definition led_matrix_get_pixel (x y : Z) (m : LedMatrix) : option (Z * Z * Z) :=
  if (x >=? MATRIX_SIZE) || (y >=? MATRIX_SIZE) then None
  else Some (nth (offset x y 0) (matrix m) 0,
             nth (offset x y 1) (matrix m) 0,
             nth (offset x y 2) (matrix m) 0).

Definition led_matrix_clear (m : LedMatrix) : LedMatrix :=
  set_matrix (replicate 192 0) m.

Definition led_matrix_fill (r g b : Z) (m : LedMatrix) : LedMatrix :=
  fold_left
    (fun m x =>
       fold_left (fun m y => led_matrix_set_pixel x y r g b m)
         (int_range 0 (MATRIX_SIZE - 1)) m)
    (int_range 0 (MATRIX_SIZE - 1)) m.

Definition led_matrix_set_brightness (v : Z) (m : LedMatrix) : LedMatrix :=
  mkLedMatrix (matrix m) v (last_update m) (animating m) (animation_frame m).

(** The 192 bytes [led_matrix_update] collects: green, red, blue of each
    pixel, [x] outermost. *)
Definition grb_bytes (m : LedMatrix) : list Z :=
  flat_map
    (fun x =>
       flat_map
         (fun y =>
            [nth (offset x y 1) (matrix m) 0;
             nth (offset x y 0) (matrix m) 0;
             nth (offset x y 2) (matrix m) 0])
         (int_range 0 (MATRIX_SIZE - 1)))
    (int_range 0 (MATRIX_SIZE - 1)).

Definition led_matrix_update (st : State) : State :=
  ws2812_write_pixels (grb_bytes (led_matrix st)) (MATRIX_SIZE * MATRIX_SIZE) st.

(** [led_matrix_draw_eye]; the coordinates passed to [led_matrix_set_pixel]
    are converted to [uint8_t]. *)
Definition led_matrix_draw_eye (center_x center_y radius r g b : Z)
    (m : LedMatrix) : LedMatrix :=
  fold_left
    (fun m x =>
       fold_left
         (fun m y =>
            if (x >=? 0) && (x <? MATRIX_SIZE) && (y >=? 0) && (y <? MATRIX_SIZE)
            then
              let dx := x - center_x in
              let dy := y - center_y in
              if dx * dx + dy * dy <=? radius * radius
              then led_matrix_set_pixel (uint8 x) (uint8 y) r g b m
              else m
            else m)
         (int_range (center_y - radius) (center_y + radius)) m)
    (int_range (center_x - radius) (center_x + radius)) m.

(** [led_matrix_draw_pupil] has the body of [led_matrix_draw_eye]. *)
Definition led_matrix_draw_pupil (center_x center_y radius r g b : Z)
    (m : LedMatrix) : LedMatrix :=
  led_matrix_draw_eye center_x center_y radius r g b m.

(** The [switch] of [led_matrix_set_expression]: the row of the eyes'
    centres and their colour. *)
Definition expression_eyes (expression_id : Z) : Z * (Z * Z * Z) :=
  if expression_id =? 0x00 then (4, (50, 50, 50))
  else if expression_id =? 0x01 then (4, (0, 255, 0))
  else if expression_id =? 0x02 then (4, (0, 150, 255))
  else if expression_id =? 0x03 then (3, (255, 200, 0))
  else if expression_id =? 0x04 then (4, (255, 100, 100))
  else if expression_id =? 0x05 then (4, (255, 255, 0))
  else if expression_id =? 0x06 then (5, (0, 0, 255))
  else if expression_id =? 0x07 then (3, (255, 255, 255))
  else if expression_id =? 0x08 then (4, (255, 165, 0))
  else if expression_id =? 0x09 then (4, (255, 255, 150))
  else if expression_id =? 0x0A then (5, (255, 182, 193))
  else if expression_id =? 0x0B then (4, (255, 0, 0))
  else if expression_id =? 0x0C then (4, (255, 105, 180))
  else if expression_id =? 0x0D then (4, (128, 128, 128))
  else if expression_id =? 0x0E then (3, (255, 0, 255))
  else if expression_id =? 0x0F then (4, (200, 200, 200))
  else (4, (255, 255, 255)).

Definition led_matrix_set_expression (expression_id : Z) (st : State) : State :=
  let m := led_matrix_clear (led_matrix st) in
  let '(row, (r, g, b)) := expression_eyes expression_id in
  let m := led_matrix_draw_eye 2 row 2 r g b m in
  let m := led_matrix_draw_eye 5 row 2 r g b m in
  led_matrix_update (set_led_matrix m st).

Definition led_matrix_set_eyes (left_expr right_expr : Z) (st : State) : State :=
  let m := led_matrix_clear (led_matrix st) in
  let m :=
    if left_expr =? 0 then led_matrix_draw_eye 2 4 2 50 50 50 m
    else led_matrix_draw_eye 2 4 2 0 150 255 m in
  let m :=
    if right_expr =? 0 then led_matrix_draw_eye 5 4 2 50 50 50 m
    else led_matrix_draw_eye 5 4 2 0 150 255 m in
  led_matrix_update (set_led_matrix m st).

(** [led_matrix_init]: the global is zeroed, the brightness set, the RMT
    configured, the matrix cleared. *)
Definition led_matrix_init (st : State) : State :=
  set_led_matrix
    (led_matrix_clear (mkLedMatrix (replicate 192 0) LED_BRIGHTNESS_DEFAULT 0 false 0))
    st.

(** The byte a run of eight items stands for on the wire: an item whose high
    time is the longer one is a set bit, the first item the top bit. *)
Definition byte_of_items (items : list rmt_item) : Z :=
  fold_left
    (fun acc item => 2 * acc + (if duration0 item >? duration1 item then 1 else 0))
    items 0.

Fixpoint bytes_of_items (n : nat) (items : list rmt_item) : list Z :=
  match n with
  | O => []
  | S n' => byte_of_items (take 8 items) :: bytes_of_items n' (drop 8 items)
  end.

(** The matrix is the 192-byte array and holds bytes. *)
Definition well_formed (m : LedMatrix) : Prop :=
  length (matrix m) = 192%nat /\ Forall is_uint8 (matrix m).

(** What [led_matrix_set_pixel] stores for a colour component. *)
Definition scaled (v : Z) (m : LedMatrix) : Z :=
  uint8 (Z.quot (v * brightness m) 255).

End LedMatrixDriver.

(** The test of [led_matrix_draw_eye] for the loop values [x] and [y]:
    inside the matrix and inside the disc. *)
Definition eye_hit (center_x center_y radius x y : Z) : bool :=
  (x >=? 0) && (x <? 8) && (y >=? 0) && (y <? 8)
  && ((x - center_x) * (x - center_x) + (y - center_y) * (y - center_y)
      <=? radius * radius).

(** Pixel [(px, py)] is painted while the loops run over [xs] and [ys]. *)
Definition eye_covers (center_x center_y radius : Z) (xs ys : list Z)
    (px py : Z) : bool :=
  existsb
    (fun x =>
       (px =? x)
       && existsb (fun y => (py =? y) && eye_hit center_x center_y radius x y) ys)
    xs.

(** Pixel [(px, py)] lies in the disc of an eye. *)
Definition in_disc (center_x center_y radius px py : Z) : bool :=
  (px - center_x) * (px - center_x) + (py - center_y) * (py - center_y)
  <=? radius * radius.

(** Two matrices differ in their pixel array at most. *)
Definition same_settings (m m' : LedMatrixDriver.LedMatrix) : Prop :=
  LedMatrixDriver.brightness m' = LedMatrixDriver.brightness m
  /\ LedMatrixDriver.last_update m' = LedMatrixDriver.last_update m
  /\ LedMatrixDriver.animating m' = LedMatrixDriver.animating m
  /\ LedMatrixDriver.animation_frame m' = LedMatrixDriver.animation_frame m.

(** The colour [led_matrix_set_pixel] stores under the brightness of [m]. *)
Definition scaled_colour (r g b : Z) (m : LedMatrixDriver.LedMatrix)
    : option (Z * Z * Z) :=
  Some (LedMatrixDriver.scaled r m, LedMatrixDriver.scaled g m,
        LedMatrixDriver.scaled b m).

(** The offsets in the pixel array of the 192 bytes [led_matrix_update]
    collects, in the order it collects them. *)
Definition grb_offsets : list nat :=
  flat_map
    (fun x =>
       flat_map
         (fun y =>
            [LedMatrixDriver.offset x y 1; LedMatrixDriver.offset x y 0;
             LedMatrixDriver.offset x y 2])
         (LedMatrixDriver.int_range 0 7))
    (LedMatrixDriver.int_range 0 7).

(** The picture of an expression: the two eyes. *)
Definition in_eyes (expression_id px py : Z) : bool :=
  let row := fst (LedMatrixDriver.expression_eyes expression_id) in
  in_disc 2 row 2 px py || in_disc 5 row 2 px py.

(** * Properties *)

(** ** Records are determined by their fields *)

Lemma set_protocol_handler_same (w : World) :
  set_protocol_handler (protocol_handler w) w = w.
Proof. now destruct w. Qed.

Lemma set_tx_queue_same (h : ProtocolHandler) :
  set_tx_queue (tx_queue h) h = h.
Proof. now destruct h. Qed.

(** ** The outbound queue *)

Lemma xQueueSend_full (queue : list ProtocolFrame) (item : ProtocolFrame) :
  TX_QUEUE_LENGTH <= Z.of_nat (length queue) ->
  xQueueSend queue item = (queue, errQUEUE_FULL).
Proof.
  intros Hfull. unfold xQueueSend.
  destruct (Z.ltb_spec (Z.of_nat (length queue)) TX_QUEUE_LENGTH); [lia | reflexivity].
Qed.

Lemma xQueueSend_room (queue : list ProtocolFrame) (item : ProtocolFrame) :
  Z.of_nat (length queue) < TX_QUEUE_LENGTH ->
  xQueueSend queue item = (queue ++ [item], pdTRUE).
Proof.
  intros Hroom. unfold xQueueSend.
  destruct (Z.ltb_spec (Z.of_nat (length queue)) TX_QUEUE_LENGTH); [reflexivity | lia].
Qed.

(** C5, as stated, fails: on a full queue the queue primitive answers
    [errQUEUE_FULL], and [protocol_send_frame] hands its caller neither that
    answer nor any other trace of it: the world it returns is the world it
    was given. *)
Lemma C5_counterexample :
  let frame := response_frame CMD_GET_STATUS [1; 100; 0; 90; 0; 90; 0] 7 in
  Z.of_nat (length (tx_queue (protocol_handler saturated_world))) = TX_QUEUE_LENGTH
  /\ snd (xQueueSend (tx_queue (protocol_handler saturated_world)) frame)
     = errQUEUE_FULL
  /\ protocol_send_frame saturated_world frame = saturated_world.
Proof. vm_compute. repeat split; reflexivity. Qed.

(** C5 (amended): enqueuing a frame when the queue holds its ten frames
    leaves every global as it was, the queued frames intact and in order,
    and drops the new frame without telling the caller (the operation
    returns nothing); enqueuing when the queue holds fewer appends the frame
    behind the queued ones and changes nothing else. *)
Theorem C5_enqueue (w : World) (frame : ProtocolFrame) :
  let queue := tx_queue (protocol_handler w) in
  (TX_QUEUE_LENGTH <= Z.of_nat (length queue) ->
     protocol_send_frame w frame = w)
  /\ (Z.of_nat (length queue) < TX_QUEUE_LENGTH ->
        protocol_send_frame w frame =
        set_protocol_handler
          (set_tx_queue (queue ++ [frame]) (protocol_handler w)) w).
Proof.
  cbn zeta. unfold protocol_send_frame. split; intros Hlen.
  - rewrite xQueueSend_full by exact Hlen. cbn [fst].
    now rewrite set_tx_queue_same, set_protocol_handler_same.
  - now rewrite xQueueSend_room by exact Hlen.
Qed.

Lemma C5_enqueue_witness :
  let frame := response_frame CMD_GET_STATUS [1; 100; 0; 90; 0; 90; 0] 7 in
  protocol_send_frame saturated_world frame = saturated_world
  /\ tx_queue (protocol_handler
                 (protocol_send_frame (app_main_startup power_on) frame))
     = [frame].
Proof.
  cbn zeta. split.
  - apply (proj1 (C5_enqueue saturated_world _)). vm_compute. discriminate.
  - rewrite (proj2 (C5_enqueue (app_main_startup power_on) _)).
    + reflexivity.
    + vm_compute. reflexivity.
Defined.

(** ** The behaviour controller *)

Section Transition.

Variable stack_byte : Z -> Z.

Lemma transition_other (new_state : Z) (w : World) :
  new_state <> current_state (state_machine w) ->
  state_machine_transition stack_byte new_state w =
  mkWorld
    (set_tx_queue
       (fst (xQueueSend (tx_queue (protocol_handler w))
               (response_frame CMD_SET_STATE
                  (transition_data stack_byte new_state (entered new_state w)) 9)))
       (protocol_handler w))
    (entered new_state w)
    (led_expressions w ++ [current_expression (entered new_state w)])
    (uart_tx w) (timer_us w).
Proof.
  intros Hne. unfold state_machine_transition.
  destruct (Z.eqb_spec new_state (current_state (state_machine w))) as [Heq | _];
    [contradiction | reflexivity].
Qed.

Lemma transition_current_state (new_state : Z) (w : World) :
  current_state (state_machine (state_machine_transition stack_byte new_state w))
  = new_state.
Proof.
  unfold state_machine_transition.
  destruct (Z.eqb_spec new_state (current_state (state_machine w))) as [Heq | _];
    [now symmetry | reflexivity].
Qed.

End Transition.

Lemma expression_for_five (s e current : Z) :
  In (s, e)
     [(STATE_SLEEP, 0x00); (STATE_WAKE, 0x01); (STATE_LISTEN, 0x02);
      (STATE_THINK, 0x03); (STATE_TALK, 0x04)] ->
  expression_for s current = e.
Proof.
  cbn [In]. intros H.
  repeat (destruct H as [H | H]; [now inversion H |]). contradiction.
Qed.

Lemma expression_for_other (v current : Z) :
  ~ In v [STATE_SLEEP; STATE_WAKE; STATE_LISTEN; STATE_THINK; STATE_TALK] ->
  expression_for v current = current.
Proof.
  cbn [In]. intros H. unfold expression_for.
  repeat match goal with
         | |- context [?a =? ?b] =>
             destruct (Z.eqb_spec a b); [exfalso; apply H; intuition congruence |]
         end.
  reflexivity.
Qed.

(** C8: a transition into the current state changes nothing at all: the
    world returned is the world given, so no field of the state machine
    moves, the display is not called and nothing is enqueued. *)
Theorem C8_self_transition_is_noop (stack_byte : Z -> Z) (w : World) :
  state_machine_transition stack_byte (current_state (state_machine w)) w = w.
Proof.
  unfold state_machine_transition. now rewrite Z.eqb_refl.
Qed.

(** C9, as stated, fails: with ten frames waiting in the outbound queue the
    transition from SLEEP into TALK changes the state and enqueues
    nothing. *)
Lemma C9_counterexample :
  let w := state_machine_transition (fun _ => 0) STATE_TALK saturated_world in
  current_state (state_machine saturated_world) = STATE_SLEEP
  /\ current_state (state_machine w) = STATE_TALK
  /\ tx_queue (protocol_handler w) = tx_queue (protocol_handler saturated_world).
Proof. vm_compute. repeat split; reflexivity. Qed.

(** C9 (amended): for each of the five states, a transition into it from a
    different state sets the expression of the mapping (SLEEP 0x00, WAKE
    0x01, LISTEN 0x02, THINK 0x03, TALK 0x04), records the old state as
    previous state, stamps the entry time, makes the new state current,
    gives the expression to the display once, and sends one frame of command
    0x07 whose nine payload bytes start with the state, the battery level,
    the expression and the two servo angles (low byte first); the frame
    joins the outbound queue when fewer than ten frames wait there and is
    dropped when ten do. *)
Theorem C9_transition_into_state (stack_byte : Z -> Z) (s e : Z) (w : World) :
  In (s, e)
     [(STATE_SLEEP, 0x00); (STATE_WAKE, 0x01); (STATE_LISTEN, 0x02);
      (STATE_THINK, 0x03); (STATE_TALK, 0x04)] ->
  s <> current_state (state_machine w) ->
  let sm := state_machine w in
  let queue := tx_queue (protocol_handler w) in
  let w' := state_machine_transition stack_byte s w in
  let frame :=
    response_frame CMD_SET_STATE
      [s; battery_level sm; e;
       Z.land (servo_h_angle sm) 0xFF; Z.land (Z.shiftr (servo_h_angle sm) 8) 0xFF;
       Z.land (servo_v_angle sm) 0xFF; Z.land (Z.shiftr (servo_v_angle sm) 8) 0xFF;
       stack_byte 7; stack_byte 8] 9 in
  state_machine w' =
    mkStateMachine s (current_state sm) (now_ms w) (battery_level sm) e
      (servo_h_angle sm) (servo_v_angle sm) (running sm)
  /\ led_expressions w' = led_expressions w ++ [e]
  /\ tx_queue (protocol_handler w') =
       (if Z.of_nat (length queue) <? TX_QUEUE_LENGTH
        then queue ++ [frame] else queue).
Proof.
  intros Hin Hne. cbn zeta.
  rewrite (transition_other stack_byte s w Hne).
  unfold entered, transition_data. cbn [state_machine led_expressions
    protocol_handler tx_queue set_tx_queue current_expression battery_level
    servo_h_angle servo_v_angle].
  rewrite (expression_for_five s e _ Hin).
  assert (Hs : uint8 s = s).
  { cbn [In] in Hin.
    repeat (destruct Hin as [Hin | Hin]; [now inversion Hin |]). contradiction. }
  rewrite Hs. unfold xQueueSend.
  repeat split.
  now destruct (Z.of_nat (length (tx_queue (protocol_handler w))) <? TX_QUEUE_LENGTH).
Qed.

Lemma C9_transition_into_state_witness :
  let w := app_main_startup power_on in
  let w' := state_machine_transition (fun _ => 0) STATE_TALK w in
  state_machine w' = mkStateMachine STATE_TALK STATE_SLEEP 0 100 0x04 90 90 true
  /\ led_expressions w' = [0x00; 0x04]
  /\ tx_queue (protocol_handler w') =
       [response_frame CMD_SET_STATE [5; 100; 4; 90; 0; 90; 0; 0; 0] 9].
Proof.
  exact (C9_transition_into_state (fun _ => 0) STATE_TALK 0x04
           (app_main_startup power_on)
           ltac:(cbn [In]; tauto) ltac:(vm_compute; discriminate)).
Defined.

(** C4, as stated, fails: after start-up (state SLEEP) a transition request
    for the value 9, which names no state, is carried out: 9 becomes the
    current state, the display is called and a frame is enqueued. *)
Lemma C4_counterexample :
  let w := app_main_startup power_on in
  let w' := state_machine_transition (fun _ => 0) 9 w in
  ~ In 9 [STATE_SLEEP; STATE_WAKE; STATE_LISTEN; STATE_THINK; STATE_TALK]
  /\ current_state (state_machine w) = STATE_SLEEP
  /\ current_state (state_machine w') = 9
  /\ w' <> w.
Proof.
  cbn zeta. split; [| split; [| split]].
  - cbn [In]. unfold STATE_SLEEP, STATE_WAKE, STATE_LISTEN, STATE_THINK, STATE_TALK.
    intuition discriminate.
  - reflexivity.
  - reflexivity.
  - intros Heq. apply (f_equal (fun w => current_state (state_machine w))) in Heq.
    vm_compute in Heq. discriminate.
Qed.

(** C4 (amended): a transition request for a value outside the five states
    and different from the current state is carried out like any other: the
    value becomes the current state, the old state the previous one, the
    entry time is stamped, the expression stays what it was and is given to
    the display again, and one frame of command 0x07 starting with the
    value's low byte is sent (queued when fewer than ten frames wait,
    dropped otherwise).  Nothing is rejected. *)
Theorem C4_out_of_range_state_is_entered (stack_byte : Z -> Z) (v : Z) (w : World) :
  ~ In v [STATE_SLEEP; STATE_WAKE; STATE_LISTEN; STATE_THINK; STATE_TALK] ->
  v <> current_state (state_machine w) ->
  let sm := state_machine w in
  let queue := tx_queue (protocol_handler w) in
  let w' := state_machine_transition stack_byte v w in
  let frame :=
    response_frame CMD_SET_STATE
      [uint8 v; battery_level sm; current_expression sm;
       Z.land (servo_h_angle sm) 0xFF; Z.land (Z.shiftr (servo_h_angle sm) 8) 0xFF;
       Z.land (servo_v_angle sm) 0xFF; Z.land (Z.shiftr (servo_v_angle sm) 8) 0xFF;
       stack_byte 7; stack_byte 8] 9 in
  state_machine w' =
    mkStateMachine v (current_state sm) (now_ms w) (battery_level sm)
      (current_expression sm) (servo_h_angle sm) (servo_v_angle sm) (running sm)
  /\ led_expressions w' = led_expressions w ++ [current_expression sm]
  /\ tx_queue (protocol_handler w') =
       (if Z.of_nat (length queue) <? TX_QUEUE_LENGTH
        then queue ++ [frame] else queue).
Proof.
  intros Hout Hne. cbn zeta.
  rewrite (transition_other stack_byte v w Hne).
  unfold entered, transition_data. cbn [state_machine led_expressions
    protocol_handler tx_queue set_tx_queue current_expression battery_level
    servo_h_angle servo_v_angle].
  rewrite (expression_for_other v _ Hout). unfold xQueueSend.
  repeat split.
  now destruct (Z.of_nat (length (tx_queue (protocol_handler w))) <? TX_QUEUE_LENGTH).
Qed.

Lemma C4_out_of_range_state_is_entered_witness :
  let w := app_main_startup power_on in
  let w' := state_machine_transition (fun _ => 0) 9 w in
  state_machine w' = mkStateMachine 9 STATE_SLEEP 0 100 0x00 90 90 true
  /\ led_expressions w' = [0x00; 0x00]
  /\ tx_queue (protocol_handler w') =
       [response_frame CMD_SET_STATE [9; 100; 0; 90; 0; 90; 0; 0; 0] 9].
Proof.
  exact (C4_out_of_range_state_is_entered (fun _ => 0) 9
           (app_main_startup power_on)
           ltac:(cbn [In];
                 unfold STATE_SLEEP, STATE_WAKE, STATE_LISTEN, STATE_THINK, STATE_TALK;
                 intuition discriminate)
           ltac:(vm_compute; discriminate)).
Defined.

(** C6, as stated, fails: the controller is running and in WAKE, the clock
    has advanced 2000 ms since WAKE was entered, and the update step leaves
    everything as it is. *)
Lemma C6_counterexample :
  running (state_machine (awake_for 2000)) = true
  /\ current_state (state_machine (awake_for 2000)) = STATE_WAKE
  /\ elapsed_ms (awake_for 2000) = 2000
  /\ state_machine_update (fun _ => 0) (awake_for 2000) = awake_for 2000.
Proof. vm_compute. repeat split; reflexivity. Qed.

(** C6 (amended): while running, the update step performs the transition to
    LISTEN exactly when the current state is WAKE and the time since the
    state was entered (milliseconds, modulo 2^32) is strictly greater than
    2000: at 2000 ms it does nothing, at 2001 ms it transitions; in every
    other case, in particular for every other current state, it changes
    nothing. *)
Theorem C6_update_wake_timeout (stack_byte : Z -> Z) (w : World) :
  running (state_machine w) = true ->
  (current_state (state_machine w) = STATE_WAKE /\ 2000 < elapsed_ms w ->
     state_machine_update stack_byte w =
       state_machine_transition stack_byte STATE_LISTEN w
     /\ current_state (state_machine (state_machine_update stack_byte w))
        = STATE_LISTEN
     /\ previous_state (state_machine (state_machine_update stack_byte w))
        = STATE_WAKE)
  /\ (current_state (state_machine w) <> STATE_WAKE \/ elapsed_ms w <= 2000 ->
        state_machine_update stack_byte w = w).
Proof.
  intros Hrun. unfold state_machine_update, elapsed_ms. rewrite Hrun. cbn [negb].
  split.
  - intros [Hwake Hlate]. rewrite Hwake. cbn [Z.eqb STATE_WAKE STATE_SLEEP Pos.eqb].
    destruct (Z.gtb_spec (uint32 (now_ms w - state_enter_time (state_machine w))) 2000);
      [| lia].
    split; [reflexivity |].
    rewrite transition_current_state. split; [reflexivity |].
    rewrite transition_other by (rewrite Hwake; discriminate).
    exact Hwake.
  - intros Hcase.
    destruct (Z.eqb_spec (current_state (state_machine w)) STATE_SLEEP); [reflexivity |].
    destruct (Z.eqb_spec (current_state (state_machine w)) STATE_WAKE) as [Hwake | _].
    + destruct Hcase as [Hno | Hearly]; [contradiction |].
      destruct (Z.gtb_spec (uint32 (now_ms w - state_enter_time (state_machine w))) 2000);
        [lia | reflexivity].
    + repeat match goal with |- context [if ?b then _ else _] => destruct b end;
        reflexivity.
Qed.

Lemma C6_update_wake_timeout_witness :
  running (state_machine (awake_for 2001)) = true
  /\ state_machine_update (fun _ => 0) (awake_for 2001) =
       state_machine_transition (fun _ => 0) STATE_LISTEN (awake_for 2001)
  /\ current_state (state_machine (state_machine_update (fun _ => 0) (awake_for 2001)))
     = STATE_LISTEN
  /\ state_machine_update (fun _ => 0) (awake_for 2000) = awake_for 2000.
Proof.
  split; [reflexivity |].
  destruct (C6_update_wake_timeout (fun _ => 0) (awake_for 2001) eq_refl) as [Hlate _].
  destruct (C6_update_wake_timeout (fun _ => 0) (awake_for 2000) eq_refl) as [_ Hearly].
  destruct Hlate as (H1 & H2 & _); [vm_compute; split; reflexivity |].
  split; [exact H1 |]. split; [exact H2 |].
  apply Hearly. right. vm_compute. discriminate.
Defined.

(** ** The receive parser *)

(** What [process_byte] does with a checksum byte. *)
Lemma process_byte_checksum (callbacks : CallbackTable) (w : World) (byte : Z) :
  at_checksum_byte w ->
  let frame := frame_received w byte in
  let calc_crc := computed_crc frame in
  let w1 :=
    set_protocol_handler
      (set_rx_frame frame
         (set_rx_index (uint16 (rx_index (protocol_handler w) + 1))
            (protocol_handler w))) w in
  let dispatched :=
    if calc_crc =? byte then
      match callbacks (cmd frame) with
      | Some callback =>
          (callback (data frame) (len frame) w1,
           [EvCallback (cmd frame) (data frame) (len frame)])
      | None => (w1, [EvNoCallback (cmd frame)])
      end
    else (w1, [EvCrcMismatch calc_crc byte]) in
  process_byte callbacks w byte =
  (set_protocol_handler
     (set_rx_index 0 (set_rx_receiving false (protocol_handler (fst dispatched))))
     (fst dispatched),
   EvFrame frame calc_crc :: snd dispatched).
Proof.
  intros (Hrecv & Hidx & Hlen). cbn zeta.
  unfold process_byte, frame_received, computed_crc. rewrite Hrecv. cbn [negb].
  cbn [set_rx_index rx_frame rx_index rx_receiving tx_queue].
  set (idx := uint16 (rx_index (protocol_handler w) + 1)) in *.
  destruct (Z.eqb_spec idx 1); [lia |].
  destruct (Z.eqb_spec idx 2); [lia |].
  destruct (Z.eqb_spec idx 3); [lia |].
  destruct (Z.ltb_spec idx (4 + len (rx_frame (protocol_handler w)))); [lia |].
  destruct (Z.eqb_spec idx (4 + len (rx_frame (protocol_handler w)))); [| lia].
  cbn [set_crc crc cmd len data head].
  destruct (calc_crc8 _ _ =? byte);
    [destruct (callbacks (cmd (rx_frame (protocol_handler w)))) |];
    reflexivity.
Qed.

(** C2: whatever bytes have been fed before, when the next byte is the
    checksum byte of the frame in progress the parser completes exactly that
    frame and is idle afterwards ([rx_receiving] false, cursor zero), whether
    the checksum matches or not; and when the computed checksum differs from
    the received one, the only events are the completed frame and the
    mismatch warning, no handler is called, and no global other than the
    parser's own changes. *)
Theorem C2_checksum_mismatch_not_dispatched
    (callbacks : CallbackTable) (w0 : World) (bytes : list Z) (byte : Z) :
  let w := fst (protocol_process_data callbacks w0 bytes) in
  let frame := frame_received w byte in
  let w' := fst (process_byte callbacks w byte) in
  let evs := snd (process_byte callbacks w byte) in
  at_checksum_byte w ->
  completed_frames evs = [(frame, computed_crc frame)]
  /\ rx_receiving (protocol_handler w') = false
  /\ rx_index (protocol_handler w') = 0
  /\ (computed_crc frame <> crc frame ->
        evs = [EvFrame frame (computed_crc frame);
               EvCrcMismatch (computed_crc frame) (crc frame)]
        /\ callback_calls evs = []
        /\ w' = set_protocol_handler
                  (mkHandler frame 0 false (tx_queue (protocol_handler w))) w).
Proof.
  cbn zeta. intros Hat.
  rewrite (process_byte_checksum callbacks _ byte Hat). cbn zeta. cbn [fst snd].
  set (w := fst (protocol_process_data callbacks w0 bytes)) in *.
  set (frame := frame_received w byte).
  assert (Hcrc : crc frame = byte) by reflexivity. rewrite Hcrc.
  split; [| split; [reflexivity | split; [reflexivity |]]].
  - destruct (computed_crc frame =? byte);
      [destruct (callbacks (cmd frame)) |]; reflexivity.
  - intros Hne.
    destruct (Z.eqb_spec (computed_crc frame) byte) as [Heq | _]; [contradiction |].
    cbn [fst snd]. repeat split.
Qed.

Lemma C2_checksum_mismatch_not_dispatched_witness :
  let callbacks :=
    protocol_register_callback app_main_callbacks CMD_SET_STATE
      (fun payload _ => state_machine_transition (fun _ => 0) (nth 0 payload 0)) in
  let w := fst (protocol_process_data callbacks (app_main_startup power_on)
                  [0xAA; 0x07; 0x01; 0x00; 0x05]) in
  let r := process_byte callbacks w 0x00 in
  at_checksum_byte w
  /\ computed_crc (frame_received w 0x00) = 0x3C
  /\ callback_calls (snd r) = []
  /\ rx_receiving (protocol_handler (fst r)) = false
  /\ rx_index (protocol_handler (fst r)) = 0
  /\ state_machine (fst r) = state_machine (app_main_startup power_on).
Proof.
  cbn zeta.
  set (callbacks := protocol_register_callback _ _ _).
  assert (Hat : at_checksum_byte
                  (fst (protocol_process_data callbacks (app_main_startup power_on)
                          [0xAA; 0x07; 0x01; 0x00; 0x05]))).
  { vm_compute. repeat split; reflexivity. }
  destruct (C2_checksum_mismatch_not_dispatched callbacks
              (app_main_startup power_on) [0xAA; 0x07; 0x01; 0x00; 0x05] 0x00 Hat)
    as (_ & Hidle & Hcursor & Hbad).
  assert (Hcrc : computed_crc
                   (frame_received
                      (fst (protocol_process_data callbacks
                              (app_main_startup power_on)
                              [0xAA; 0x07; 0x01; 0x00; 0x05])) 0x00) = 0x3C).
  { vm_compute. reflexivity. }
  destruct Hbad as (_ & Hcalls & Hworld).
  { rewrite Hcrc. cbn. discriminate. }
  split; [exact Hat |]. split; [exact Hcrc |]. split; [exact Hcalls |].
  split; [exact Hidle |]. split; [exact Hcursor |].
  rewrite Hworld. reflexivity.
Defined.

(** *** Feeding one serialized frame to an idle parser *)

(** The two length bytes of the wire format give back the length. *)
Lemma length_bytes_inverse (n : Z) :
  0 <= n < 65536 ->
  uint16 (Z.lor (Z.land n 0xFF) (Z.shiftl (Z.land (Z.shiftr n 8) 0xFF) 8)) = n.
Proof.
  intros Hn. unfold uint16.
  change 65536 with (2 ^ 16). change 0xFF with (Z.ones 8).
  rewrite <- Z.land_ones by lia.
  apply Z.bits_inj'. intros i Hi.
  rewrite Z.land_spec, Z.lor_spec, Z.land_spec.
  destruct (Z.lt_ge_cases i 8) as [Hlo | Hhi].
  - rewrite Z.shiftl_spec_low by lia.
    rewrite !Z.ones_spec_low by lia.
    now rewrite orb_false_r, !andb_true_r.
  - rewrite Z.shiftl_spec by lia. rewrite Z.land_spec, Z.shiftr_spec by lia.
    replace (i - 8 + 8) with i by lia.
    rewrite (Z.ones_spec_high 8 i) by lia. rewrite andb_false_r, orb_false_l.
    destruct (Z.lt_ge_cases i 16) as [Hmid | Htop].
    + rewrite !Z.ones_spec_low by lia. now rewrite !andb_true_r.
    + rewrite (Z.ones_spec_high 16 i) by lia.
      rewrite (Z.ones_spec_high 8 (i - 8)) by lia.
      rewrite !andb_false_r.
      destruct (Z.eq_dec n 0) as [-> | Hnz]; [now rewrite Z.bits_0 |].
      symmetry. apply Z.bits_above_log2; [lia |].
      apply Z.log2_lt_pow2; [lia |].
      apply Z.lt_le_trans with (2 ^ 16); [lia |].
      apply Z.pow_le_mono_r; lia.
Qed.

(** [crc8_loop] reads the first [n] bytes only. *)
Lemma crc8_loop_prefix (n : nat) :
  forall (mem mem' : list Z) (c : Z),
    take n mem = take n mem' -> crc8_loop mem n c = crc8_loop mem' n c.
Proof.
  induction n as [| n IH]; intros mem mem' c Htake; [reflexivity |].
  destruct mem as [| b mem], mem' as [| b' mem']; cbn in *;
    try reflexivity; try discriminate.
  injection Htake as -> Htake. now apply IH.
Qed.

Lemma length_write_bytes (bytes : list Z) :
  forall (k : nat) (buffer : list Z),
    length (write_bytes k bytes buffer) = length buffer.
Proof.
  induction bytes as [| b rest IH]; intros k buffer; cbn; [reflexivity |].
  now rewrite IH, length_insert.
Qed.

Lemma take_write_bytes (bytes : list Z) :
  forall (k : nat) (buffer : list Z),
    (k + length bytes <= length buffer)%nat ->
    take (k + length bytes) (write_bytes k bytes buffer) = take k buffer ++ bytes.
Proof.
  induction bytes as [| b rest IH]; intros k buffer Hlen; cbn in *.
  - now rewrite Nat.add_0_r, app_nil_r.
  - replace (k + S (length rest))%nat with (S k + length rest)%nat by lia.
    rewrite IH by (rewrite length_insert; lia).
    rewrite (take_S_r _ k b) by (apply list_lookup_insert_eq; lia).
    rewrite take_insert_ge by lia.
    now rewrite <- app_assoc.
Qed.

Lemma completed_frames_app (evs evs' : list Event) :
  completed_frames (evs ++ evs') = completed_frames evs ++ completed_frames evs'.
Proof. apply flat_map_app. Qed.

Lemma callback_calls_app (evs evs' : list Event) :
  callback_calls (evs ++ evs') = callback_calls evs ++ callback_calls evs'.
Proof. apply flat_map_app. Qed.

Lemma completed_frames_stores (bytes : list Z) :
  forall k, completed_frames (store_events k bytes) = [].
Proof. induction bytes as [| b rest IH]; intros k; cbn; [reflexivity | apply IH]. Qed.

Lemma callback_calls_stores (bytes : list Z) :
  forall k, callback_calls (store_events k bytes) = [].
Proof. induction bytes as [| b rest IH]; intros k; cbn; [reflexivity | apply IH]. Qed.

Lemma protocol_process_data_app (callbacks : CallbackTable) (bytes bytes' : list Z) :
  forall w,
    protocol_process_data callbacks w (bytes ++ bytes') =
    (fst (protocol_process_data callbacks
            (fst (protocol_process_data callbacks w bytes)) bytes'),
     snd (protocol_process_data callbacks w bytes)
       ++ snd (protocol_process_data callbacks
                 (fst (protocol_process_data callbacks w bytes)) bytes')).
Proof.
  induction bytes as [| b rest IH]; intros w; cbn [app protocol_process_data].
  - cbn [fst snd app]. now destruct (protocol_process_data callbacks w bytes').
  - destruct (process_byte callbacks w b) as [w1 evs1].
    rewrite IH.
    destruct (protocol_process_data callbacks w1 rest) as [w2 evs2].
    cbn [fst snd].
    destruct (protocol_process_data callbacks w2 bytes') as [w3 evs3].
    cbn [fst snd]. now rewrite app_assoc.
Qed.

(** The five kinds of step a frame goes through before its checksum. *)
Lemma process_byte_skip (callbacks : CallbackTable) (w : World) (byte : Z) :
  rx_receiving (protocol_handler w) = false ->
  byte <> FRAME_HEAD ->
  process_byte callbacks w byte = (w, []).
Proof.
  intros Hidle Hne. unfold process_byte. rewrite Hidle. cbn [negb].
  destruct (Z.eqb_spec byte FRAME_HEAD); [contradiction | reflexivity].
Qed.

Lemma process_byte_head (callbacks : CallbackTable) (w : World) :
  rx_receiving (protocol_handler w) = false ->
  process_byte callbacks w FRAME_HEAD =
  (set_protocol_handler
     (mkHandler (set_head FRAME_HEAD (rx_frame (protocol_handler w))) 0 true
        (tx_queue (protocol_handler w))) w, []).
Proof.
  intros Hidle. unfold process_byte. rewrite Hidle. cbn [negb].
  now rewrite Z.eqb_refl.
Qed.

Lemma process_byte_cmd (callbacks : CallbackTable) (w : World) (byte : Z) :
  rx_receiving (protocol_handler w) = true ->
  rx_index (protocol_handler w) = 0 ->
  process_byte callbacks w byte =
  (set_protocol_handler
     (mkHandler (set_cmd byte (rx_frame (protocol_handler w))) 1 true
        (tx_queue (protocol_handler w))) w, []).
Proof.
  intros Hrecv Hidx. unfold process_byte. rewrite Hrecv, Hidx. cbn [negb].
  change (uint16 (0 + 1)) with 1. cbn [Z.eqb Pos.eqb].
  unfold set_rx_frame, set_rx_index.
  cbn [rx_frame rx_index rx_receiving tx_queue set_protocol_handler protocol_handler].
  rewrite Hrecv. reflexivity.
Qed.

Lemma process_byte_len_low (callbacks : CallbackTable) (w : World) (byte : Z) :
  rx_receiving (protocol_handler w) = true ->
  rx_index (protocol_handler w) = 1 ->
  process_byte callbacks w byte =
  (set_protocol_handler
     (mkHandler (set_len byte (rx_frame (protocol_handler w))) 2 true
        (tx_queue (protocol_handler w))) w, []).
Proof.
  intros Hrecv Hidx. unfold process_byte. rewrite Hrecv, Hidx. cbn [negb].
  change (uint16 (1 + 1)) with 2. cbn [Z.eqb Pos.eqb].
  unfold set_rx_frame, set_rx_index.
  cbn [rx_frame rx_index rx_receiving tx_queue set_protocol_handler protocol_handler].
  rewrite Hrecv. reflexivity.
Qed.

Lemma process_byte_len_high (callbacks : CallbackTable) (w : World) (byte : Z) :
  rx_receiving (protocol_handler w) = true ->
  rx_index (protocol_handler w) = 2 ->
  process_byte callbacks w byte =
  (set_protocol_handler
     (mkHandler
        (set_len (uint16 (Z.lor (len (rx_frame (protocol_handler w)))
                            (Z.shiftl byte 8)))
           (rx_frame (protocol_handler w))) 3 true
        (tx_queue (protocol_handler w))) w, []).
Proof.
  intros Hrecv Hidx. unfold process_byte. rewrite Hrecv, Hidx. cbn [negb].
  change (uint16 (2 + 1)) with 3. cbn [Z.eqb Pos.eqb].
  unfold set_rx_frame, set_rx_index.
  cbn [rx_frame rx_index rx_receiving tx_queue set_protocol_handler protocol_handler].
  rewrite Hrecv. reflexivity.
Qed.

Lemma process_byte_payload (callbacks : CallbackTable) (w : World) (byte : Z) (k : nat) :
  rx_receiving (protocol_handler w) = true ->
  rx_index (protocol_handler w) = 3 + Z.of_nat k ->
  Z.of_nat k < len (rx_frame (protocol_handler w)) ->
  Z.of_nat k < MAX_DATA_LEN ->
  process_byte callbacks w byte =
  (set_protocol_handler
     (mkHandler
        (set_data (<[k := byte]> (data (rx_frame (protocol_handler w))))
           (rx_frame (protocol_handler w)))
        (3 + Z.of_nat (S k)) true (tx_queue (protocol_handler w))) w,
   [EvStore (Z.of_nat k) byte]).
Proof.
  intros Hrecv Hidx Hlen Hmax. unfold MAX_DATA_LEN in Hmax.
  unfold process_byte. rewrite Hrecv, Hidx. cbn [negb].
  assert (Hwrap : uint16 (3 + Z.of_nat k + 1) = 4 + Z.of_nat k).
  { unfold uint16. rewrite Z.mod_small; lia. }
  rewrite Hwrap.
  unfold set_rx_frame, set_rx_index.
  cbn [rx_frame rx_index rx_receiving tx_queue].
  destruct (Z.eqb_spec (4 + Z.of_nat k) 1); [lia |].
  destruct (Z.eqb_spec (4 + Z.of_nat k) 2); [lia |].
  destruct (Z.eqb_spec (4 + Z.of_nat k) 3); [lia |].
  destruct (Z.ltb_spec (4 + Z.of_nat k) (4 + len (rx_frame (protocol_handler w))));
    [| lia].
  cbn [set_protocol_handler protocol_handler rx_index].
  unfold MAX_DATA_LEN.
  destruct (Z.geb_spec (4 + Z.of_nat k) (4 + 1024 + 1)); [lia |].
  replace (4 + Z.of_nat k - 4) with (Z.of_nat k) by lia.
  unfold store_data, MAX_DATA_LEN.
  destruct (Z.leb_spec 0 (Z.of_nat k)); [| lia].
  destruct (Z.ltb_spec (Z.of_nat k) 1024); [| lia].
  cbn [andb]. rewrite Nat2Z.id, Hrecv.
  replace (3 + Z.of_nat (S k)) with (4 + Z.of_nat k) by lia.
  reflexivity.
Qed.

Lemma process_data_garbage (callbacks : CallbackTable) (garbage : list Z) :
  forall w,
    rx_receiving (protocol_handler w) = false ->
    Forall (fun byte => byte <> FRAME_HEAD) garbage ->
    protocol_process_data callbacks w garbage = (w, []).
Proof.
  induction garbage as [| b rest IH]; intros w Hidle Hall; [reflexivity |].
  inversion Hall as [| ? ? Hb Hrest]; subst.
  cbn [protocol_process_data].
  rewrite (process_byte_skip callbacks w b Hidle Hb).
  now rewrite (IH w Hidle Hrest).
Qed.

Lemma process_data_header (callbacks : CallbackTable) (w : World) (c n : Z) :
  rx_receiving (protocol_handler w) = false ->
  0 <= n < 65536 ->
  protocol_process_data callbacks w
    [FRAME_HEAD; c; Z.land n 0xFF; Z.land (Z.shiftr n 8) 0xFF] =
  (set_protocol_handler
     (mkHandler
        (mkFrame FRAME_HEAD c n (data (rx_frame (protocol_handler w)))
           (crc (rx_frame (protocol_handler w))))
        3 true (tx_queue (protocol_handler w))) w, []).
Proof.
  intros Hidle Hn. cbn [protocol_process_data].
  rewrite (process_byte_head callbacks w Hidle).
  rewrite process_byte_cmd by reflexivity.
  rewrite process_byte_len_low by reflexivity.
  rewrite process_byte_len_high by reflexivity.
  cbn [set_protocol_handler protocol_handler rx_frame tx_queue set_len set_cmd
       set_head len head cmd data crc state_machine led_expressions uart_tx
       timer_us app].
  now rewrite (length_bytes_inverse n Hn).
Qed.

Lemma process_data_payload (callbacks : CallbackTable) (rest : list Z) :
  forall (k : nat) (w : World),
    rx_receiving (protocol_handler w) = true ->
    rx_index (protocol_handler w) = 3 + Z.of_nat k ->
    Z.of_nat (k + length rest) <= len (rx_frame (protocol_handler w)) ->
    len (rx_frame (protocol_handler w)) <= MAX_DATA_LEN ->
    protocol_process_data callbacks w rest =
    (set_protocol_handler
       (mkHandler
          (set_data (write_bytes k rest (data (rx_frame (protocol_handler w))))
             (rx_frame (protocol_handler w)))
          (3 + Z.of_nat (k + length rest)) true (tx_queue (protocol_handler w))) w,
     store_events (Z.of_nat k) rest).
Proof.
  induction rest as [| b rest IH]; intros k w Hrecv Hidx Hfit Hmax.
  - cbn [protocol_process_data write_bytes store_events length].
    rewrite Nat.add_0_r, <- Hidx, <- Hrecv.
    destruct w as [[[] ? ? ?] ? ? ? ?]. reflexivity.
  - cbn [protocol_process_data write_bytes store_events length] in *.
    rewrite (process_byte_payload callbacks w b k Hrecv Hidx) by lia.
    rewrite (IH (S k)); cbn [set_protocol_handler protocol_handler rx_frame
      rx_index rx_receiving tx_queue set_data len data]; try reflexivity; try lia.
    replace (S k + length rest)%nat with (k + S (length rest))%nat by lia.
    replace (Z.of_nat k + 1) with (Z.of_nat (S k)) by lia.
    reflexivity.
Qed.

Lemma process_data_single (callbacks : CallbackTable) (w : World) (byte : Z) :
  protocol_process_data callbacks w [byte] = process_byte callbacks w byte.
Proof.
  cbn [protocol_process_data].
  destruct (process_byte callbacks w byte) as [w1 evs1].
  now rewrite app_nil_r.
Qed.

(** The bytes [protocol_send_queued] writes for a response frame whose
    payload fits the buffer. *)
Lemma frame_wire_response (c : Z) (payload : list Z) :
  Z.of_nat (length payload) <= MAX_DATA_LEN ->
  let n := Z.of_nat (length payload) in
  frame_wire (response_frame c payload n) =
  [FRAME_HEAD; c; Z.land n 0xFF; Z.land (Z.shiftr n 8) 0xFF]
    ++ payload ++ [crc (response_frame c payload n)].
Proof.
  unfold MAX_DATA_LEN. intros Hfit. cbn zeta.
  unfold frame_wire, response_frame.
  cbn [set_crc head cmd len data crc].
  rewrite Nat2Z.id, !firstn_all.
  apply take_ge. cbn [length app]. rewrite length_app. cbn [length].
  unfold uint16. rewrite Z.mod_small by lia. lia.
Qed.

(** The checksum the parser computes over the received image is the one the
    sender computed over its own. *)
Lemma computed_crc_received (c : Z) (payload buffer : list Z) (byte : Z) :
  (length payload <= length buffer)%nat ->
  Z.of_nat (length payload) <= MAX_DATA_LEN ->
  let n := Z.of_nat (length payload) in
  computed_crc (mkFrame FRAME_HEAD c n (write_bytes 0 payload buffer) byte)
  = crc (response_frame c payload n).
Proof.
  unfold MAX_DATA_LEN. intros Hbuf Hfit. cbn zeta.
  unfold computed_crc, response_frame, calc_crc8, frame_bytes.
  cbn [set_crc head cmd len data crc].
  assert (Hn : Z.to_nat (uint16 (4 + Z.of_nat (length payload)))
               = (4 + length payload)%nat).
  { unfold uint16. rewrite Z.mod_small by lia. lia. }
  rewrite Hn. f_equal. apply crc8_loop_prefix.
  cbn [Nat.add app take]. do 4 f_equal.
  rewrite Nat2Z.id, firstn_all.
  rewrite !take_app_le by (rewrite ?length_write_bytes; lia).
  rewrite firstn_all.
  exact (take_write_bytes payload 0 buffer Hbuf).
Qed.

(** Feeding the wire bytes of one response frame to an idle parser. *)
Lemma process_frame_wire (callbacks : CallbackTable) (w : World) (c : Z)
    (payload : list Z) :
  rx_idle w ->
  Z.of_nat (length payload) <= MAX_DATA_LEN ->
  let n := Z.of_nat (length payload) in
  let after := dispatch callbacks w c payload in
  protocol_process_data callbacks w (frame_wire (response_frame c payload n)) =
  (set_protocol_handler
     (set_rx_index 0 (set_rx_receiving false (protocol_handler (fst after))))
     (fst after),
   store_events 0 payload
     ++ EvFrame (received_frame w c payload) (crc (response_frame c payload n))
     :: snd after).
Proof.
  intros [Hidle Hbuf] Hfit. cbn zeta.
  assert (Hmax : MAX_DATA_LEN = 1024) by reflexivity.
  rewrite (frame_wire_response c payload Hfit). cbn zeta.
  set (n := Z.of_nat (length payload)) in *.
  set (sent := response_frame c payload n).
  rewrite protocol_process_data_app.
  rewrite (process_data_header callbacks w c n Hidle) by lia.
  cbn [fst snd app].
  rewrite protocol_process_data_app.
  rewrite (process_data_payload callbacks payload 0);
    cbn [set_protocol_handler protocol_handler rx_frame rx_index rx_receiving
         tx_queue len data]; try reflexivity; try (fold n; lia).
  cbn [fst snd Nat.add Z.of_nat]. rewrite process_data_single.
  rewrite process_byte_checksum.
  2:{ unfold at_checksum_byte.
      cbn [set_protocol_handler protocol_handler rx_frame rx_index rx_receiving
           set_data len].
      fold n. unfold uint16. rewrite Z.mod_small by lia. repeat split; lia. }
  cbn zeta.
  unfold frame_received, set_crc, set_data, set_rx_frame, set_rx_index,
    set_rx_receiving, set_protocol_handler.
  cbn [protocol_handler rx_frame rx_index rx_receiving tx_queue head cmd len
       data crc state_machine led_expressions uart_tx timer_us].
  fold n.
  pose proof (computed_crc_received c payload
                (data (rx_frame (protocol_handler w))) (crc sent)
                ltac:(lia) Hfit) as Hcrc.
  cbn zeta in Hcrc. fold n in Hcrc. fold sent in Hcrc.
  rewrite Hcrc, Z.eqb_refl.
  assert (Hidx : uint16 (3 + n + 1) = 4 + n).
  { unfold uint16. rewrite Z.mod_small; lia. }
  rewrite Hidx. unfold dispatch, received_frame. fold n. fold sent.
  unfold set_protocol_handler, set_rx_index, set_rx_receiving.
  destruct (callbacks c); reflexivity.
Qed.

(** Exactly one frame is completed while the wire bytes of a response frame
    are fed to an idle parser, and it is the frame that was sent. *)
Lemma frame_wire_received (callbacks : CallbackTable) (w : World) (c : Z)
    (payload : list Z) :
  rx_idle w ->
  Z.of_nat (length payload) <= MAX_DATA_LEN ->
  let n := Z.of_nat (length payload) in
  let sent := response_frame c payload n in
  let run := protocol_process_data callbacks w (frame_wire sent) in
  let received := received_frame w c payload in
  completed_frames (snd run) = [(received, crc received)]
  /\ head received = FRAME_HEAD
  /\ cmd received = c
  /\ len received = n
  /\ payload_of received = payload
  /\ crc received = crc sent
  /\ callback_calls (snd run) =
       match callbacks c with
       | Some _ => [(c, data received, n)]
       | None => []
       end
  /\ rx_receiving (protocol_handler (fst run)) = false
  /\ rx_index (protocol_handler (fst run)) = 0.
Proof.
  intros Hidle Hfit. cbn zeta.
  rewrite (process_frame_wire callbacks w c payload Hidle Hfit). cbn zeta.
  cbn [fst snd].
  rewrite completed_frames_app, callback_calls_app.
  rewrite completed_frames_stores, callback_calls_stores.
  destruct Hidle as [_ Hbuf]. unfold MAX_DATA_LEN in *.
  repeat split.
  - unfold dispatch. now destruct (callbacks c).
  - unfold payload_of, received_frame. cbn [len data]. rewrite Nat2Z.id.
    apply (take_write_bytes payload 0). cbn [Nat.add]. lia.
  - unfold dispatch. now destruct (callbacks c).
Qed.

(** C1: for every command byte and every payload of at most 1024 bytes, the
    frame built for them has head 0xAA, that command, that length and
    payload, and the CRC-8 of head, command, the two length bytes (low byte
    first) and the payload; it is serialized as those bytes followed by the
    checksum; and feeding these bytes one at a time to an idle parser
    completes exactly one frame, with the same command, length and payload,
    whose computed checksum equals its received checksum, and leaves the
    parser idle. *)
Theorem C1_framing_round_trip (callbacks : CallbackTable) (w : World) (c : Z)
    (payload : list Z) :
  is_uint8 c ->
  Forall is_uint8 payload ->
  Z.of_nat (length payload) <= MAX_DATA_LEN ->
  rx_idle w ->
  let n := Z.of_nat (length payload) in
  let header := [FRAME_HEAD; c; Z.land n 0xFF; Z.land (Z.shiftr n 8) 0xFF] in
  let sent := response_frame c payload n in
  let run := protocol_process_data callbacks w (frame_wire sent) in
  sent = mkFrame FRAME_HEAD c n payload (calc_crc8 (header ++ payload) (4 + n))
  /\ frame_wire sent = header ++ payload ++ [crc sent]
  /\ exists received calc_crc,
       completed_frames (snd run) = [(received, calc_crc)]
       /\ cmd received = c
       /\ len received = n
       /\ payload_of received = payload
       /\ calc_crc = crc received
       /\ crc received = crc sent
       /\ rx_receiving (protocol_handler (fst run)) = false
       /\ rx_index (protocol_handler (fst run)) = 0.
Proof.
  intros _ _ Hfit Hidle. cbn zeta. split; [| split].
  - unfold response_frame, set_crc, calc_crc8, frame_bytes.
    cbn [head cmd len data crc]. rewrite Nat2Z.id, firstn_all.
    assert (Hn : Z.to_nat (uint16 (4 + Z.of_nat (length payload)))
                 = (4 + length payload)%nat).
    { unfold MAX_DATA_LEN in Hfit. unfold uint16. rewrite Z.mod_small by lia. lia. }
    rewrite Hn.
    replace (Z.to_nat (4 + Z.of_nat (length payload))) with (4 + length payload)%nat
      by lia.
    do 2 f_equal. apply crc8_loop_prefix.
    cbn [Nat.add app take]. do 4 f_equal.
    rewrite take_app_le by lia. now rewrite !firstn_all.
  - exact (frame_wire_response c payload Hfit).
  - destruct (frame_wire_received callbacks w c payload Hidle Hfit)
      as (Hone & _ & Hcmd & Hlen & Hpay & Hcrc & _ & Hrecv & Hidx).
    exists (received_frame w c payload), (crc (received_frame w c payload)).
    repeat split; assumption.
Qed.

Lemma C1_framing_round_trip_witness :
  let payload := [0x05; 0x64; 0x01; 0x5A; 0x00; 0x5A; 0x00] in
  let sent := response_frame CMD_SET_STATE payload 7 in
  let run :=
    protocol_process_data app_main_callbacks (app_main_startup power_on)
      (frame_wire sent) in
  frame_wire sent = [0xAA; 0x07; 0x07; 0x00] ++ payload ++ [0x3A]
  /\ exists received calc_crc,
       completed_frames (snd run) = [(received, calc_crc)]
       /\ cmd received = CMD_SET_STATE
       /\ payload_of received = payload
       /\ calc_crc = crc received.
Proof.
  cbn zeta.
  destruct (C1_framing_round_trip app_main_callbacks (app_main_startup power_on)
              CMD_SET_STATE [0x05; 0x64; 0x01; 0x5A; 0x00; 0x5A; 0x00])
    as (_ & Hwire & received & calc_crc & Hone & Hcmd & _ & Hpay & Hcalc & _).
  - unfold is_uint8, CMD_SET_STATE. lia.
  - repeat constructor; unfold is_uint8; lia.
  - unfold MAX_DATA_LEN. cbn. lia.
  - split; reflexivity.
  - split; [exact Hwire |].
    exists received, calc_crc. repeat split; assumption.
Defined.

(** C7, as stated, fails: the one garbage byte 0xAA in front of the
    well-formed frame AA 01 00 00 08 (heartbeat, empty payload) makes the
    parser take the frame's own head for a command byte and its command
    byte for a length.  The six bytes complete one frame, with command 0xAA,
    length 1 and a checksum mismatch (computed 0x26, received 0x08); the
    well-formed frame is never completed. *)
Lemma C7_counterexample :
  let sent := response_frame CMD_HEARTBEAT [] 0 in
  let run :=
    protocol_process_data app_main_callbacks (app_main_startup power_on)
      ([0xAA] ++ frame_wire sent) in
  frame_wire sent = [0xAA; 0x01; 0x00; 0x00; 0x08]
  /\ map (fun p => (cmd (fst p), len (fst p), crc (fst p), snd p))
         (completed_frames (snd run))
     = [(0xAA, 1, 0x08, 0x26)]
  /\ callback_calls (snd run) = [].
Proof. vm_compute. repeat split; reflexivity. Qed.

(** C7 (amended): for every sequence of garbage bytes none of which is the
    synchronization byte 0xAA, followed by the serialized bytes of one
    well-formed frame (payload of at most 1024 bytes), feeding the whole
    sequence to an idle parser does exactly what feeding the frame alone
    does: it completes that frame, with matching checksum, and no other. *)
Theorem C7_resync_after_garbage (callbacks : CallbackTable) (w : World)
    (garbage : list Z) (c : Z) (payload : list Z) :
  Forall is_uint8 garbage ->
  Forall (fun byte => byte <> FRAME_HEAD) garbage ->
  is_uint8 c ->
  Forall is_uint8 payload ->
  Z.of_nat (length payload) <= MAX_DATA_LEN ->
  rx_idle w ->
  let n := Z.of_nat (length payload) in
  let sent := response_frame c payload n in
  let run := protocol_process_data callbacks w (garbage ++ frame_wire sent) in
  run = protocol_process_data callbacks w (frame_wire sent)
  /\ exists received,
       completed_frames (snd run) = [(received, crc received)]
       /\ cmd received = c
       /\ len received = n
       /\ payload_of received = payload
       /\ crc received = crc sent.
Proof.
  intros _ Hgarbage _ _ Hfit Hidle. cbn zeta.
  assert (Hskip : protocol_process_data callbacks w
                    (garbage ++ frame_wire
                                  (response_frame c payload
                                     (Z.of_nat (length payload)))) =
                  protocol_process_data callbacks w
                    (frame_wire (response_frame c payload
                                   (Z.of_nat (length payload))))).
  { rewrite protocol_process_data_app.
    rewrite (process_data_garbage callbacks garbage w (proj1 Hidle) Hgarbage).
    cbn [fst snd app].
    now destruct (protocol_process_data callbacks w _). }
  split; [exact Hskip |]. rewrite Hskip.
  destruct (frame_wire_received callbacks w c payload Hidle Hfit)
    as (Hone & _ & Hcmd & Hlen & Hpay & Hcrc & _).
  exists (received_frame w c payload). repeat split; assumption.
Qed.

Lemma C7_resync_after_garbage_witness :
  let sent := response_frame CMD_HEARTBEAT [] 0 in
  let run :=
    protocol_process_data app_main_callbacks (app_main_startup power_on)
      ([0x00; 0x55; 0xFF] ++ frame_wire sent) in
  exists received,
    completed_frames (snd run) = [(received, crc received)]
    /\ cmd received = CMD_HEARTBEAT
    /\ payload_of received = [].
Proof.
  cbn zeta.
  destruct (C7_resync_after_garbage app_main_callbacks (app_main_startup power_on)
              [0x00; 0x55; 0xFF] CMD_HEARTBEAT [])
    as (_ & received & Hone & Hcmd & _ & Hpay & _).
  - repeat constructor; unfold is_uint8; lia.
  - repeat constructor; unfold FRAME_HEAD; lia.
  - unfold is_uint8, CMD_HEARTBEAT. lia.
  - constructor.
  - unfold MAX_DATA_LEN. cbn. lia.
  - split; reflexivity.
  - exists received. repeat split; assumption.
Defined.

(** C10 fails on the code: fed a frame whose length field is 1025, the
    parser stores the payload bytes at the indices 0 to 1024 of the
    1024-byte array, the last store lying past its end, and the "frame too
    long" reset has not fired by then (it never fires on this stream). *)
Theorem C10_store_past_the_buffer :
  snd (protocol_process_data app_main_callbacks (app_main_startup power_on)
         oversized_stream)
  = map (fun i => EvStore (Z.of_nat i) 0x00) (seq 0 1025)
  /\ In (EvStore MAX_DATA_LEN 0x00)
        (snd (protocol_process_data app_main_callbacks
                (app_main_startup power_on) oversized_stream))
  /\ length (data (rx_frame (protocol_handler (app_main_startup power_on))))
     = Z.to_nat MAX_DATA_LEN.
Proof.
  assert (Hrun : snd (protocol_process_data app_main_callbacks
                        (app_main_startup power_on) oversized_stream)
                 = map (fun i => EvStore (Z.of_nat i) 0x00) (seq 0 1025)).
  { vm_compute. reflexivity. }
  split; [exact Hrun |]. split; [| vm_compute; reflexivity].
  rewrite Hrun. apply in_map_iff. exists 1024%nat.
  split; [reflexivity |]. apply in_seq. lia.
Qed.

(** C3, as stated, fails: after start-up the twelve bytes leave the state
    SLEEP, the display with the one expression of initialisation and the
    outbound queue empty; no frame is completed. *)
Lemma C3_counterexample :
  let run :=
    protocol_process_data app_main_callbacks (app_main_startup power_on)
      scenario_bytes in
  calc_crc8 (take 11 scenario_bytes) 11 = 0xEA
  /\ state_machine_get_state (fst run) = STATE_SLEEP
  /\ state_machine_get_state (fst run) <> STATE_TALK
  /\ led_expressions (fst run) = [0x00]
  /\ tx_queue (protocol_handler (fst run)) = []
  /\ completed_frames (snd run) = [].
Proof.
  vm_compute. repeat split; try reflexivity. discriminate.
Qed.

(** C3 (amended).  Start-up binds no handler to any command.  After it:
    - fed AA 07 09 00 05 64 01 5A 00 5A 00 EA, the parser, whatever the
      callback table, completes no frame and calls no handler: the length
      field announces nine payload bytes, the eight bytes that follow are
      stored as payload and the parser stays inside the frame (cursor 11);
      the state stays SLEEP, the display receives nothing new, nothing is
      enqueued;
    - fed the frame whose length field is the number of payload bytes,
      AA 07 07 00 05 64 01 5A 00 5A 00 3A, it completes that frame with a
      matching checksum and, no handler being bound, reports that command
      0x07 has no callback; the state stays SLEEP;
    - had a handler passing payload byte 0 to the transition operation been
      registered for command 0x07, the same frame would make TALK the
      current state, give expression 0x04 (not the payload's 0x01) to the
      display and enqueue one frame of command 0x07 with state byte 5 and
      expression byte 4. *)
Theorem C3_set_state_scenario (callbacks : CallbackTable) (stack_byte : Z -> Z) :
  let w0 := app_main_startup power_on in
  let wire := frame_wire (response_frame CMD_SET_STATE scenario_payload 7) in
  let bound :=
    protocol_register_callback app_main_callbacks CMD_SET_STATE
      (fun payload _ => state_machine_transition stack_byte (nth 0 payload 0)) in
  (let run := protocol_process_data callbacks w0 scenario_bytes in
   snd run = store_events 0 (scenario_payload ++ [0xEA])
   /\ rx_receiving (protocol_handler (fst run)) = true
   /\ rx_index (protocol_handler (fst run)) = 11
   /\ state_machine (fst run) = state_machine w0
   /\ current_state (state_machine w0) = STATE_SLEEP
   /\ led_expressions (fst run) = [0x00]
   /\ tx_queue (protocol_handler (fst run)) = [])
  /\ wire = [0xAA; 0x07; 0x07; 0x00; 0x05; 0x64; 0x01; 0x5A; 0x00; 0x5A; 0x00; 0x3A]
  /\ (let run := protocol_process_data app_main_callbacks w0 wire in
      snd run = store_events 0 scenario_payload
                  ++ [EvFrame (received_frame w0 CMD_SET_STATE scenario_payload) 0x3A;
                      EvNoCallback CMD_SET_STATE]
      /\ state_machine (fst run) = state_machine w0
      /\ led_expressions (fst run) = [0x00]
      /\ tx_queue (protocol_handler (fst run)) = [])
  /\ (let run := protocol_process_data bound w0 wire in
      callback_calls (snd run)
        = [(CMD_SET_STATE, data (received_frame w0 CMD_SET_STATE scenario_payload), 7)]
      /\ state_machine (fst run)
         = mkStateMachine STATE_TALK STATE_SLEEP 0 100 0x04 90 90 true
      /\ led_expressions (fst run) = [0x00; 0x04]
      /\ tx_queue (protocol_handler (fst run))
         = [response_frame CMD_SET_STATE
              [0x05; 0x64; 0x04; 0x5A; 0x00; 0x5A; 0x00;
               stack_byte 7; stack_byte 8] 9]).
Proof.
  cbn zeta.
  assert (Hidle : rx_idle (app_main_startup power_on)) by (split; reflexivity).
  assert (Hfit : Z.of_nat (length scenario_payload) <= MAX_DATA_LEN)
    by (unfold MAX_DATA_LEN; cbn; lia).
  split; [| split; [| split]].
  - vm_compute. repeat split; reflexivity.
  - vm_compute. reflexivity.
  - change 7 with (Z.of_nat (length scenario_payload)).
    rewrite (process_frame_wire app_main_callbacks _ CMD_SET_STATE
               scenario_payload Hidle Hfit).
    cbn zeta. unfold dispatch. cbn [app_main_callbacks protocol_init_callbacks].
    cbn [fst snd]. repeat split.
  - change 7 with (Z.of_nat (length scenario_payload)).
    rewrite (process_frame_wire _ _ CMD_SET_STATE scenario_payload Hidle Hfit).
    cbn zeta. unfold dispatch.
    change (protocol_register_callback app_main_callbacks CMD_SET_STATE
              (fun payload _ => state_machine_transition stack_byte (nth 0 payload 0))
              CMD_SET_STATE)
      with (Some (fun (payload : list Z) (_ : Z) =>
                    state_machine_transition stack_byte (nth 0 payload 0))).
    cbn [fst snd].
    rewrite callback_calls_app, callback_calls_stores. cbn [app].
    split; [reflexivity |].
    assert (Hstate : nth 0 (data (received_frame (app_main_startup power_on)
                                    CMD_SET_STATE scenario_payload)) 0
                     = STATE_TALK) by (vm_compute; reflexivity).
    rewrite Hstate.
    rewrite transition_other by (vm_compute; discriminate).
    unfold set_protocol_handler, set_rx_index, set_rx_receiving, set_tx_queue.
    cbn [protocol_handler state_machine led_expressions uart_tx timer_us
         rx_frame rx_index rx_receiving tx_queue].
    split; [vm_compute; reflexivity |].
    split; [vm_compute; reflexivity |].
    reflexivity.
Qed.

(** With a length field of 1026 the stores reach index 1025 as well, and
    only then does the reset fire. *)
Lemma longer_stream_stores :
  snd (protocol_process_data app_main_callbacks (app_main_startup power_on)
         longer_stream)
  = map (fun i => EvStore (Z.of_nat i) 0x00) (seq 0 1026) ++ [EvTooLong].
Proof. vm_compute. reflexivity. Qed.

(** * Further properties of the frame transport *)

(** ** The checksum *)

Lemma crc8_shift_range (c : Z) : 0 <= crc8_shift c < 256.
Proof. unfold crc8_shift, uint8. apply Z.mod_pos_bound. lia. Qed.

Lemma crc8_update_range (c byte : Z) : 0 <= crc8_update c byte < 256.
Proof. unfold crc8_update. cbn [Nat.iter]. apply crc8_shift_range. Qed.

Lemma crc8_loop_range (n : nat) :
  forall (mem : list Z) (c : Z), 0 <= c < 256 -> 0 <= crc8_loop mem n c < 256.
Proof.
  induction n as [| n IH]; intros mem c Hc; [exact Hc |].
  destruct mem as [| b mem]; cbn [crc8_loop]; [exact Hc |].
  apply IH, crc8_update_range.
Qed.

Lemma land_byte (c : Z) : 0 <= c < 256 -> Z.land c 0xFF = c.
Proof.
  intros Hc. change 0xFF with (Z.ones 8).
  rewrite Z.land_ones by lia. apply Z.mod_small. exact Hc.
Qed.

Lemma crc8_loop_app (mem rest : list Z) (k : nat) :
  forall c,
    crc8_loop (mem ++ rest) (length mem + k) c =
    crc8_loop rest k (crc8_loop mem (length mem) c).
Proof.
  induction mem as [| b mem IH]; intros c; cbn [app length Nat.add crc8_loop].
  - now destruct k.
  - apply IH.
Qed.

Lemma In_byte_values (x : Z) : 0 <= x < 256 -> In x byte_values.
Proof.
  intros Hx. unfold byte_values. apply in_map_iff.
  exists (Z.to_nat x). split; [lia |]. apply in_seq. lia.
Qed.

Lemma lxor_byte (a b : Z) : 0 <= a < 256 -> 0 <= b < 256 -> 0 <= Z.lxor a b < 256.
Proof.
  intros Ha Hb.
  assert (Hall : forallb (fun x => forallb (fun y =>
                    (0 <=? Z.lxor x y) && (Z.lxor x y <? 256)) byte_values)
                   byte_values = true) by (vm_compute; reflexivity).
  rewrite forallb_forall in Hall.
  specialize (Hall a (In_byte_values a Ha)).
  rewrite forallb_forall in Hall.
  specialize (Hall b (In_byte_values b Hb)).
  apply andb_prop in Hall. destruct Hall as [H1 H2]. lia.
Qed.

(** The eight shift rounds permute the byte values. *)
Lemma crc8_rounds_injective (x y : Z) :
  0 <= x < 256 -> 0 <= y < 256 ->
  Nat.iter 8 crc8_shift x = Nat.iter 8 crc8_shift y -> x = y.
Proof.
  intros Hx Hy Heq.
  assert (Hall : forallb (fun a => forallb (fun b =>
                    implb (Nat.iter 8 crc8_shift a =? Nat.iter 8 crc8_shift b)
                          (a =? b)) byte_values) byte_values = true)
    by (vm_compute; reflexivity).
  rewrite forallb_forall in Hall.
  specialize (Hall x (In_byte_values x Hx)).
  rewrite forallb_forall in Hall.
  specialize (Hall y (In_byte_values y Hy)).
  rewrite Heq, Z.eqb_refl in Hall. cbn [implb] in Hall. lia.
Qed.

Lemma lxor_cancel_l (c a b : Z) : Z.lxor c a = Z.lxor c b -> a = b.
Proof.
  intros Heq.
  rewrite <- (Z.lxor_0_l a), <- (Z.lxor_0_l b), <- (Z.lxor_nilpotent c).
  now rewrite !Z.lxor_assoc, Heq.
Qed.

Lemma crc8_update_byte_injective (c b b' : Z) :
  is_uint8 c -> is_uint8 b -> is_uint8 b' ->
  crc8_update c b = crc8_update c b' -> b = b'.
Proof.
  unfold is_uint8, crc8_update, uint8. intros Hc Hb Hb' Heq.
  apply crc8_rounds_injective in Heq; try (apply Z.mod_pos_bound; lia).
  rewrite !Z.mod_small in Heq by (apply lxor_byte; assumption).
  exact (lxor_cancel_l c b b' Heq).
Qed.

Lemma crc8_update_crc_injective (c c' b : Z) :
  is_uint8 c -> is_uint8 c' -> is_uint8 b ->
  crc8_update c b = crc8_update c' b -> c = c'.
Proof.
  unfold is_uint8, crc8_update, uint8. intros Hc Hc' Hb Heq.
  apply crc8_rounds_injective in Heq; try (apply Z.mod_pos_bound; lia).
  rewrite !Z.mod_small in Heq by (apply lxor_byte; assumption).
  rewrite (Z.lxor_comm c), (Z.lxor_comm c') in Heq.
  exact (lxor_cancel_l b c c' Heq).
Qed.

Lemma crc8_loop_crc_injective (n : nat) :
  forall (mem : list Z) (c c' : Z),
    Forall is_uint8 mem -> is_uint8 c -> is_uint8 c' ->
    crc8_loop mem n c = crc8_loop mem n c' -> c = c'.
Proof.
  induction n as [| n IH]; intros mem c c' Hmem Hc Hc' Heq; [exact Heq |].
  destruct mem as [| b mem]; cbn [crc8_loop] in Heq; [exact Heq |].
  inversion Hmem as [| ? ? Hb Hrest]; subst.
  apply IH in Heq; try assumption; try apply crc8_update_range.
  exact (crc8_update_crc_injective c c' b Hc Hc' Hb Heq).
Qed.

(** X1: the checksum of a message followed by its own checksum is zero. *)
Theorem crc8_residue_is_zero (mem : list Z) :
  let n := Z.of_nat (length mem) in
  calc_crc8 (mem ++ [calc_crc8 mem n]) (n + 1) = 0.
Proof.
  cbn zeta. unfold calc_crc8.
  replace (Z.to_nat (Z.of_nat (length mem) + 1)) with (length mem + 1)%nat by lia.
  rewrite Nat2Z.id, crc8_loop_app. cbn [crc8_loop].
  set (c := crc8_loop mem (length mem) 0).
  assert (Hc : 0 <= c < 256) by (apply crc8_loop_range; lia).
  rewrite (land_byte c Hc). unfold crc8_update, uint8.
  rewrite Z.lxor_nilpotent. reflexivity.
Qed.

Lemma calc_crc8_one_byte_differs (pre post : list Z) (b b' : Z) (n : Z) :
  Forall is_uint8 pre -> Forall is_uint8 post ->
  is_uint8 b -> is_uint8 b' -> b <> b' ->
  Z.of_nat (length pre) < n ->
  calc_crc8 (pre ++ b :: post) n <> calc_crc8 (pre ++ b' :: post) n.
Proof.
  intros Hpre Hpost Hb Hb' Hne Hn. unfold calc_crc8.
  replace (Z.to_nat n) with (length pre + S (Z.to_nat n - S (length pre)))%nat by lia.
  rewrite !crc8_loop_app. cbn [crc8_loop].
  set (c := crc8_loop pre (length pre) 0).
  assert (Hc : is_uint8 c) by (apply crc8_loop_range; lia).
  rewrite !land_byte by (apply crc8_loop_range, crc8_update_range).
  intros Heq.
  apply crc8_loop_crc_injective in Heq;
    try assumption; try apply crc8_update_range.
  exact (Hne (crc8_update_byte_injective c b b' Hc Hb Hb' Heq)).
Qed.

(** X2: the checksum tells apart any two messages of bytes that differ in
    one byte only: when the checksummed length reaches that byte, the two
    checksums are equal exactly when the two bytes are. *)
Theorem crc8_detects_one_byte (pre post : list Z) (b b' : Z) (n : Z) :
  Forall is_uint8 pre -> Forall is_uint8 post ->
  is_uint8 b -> is_uint8 b' ->
  Z.of_nat (length pre) < n ->
  calc_crc8 (pre ++ b :: post) n = calc_crc8 (pre ++ b' :: post) n <-> b = b'.
Proof.
  intros Hpre Hpost Hb Hb' Hn. split; [| intros ->; reflexivity].
  intros Heq. destruct (Z.eq_dec b b') as [He | Hne]; [exact He |].
  exfalso.
  exact (calc_crc8_one_byte_differs pre post b b' n Hpre Hpost Hb Hb' Hne Hn Heq).
Qed.

Lemma crc8_detects_one_byte_witness :
  calc_crc8 ([0xAA; 0x07] ++ 0x01 :: [0x00; 0x05]) 5
  = calc_crc8 ([0xAA; 0x07] ++ 0x03 :: [0x00; 0x05]) 5
  <-> 0x01 = 0x03.
Proof.
  apply crc8_detects_one_byte;
    try (repeat constructor; unfold is_uint8; lia);
    try (unfold is_uint8; lia).
Defined.

(** ** Frames on the wire *)

Lemma response_frame_crc (c : Z) (payload : list Z) :
  Z.of_nat (length payload) <= MAX_DATA_LEN ->
  let n := Z.of_nat (length payload) in
  crc (response_frame c payload n) =
  calc_crc8
    ([FRAME_HEAD; c; Z.land n 0xFF; Z.land (Z.shiftr n 8) 0xFF] ++ payload)
    (4 + n).
Proof.
  unfold MAX_DATA_LEN. intros Hfit. cbn zeta.
  unfold response_frame, set_crc, calc_crc8, frame_bytes.
  cbn [head cmd len data crc]. rewrite Nat2Z.id, firstn_all.
  assert (Hn : Z.to_nat (uint16 (4 + Z.of_nat (length payload)))
               = (4 + length payload)%nat).
  { unfold uint16. rewrite Z.mod_small by lia. lia. }
  rewrite Hn.
  replace (Z.to_nat (4 + Z.of_nat (length payload))) with (4 + length payload)%nat
    by lia.
  f_equal. apply crc8_loop_prefix.
  cbn [Nat.add app take]. do 4 f_equal.
  rewrite take_app_le by lia. now rewrite !firstn_all.
Qed.

(** Feeding a header, a payload and any checksum byte to an idle parser. *)
Lemma process_frame_bytes (callbacks : CallbackTable) (w : World) (c : Z)
    (payload : list Z) (byte : Z) :
  rx_idle w ->
  Z.of_nat (length payload) <= MAX_DATA_LEN ->
  let n := Z.of_nat (length payload) in
  let frame := frame_with_checksum w c payload byte in
  let calc_crc := crc (response_frame c payload n) in
  let w1 :=
    set_protocol_handler
      (mkHandler frame (4 + n) true (tx_queue (protocol_handler w))) w in
  let after :=
    if calc_crc =? byte then
      match callbacks c with
      | Some callback =>
          (callback (data frame) n w1, [EvCallback c (data frame) n])
      | None => (w1, [EvNoCallback c])
      end
    else (w1, [EvCrcMismatch calc_crc byte]) in
  protocol_process_data callbacks w
    ([FRAME_HEAD; c; Z.land n 0xFF; Z.land (Z.shiftr n 8) 0xFF]
       ++ payload ++ [byte]) =
  (set_protocol_handler
     (set_rx_index 0 (set_rx_receiving false (protocol_handler (fst after))))
     (fst after),
   store_events 0 payload ++ EvFrame frame calc_crc :: snd after).
Proof.
  intros [Hidle Hbuf] Hfit. cbn zeta.
  assert (Hmax : MAX_DATA_LEN = 1024) by reflexivity.
  set (n := Z.of_nat (length payload)) in *.
  rewrite protocol_process_data_app.
  rewrite (process_data_header callbacks w c n Hidle) by lia.
  cbn [fst snd app].
  rewrite protocol_process_data_app.
  rewrite (process_data_payload callbacks payload 0);
    cbn [set_protocol_handler protocol_handler rx_frame rx_index rx_receiving
         tx_queue len data]; try reflexivity; try (fold n; lia).
  cbn [fst snd Nat.add Z.of_nat]. rewrite process_data_single.
  rewrite process_byte_checksum.
  2:{ unfold at_checksum_byte.
      cbn [set_protocol_handler protocol_handler rx_frame rx_index rx_receiving
           set_data len].
      fold n. unfold uint16. rewrite Z.mod_small by lia. repeat split; lia. }
  cbn zeta.
  unfold frame_received, frame_with_checksum, set_crc, set_data, set_rx_frame,
    set_rx_index, set_rx_receiving, set_protocol_handler.
  cbn [protocol_handler rx_frame rx_index rx_receiving tx_queue head cmd len
       data crc state_machine led_expressions uart_tx timer_us].
  fold n.
  pose proof (computed_crc_received c payload
                (data (rx_frame (protocol_handler w))) byte
                ltac:(lia) Hfit) as Hcrc.
  cbn zeta in Hcrc. fold n in Hcrc. rewrite Hcrc.
  assert (Hidx : uint16 (3 + n + 1) = 4 + n).
  { unfold uint16. rewrite Z.mod_small; lia. }
  rewrite Hidx.
  destruct (crc (response_frame c payload n) =? byte);
    [destruct (callbacks c) |]; reflexivity.
Qed.

Lemma is_uint8_land (v : Z) : is_uint8 (Z.land v 0xFF).
Proof.
  unfold is_uint8. change 0xFF with (Z.ones 8).
  rewrite Z.land_ones by lia. apply Z.mod_pos_bound. lia.
Qed.

(** The checksums of two frames of the same length whose command and payload
    differ in exactly one byte. *)
Lemma response_frame_crc_differs (c c' : Z) (payload payload' pre post : list Z)
    (b b' : Z) :
  Z.of_nat (length payload) <= MAX_DATA_LEN ->
  c :: payload = pre ++ b :: post ->
  c' :: payload' = pre ++ b' :: post ->
  Forall is_uint8 (c :: payload) -> is_uint8 b' -> b <> b' ->
  length payload' = length payload
  /\ crc (response_frame c' payload' (Z.of_nat (length payload)))
     <> crc (response_frame c payload (Z.of_nat (length payload))).
Proof.
  intros Hfit Hsent Hrecv Hbytes Hb' Hne.
  assert (Hlen : length payload' = length payload).
  { apply (f_equal (@length Z)) in Hsent, Hrecv.
    cbn [length] in Hsent, Hrecv. rewrite length_app in Hsent, Hrecv.
    cbn [length] in Hsent, Hrecv. lia. }
  split; [exact Hlen |].
  pose proof (response_frame_crc c payload Hfit) as Hcrc. cbn zeta in Hcrc.
  pose proof (response_frame_crc c' payload') as Hcrc'. cbn zeta in Hcrc'.
  rewrite Hlen in Hcrc'. rewrite Hcrc, (Hcrc' Hfit).
  set (n := Z.of_nat (length payload)) in *.
  assert (Hhead : is_uint8 FRAME_HEAD) by (unfold is_uint8, FRAME_HEAD; lia).
  inversion Hbytes as [| ? ? Hc Hpayload]; subst.
  destruct pre as [| c0 pre].
  - cbn [app] in Hsent, Hrecv.
    injection Hsent as -> ->. injection Hrecv as -> ->.
    apply not_eq_sym.
    apply (calc_crc8_one_byte_differs [FRAME_HEAD]
             ([Z.land n 0xFF; Z.land (Z.shiftr n 8) 0xFF] ++ post) b b');
      try assumption.
    + constructor; [assumption | constructor].
    + cbn [app]. do 2 (constructor; [apply is_uint8_land |]). assumption.
    + cbn [length]. lia.
  - cbn [app] in Hsent, Hrecv.
    injection Hsent as -> ->. injection Hrecv as -> ->.
    apply Forall_app in Hpayload. destruct Hpayload as [Hpre Hrest].
    inversion Hrest as [| ? ? Hb Hpost]; subst.
    apply not_eq_sym.
    change ([FRAME_HEAD; c0; Z.land n 0xFF; Z.land (Z.shiftr n 8) 0xFF]
              ++ pre ++ b :: post)
      with (([FRAME_HEAD; c0; Z.land n 0xFF; Z.land (Z.shiftr n 8) 0xFF]
               ++ pre) ++ b :: post).
    change ([FRAME_HEAD; c0; Z.land n 0xFF; Z.land (Z.shiftr n 8) 0xFF]
              ++ pre ++ b' :: post)
      with (([FRAME_HEAD; c0; Z.land n 0xFF; Z.land (Z.shiftr n 8) 0xFF]
               ++ pre) ++ b' :: post).
    apply calc_crc8_one_byte_differs; try assumption.
    + cbn [app].
      do 4 (constructor; [first [assumption | apply is_uint8_land] |]).
      assumption.
    + subst n. rewrite length_app. cbn [length]. rewrite length_app. cbn [length].
      lia.
Qed.

(** X3: a frame that reaches an idle parser with one byte of its command or
    payload altered and its checksum byte intact is completed with a
    checksum mismatch: no handler is called, nothing but the parser's own
    state changes, and the parser is idle again. *)
Theorem corrupted_frame_is_rejected (callbacks : CallbackTable) (w : World)
    (c c' : Z) (payload payload' pre post : list Z) (b b' : Z) :
  rx_idle w ->
  Z.of_nat (length payload) <= MAX_DATA_LEN ->
  Forall is_uint8 (c :: payload) -> is_uint8 b' -> b <> b' ->
  c :: payload = pre ++ b :: post ->
  c' :: payload' = pre ++ b' :: post ->
  let n := Z.of_nat (length payload) in
  let sent := response_frame c payload n in
  let run :=
    protocol_process_data callbacks w
      ([FRAME_HEAD; c'; Z.land n 0xFF; Z.land (Z.shiftr n 8) 0xFF]
         ++ payload' ++ [crc sent]) in
  frame_summary (snd run) = [(c', payload', false)]
  /\ callback_calls (snd run) = []
  /\ In (EvCrcMismatch (crc (response_frame c' payload' n)) (crc sent)) (snd run)
  /\ fst run =
       set_protocol_handler
         (mkHandler (frame_with_checksum w c' payload' (crc sent)) 0 false
            (tx_queue (protocol_handler w))) w.
Proof.
  intros Hidle Hfit Hbytes Hb' Hne Hsent Hrecv. cbn zeta.
  destruct (response_frame_crc_differs c c' payload payload' pre post b b'
              Hfit Hsent Hrecv Hbytes Hb' Hne) as [Hlen Hcrc].
  assert (Hfit' : Z.of_nat (length payload') <= MAX_DATA_LEN) by (rewrite Hlen; exact Hfit).
  pose proof (process_frame_bytes callbacks w c' payload'
                (crc (response_frame c payload (Z.of_nat (length payload))))
                Hidle Hfit') as Hrun.
  cbn zeta in Hrun. rewrite Hlen in Hrun. rewrite Hrun. clear Hrun.
  destruct (Z.eqb_spec
              (crc (response_frame c' payload' (Z.of_nat (length payload))))
              (crc (response_frame c payload (Z.of_nat (length payload)))))
    as [Heq | _]; [contradiction |].
  cbn [fst snd]. unfold frame_summary.
  rewrite completed_frames_app, callback_calls_app.
  rewrite completed_frames_stores, callback_calls_stores.
  cbn [app completed_frames callback_calls flat_map map fst snd].
  assert (Hpay : payload_of
                   (frame_with_checksum w c' payload'
                      (crc (response_frame c payload (Z.of_nat (length payload)))))
                 = payload').
  { unfold payload_of, frame_with_checksum. cbn [len data]. rewrite Nat2Z.id.
    apply (take_write_bytes payload' 0). cbn [Nat.add].
    destruct Hidle as [_ Hbuf]. unfold MAX_DATA_LEN in *. lia. }
  rewrite Hpay. cbn [frame_with_checksum cmd crc].
  destruct (Z.eqb_spec
              (crc (response_frame c' payload' (Z.of_nat (length payload))))
              (crc (response_frame c payload (Z.of_nat (length payload)))))
    as [Heq | _]; [contradiction |].
  repeat split.
  apply in_or_app. right. right. left. reflexivity.
Qed.

Lemma corrupted_frame_is_rejected_witness :
  let sent := response_frame CMD_SET_STATE [0x05; 0x64] 2 in
  let run :=
    protocol_process_data
      (protocol_register_callback app_main_callbacks CMD_SET_STATE
         (fun payload _ => state_machine_transition (fun _ => 0) (nth 0 payload 0)))
      (app_main_startup power_on)
      ([0xAA; 0x07; 0x02; 0x00] ++ [0x04; 0x64] ++ [crc sent]) in
  frame_summary (snd run) = [(CMD_SET_STATE, [0x04; 0x64], false)]
  /\ callback_calls (snd run) = []
  /\ state_machine (fst run) = state_machine (app_main_startup power_on).
Proof.
  cbn zeta.
  destruct (corrupted_frame_is_rejected
              (protocol_register_callback app_main_callbacks CMD_SET_STATE
                 (fun payload _ =>
                    state_machine_transition (fun _ => 0) (nth 0 payload 0)))
              (app_main_startup power_on)
              CMD_SET_STATE CMD_SET_STATE [0x05; 0x64] [0x04; 0x64]
              [CMD_SET_STATE] [0x64] 0x05 0x04)
    as (Hsum & Hcalls & _ & Hworld).
  - split; reflexivity.
  - unfold MAX_DATA_LEN. cbn. lia.
  - repeat constructor; unfold is_uint8, CMD_SET_STATE; lia.
  - unfold is_uint8. lia.
  - lia.
  - reflexivity.
  - reflexivity.
  - split; [exact Hsum |]. split; [exact Hcalls |].
    apply (f_equal state_machine) in Hworld. exact Hworld.
Defined.

(** ** Streaming, draining and loop-back *)

(** X4: the parser is restartable: feeding a byte stream in any chunking, one
    call of [protocol_process_data] per chunk, ends in the same globals and
    produces the same events as feeding it in one call. *)
Theorem feed_chunks_is_one_feed (callbacks : CallbackTable) (chunks : list (list Z)) :
  forall w,
    feed_chunks callbacks w chunks
    = protocol_process_data callbacks w (concat chunks).
Proof.
  induction chunks as [| chunk rest IH]; intros w; [reflexivity |].
  cbn [feed_chunks concat]. rewrite protocol_process_data_app.
  destruct (protocol_process_data callbacks w chunk) as [w1 evs1].
  rewrite IH. cbn [fst snd].
  now destruct (protocol_process_data callbacks w1 (concat rest)).
Qed.

Lemma send_queued_loop_concat (queue : list ProtocolFrame) :
  forall out,
    send_queued_loop queue out = out ++ concat (map frame_wire queue).
Proof.
  induction queue as [| f rest IH]; intros out; cbn [send_queued_loop map concat].
  - now rewrite app_nil_r.
  - now rewrite IH, <- app_assoc.
Qed.

Lemma send_queued_drains_in_order_aux (w : World) :
  uart_tx (protocol_send_queued w)
  = uart_tx w ++ concat (map frame_wire (tx_queue (protocol_handler w)))
  /\ tx_queue (protocol_handler (protocol_send_queued w)) = [].
Proof.
  unfold protocol_send_queued.
  cbn [set_uart_tx set_protocol_handler protocol_handler uart_tx set_tx_queue
       tx_queue].
  now rewrite send_queued_loop_concat.
Qed.


Lemma send_all_queue (msgs : list (Z * list Z)) :
  forall w,
    Z.of_nat (length (tx_queue (protocol_handler w)) + length msgs)
      <= TX_QUEUE_LENGTH ->
    send_all msgs w =
    set_protocol_handler
      (set_tx_queue
         (tx_queue (protocol_handler w)
            ++ map (fun msg =>
                      response_frame (fst msg) (snd msg)
                        (Z.of_nat (length (snd msg)))) msgs)
         (protocol_handler w)) w.
Proof.
  unfold send_all.
  induction msgs as [| msg rest IH]; intros w Hroom; cbn [fold_left map length] in *.
  - now rewrite app_nil_r, set_tx_queue_same, set_protocol_handler_same.
  - unfold protocol_send_response at 2. unfold protocol_send_frame.
    rewrite xQueueSend_room by lia. cbn [fst].
    rewrite IH.
    + cbn [set_protocol_handler set_tx_queue protocol_handler tx_queue rx_frame
           rx_index rx_receiving state_machine led_expressions uart_tx timer_us].
      now rewrite <- app_assoc.
    + cbn [set_protocol_handler set_tx_queue protocol_handler tx_queue].
      rewrite length_app. cbn [length]. lia.
Qed.

Lemma payload_of_received_frame (w : World) (c : Z) (payload : list Z) :
  rx_idle w ->
  Z.of_nat (length payload) <= MAX_DATA_LEN ->
  payload_of (received_frame w c payload) = payload.
Proof.
  intros [_ Hbuf] Hfit. unfold payload_of, received_frame. cbn [len data].
  rewrite Nat2Z.id. apply (take_write_bytes payload 0). cbn [Nat.add].
  unfold MAX_DATA_LEN in *. lia.
Qed.

(** Feeding the wire bytes of several responses, one after the other, to an
    idle parser. *)
Lemma process_wire_sequence (callbacks : CallbackTable) (msgs : list (Z * list Z)) :
  keeps_rx_buffer callbacks ->
  Forall (fun msg => Z.of_nat (length (snd msg)) <= MAX_DATA_LEN) msgs ->
  forall w,
    rx_idle w ->
    let run := protocol_process_data callbacks w (concat (map wire_of msgs)) in
    frame_summary (snd run) = map (fun msg => (fst msg, snd msg, true)) msgs
    /\ rx_idle (fst run).
Proof.
  intros Hkeep Hfit. cbn zeta.
  induction Hfit as [| [c payload] rest Hmsg Hrest IH]; intros w Hidle.
  - cbn. split; [reflexivity | exact Hidle].
  - cbn [map concat] in *.
    change (wire_of (c, payload))
      with (frame_wire (response_frame c payload (Z.of_nat (length payload)))).
    cbn [fst snd] in Hmsg.
    rewrite protocol_process_data_app.
    rewrite (process_frame_wire callbacks w c payload Hidle Hmsg). cbn zeta.
    cbn [fst snd].
    set (after := dispatch callbacks w c payload).
    set (w' := set_protocol_handler _ (fst after)).
    assert (Hidle' : rx_idle w').
    { split; [reflexivity |].
      subst w' after. unfold dispatch.
      destruct (callbacks c) as [cb |] eqn:Hcb; cbn [fst];
        cbn [set_protocol_handler set_rx_index set_rx_receiving protocol_handler
             rx_frame].
      - rewrite (Hkeep c cb _ _ _ Hcb).
        cbn [set_protocol_handler protocol_handler rx_frame received_frame data].
        rewrite length_write_bytes. apply Hidle.
      - cbn [received_frame data]. rewrite length_write_bytes. apply Hidle. }
    destruct (IH w' Hidle') as (Hsum & Hfinal).
    split; [| exact Hfinal].
    unfold frame_summary in *.
    rewrite !completed_frames_app, completed_frames_stores. cbn [app].
    change (completed_frames
              (EvFrame (received_frame w c payload)
                 (crc (response_frame c payload (Z.of_nat (length payload))))
               :: snd after))
      with ((received_frame w c payload,
             crc (response_frame c payload (Z.of_nat (length payload))))
              :: completed_frames (snd after)).
    assert (Hnone : completed_frames (snd after) = []).
    { subst after. unfold dispatch. now destruct (callbacks c). }
    rewrite Hnone. cbn [app map fst snd]. rewrite Hsum.
    f_equal. cbn [received_frame cmd crc]. rewrite Z.eqb_refl.
    f_equal. f_equal.
    exact (payload_of_received_frame w c payload Hidle Hmsg).
Qed.

(** X6: loop-back.  Up to ten responses with payloads of at most 1024 bytes,
    sent into an empty queue and drained, put on the UART the concatenation
    of their wire bytes; and these bytes, fed to an idle parser whose
    handlers leave its buffer alone, complete exactly these frames, in
    order, each with a matching checksum. *)
Theorem loopback_delivers_all (callbacks : CallbackTable)
    (msgs : list (Z * list Z)) (w_tx w_rx : World) :
  tx_queue (protocol_handler w_tx) = [] ->
  Z.of_nat (length msgs) <= TX_QUEUE_LENGTH ->
  Forall (fun msg => Z.of_nat (length (snd msg)) <= MAX_DATA_LEN) msgs ->
  keeps_rx_buffer callbacks ->
  rx_idle w_rx ->
  let sent := protocol_send_queued (send_all msgs w_tx) in
  let bytes := concat (map wire_of msgs) in
  let run := protocol_process_data callbacks w_rx bytes in
  uart_tx sent = uart_tx w_tx ++ bytes
  /\ tx_queue (protocol_handler sent) = []
  /\ frame_summary (snd run) = map (fun msg => (fst msg, snd msg, true)) msgs
  /\ rx_idle (fst run).
Proof.
  intros Hempty Hcount Hfit Hkeep Hidle. cbn zeta.
  destruct (send_queued_drains_in_order_aux (send_all msgs w_tx)) as (Huart & Hqueue).
  rewrite Huart, Hqueue.
  rewrite send_all_queue by (rewrite Hempty; cbn [length Nat.add]; exact Hcount).
  cbn [set_protocol_handler set_tx_queue protocol_handler tx_queue uart_tx].
  rewrite Hempty. cbn [app].
  destruct (process_wire_sequence callbacks msgs Hkeep Hfit w_rx Hidle)
    as (Hsum & Hfinal).
  split; [| split; [reflexivity | split; assumption]].
  f_equal. f_equal. now rewrite map_map.
Qed.

Lemma loopback_delivers_all_witness :
  let msgs := [(CMD_HEARTBEAT, [1; 2; 3; 4; 5; 6; 7; 8]); (CMD_SENSOR_DATA, [30; 0; 1; 0])] in
  let sent := protocol_send_queued (send_all msgs (app_main_startup power_on)) in
  let run :=
    protocol_process_data app_main_callbacks (app_main_startup power_on)
      (uart_tx sent) in
  frame_summary (snd run)
  = [(CMD_HEARTBEAT, [1; 2; 3; 4; 5; 6; 7; 8], true);
     (CMD_SENSOR_DATA, [30; 0; 1; 0], true)].
Proof.
  cbn zeta.
  destruct (loopback_delivers_all app_main_callbacks
              [(CMD_HEARTBEAT, [1; 2; 3; 4; 5; 6; 7; 8]);
               (CMD_SENSOR_DATA, [30; 0; 1; 0])]
              (app_main_startup power_on) (app_main_startup power_on))
    as (Huart & _ & Hsum & _).
  - reflexivity.
  - unfold TX_QUEUE_LENGTH. cbn. lia.
  - repeat constructor; unfold MAX_DATA_LEN; cbn; lia.
  - intros c callback payload n w Hc. discriminate Hc.
  - split; reflexivity.
  - rewrite Huart. exact Hsum.
Defined.

(** ** The bound of the outbound queue *)

Lemma protocol_send_frame_bounded (w : World) (frame : ProtocolFrame) :
  tx_queue_bounded w -> tx_queue_bounded (protocol_send_frame w frame).
Proof.
  unfold tx_queue_bounded, protocol_send_frame, xQueueSend, TX_QUEUE_LENGTH.
  intros Hbound.
  destruct (Z.ltb_spec (Z.of_nat (length (tx_queue (protocol_handler w)))) 10);
    cbn [fst set_protocol_handler set_tx_queue protocol_handler tx_queue].
  - rewrite length_app. cbn [length]. lia.
  - exact Hbound.
Qed.

(** X7: no operation that sends makes the outbound queue longer than its ten
    places: neither the enqueue itself, nor a response, a heartbeat, a
    status or a sensor frame, nor a transition or the timed update; and the
    drain empties it. *)
Theorem tx_queue_never_exceeds_capacity (stack_byte : Z -> Z) (w : World) :
  tx_queue_bounded w ->
  (forall frame, tx_queue_bounded (protocol_send_frame w frame))
  /\ (forall c payload n, tx_queue_bounded (protocol_send_response w c payload n))
  /\ (forall free_heap, tx_queue_bounded (protocol_send_heartbeat free_heap w))
  /\ (forall s b e h v,
        tx_queue_bounded
          (protocol_send_status (stack_byte 7) (stack_byte 8) w s b e h v))
  /\ (forall d p l, tx_queue_bounded (protocol_send_sensor_data w d p l))
  /\ (forall s, tx_queue_bounded (state_machine_transition stack_byte s w))
  /\ tx_queue_bounded (state_machine_update stack_byte w)
  /\ tx_queue (protocol_handler (protocol_send_queued w)) = [].
Proof.
  intros Hbound.
  assert (Htrans : forall s,
             tx_queue_bounded (state_machine_transition stack_byte s w)).
  { intros s. unfold state_machine_transition.
    destruct (s =? current_state (state_machine w)); [exact Hbound |].
    apply protocol_send_frame_bounded. exact Hbound. }
  repeat split; intros;
    try (apply protocol_send_frame_bounded; exact Hbound);
    try apply Htrans.
  unfold state_machine_update.
  repeat match goal with
         | |- context [if ?b then _ else _] => destruct b
         end; first [exact Hbound | apply Htrans].
Qed.

Lemma tx_queue_never_exceeds_capacity_witness :
  tx_queue_bounded saturated_world
  /\ tx_queue_bounded
       (state_machine_transition (fun _ => 0) STATE_TALK saturated_world)
  /\ tx_queue_bounded (protocol_send_heartbeat 1000 saturated_world).
Proof.
  assert (Hbound : tx_queue_bounded saturated_world).
  { unfold tx_queue_bounded, TX_QUEUE_LENGTH. vm_compute. discriminate. }
  destruct (tx_queue_never_exceeds_capacity (fun _ => 0) saturated_world Hbound)
    as (_ & _ & Hbeat & _ & _ & Htrans & _).
  split; [exact Hbound |]. split; [apply Htrans | apply Hbeat].
Defined.

(** ** Registration and dispatch *)

(** X8: after [protocol_register_callback] the table holds the new handler
    for that command, whatever it held before, and what it held for every
    other command; and a well-formed frame with that command, fed to an idle
    parser, calls the handler exactly once, with the frame's payload at the
    start of the buffer and its length, on globals that differ from those
    before the frame only by the parser's own state; the parser is set idle
    after the handler returns. *)
Theorem registered_callback_is_dispatched (callbacks : CallbackTable) (c : Z)
    (callback : CommandCallback) (w : World) (payload : list Z) :
  rx_idle w ->
  Z.of_nat (length payload) <= MAX_DATA_LEN ->
  let table := protocol_register_callback callbacks c callback in
  let n := Z.of_nat (length payload) in
  let frame := received_frame w c payload in
  let run := protocol_process_data table w (wire_of (c, payload)) in
  let called :=
    callback (data frame) n
      (set_protocol_handler
         (mkHandler frame (4 + n) true (tx_queue (protocol_handler w))) w) in
  table c = Some callback
  /\ (forall c', c' <> c -> table c' = callbacks c')
  /\ payload_of frame = payload
  /\ callback_calls (snd run) = [(c, data frame, n)]
  /\ fst run =
       set_protocol_handler
         (set_rx_index 0 (set_rx_receiving false (protocol_handler called)))
         called.
Proof.
  intros Hidle Hfit. cbn zeta.
  assert (Hbound : protocol_register_callback callbacks c callback c = Some callback).
  { unfold protocol_register_callback. now rewrite Z.eqb_refl. }
  split; [exact Hbound |]. split.
  { intros c' Hne. unfold protocol_register_callback.
    destruct (Z.eqb_spec c' c); [contradiction | reflexivity]. }
  split; [exact (payload_of_received_frame w c payload Hidle Hfit) |].
  unfold wire_of. cbn [fst snd].
  rewrite (process_frame_wire _ w c payload Hidle Hfit). cbn zeta.
  unfold dispatch. rewrite Hbound. cbn [fst snd].
  rewrite callback_calls_app, callback_calls_stores.
  split; reflexivity.
Qed.

Lemma registered_callback_is_dispatched_witness :
  let table :=
    protocol_register_callback app_main_callbacks CMD_SET_STATE
      (fun payload _ => state_machine_transition (fun _ => 0) (nth 0 payload 0)) in
  let run :=
    protocol_process_data table (app_main_startup power_on)
      (wire_of (CMD_SET_STATE, [STATE_WAKE])) in
  current_state (state_machine (fst run)) = STATE_WAKE
  /\ length (callback_calls (snd run)) = 1%nat.
Proof.
  cbn zeta.
  destruct (registered_callback_is_dispatched app_main_callbacks CMD_SET_STATE
              (fun payload _ => state_machine_transition (fun _ => 0) (nth 0 payload 0))
              (app_main_startup power_on) [STATE_WAKE])
    as (_ & _ & _ & Hcalls & Hworld).
  - split; reflexivity.
  - unfold MAX_DATA_LEN. cbn. lia.
  - rewrite Hcalls, Hworld. split; [vm_compute |]; reflexivity.
Defined.

(** X9: a well-formed frame whose command has no handler in the table is
    completed with a matching checksum and reported as having no callback;
    apart from the parser's own state no global changes. *)
Theorem unbound_command_changes_nothing (callbacks : CallbackTable) (c : Z)
    (w : World) (payload : list Z) :
  rx_idle w ->
  Z.of_nat (length payload) <= MAX_DATA_LEN ->
  callbacks c = None ->
  let run := protocol_process_data callbacks w (wire_of (c, payload)) in
  frame_summary (snd run) = [(c, payload, true)]
  /\ callback_calls (snd run) = []
  /\ In (EvNoCallback c) (snd run)
  /\ fst run =
       set_protocol_handler
         (mkHandler (received_frame w c payload) 0 false
            (tx_queue (protocol_handler w))) w.
Proof.
  intros Hidle Hfit Hnone. cbn zeta. unfold wire_of. cbn [fst snd].
  rewrite (process_frame_wire callbacks w c payload Hidle Hfit). cbn zeta.
  unfold dispatch. rewrite Hnone. cbn [fst snd]. unfold frame_summary.
  rewrite completed_frames_app, callback_calls_app.
  rewrite completed_frames_stores, callback_calls_stores.
  cbn [app completed_frames callback_calls flat_map map fst snd].
  rewrite (payload_of_received_frame w c payload Hidle Hfit).
  cbn [received_frame cmd crc]. rewrite Z.eqb_refl.
  repeat split.
  apply in_or_app. right. right. left. reflexivity.
Qed.

Lemma unbound_command_changes_nothing_witness :
  let run :=
    protocol_process_data app_main_callbacks (app_main_startup power_on)
      (wire_of (CMD_SET_STATE, [STATE_TALK])) in
  frame_summary (snd run) = [(CMD_SET_STATE, [STATE_TALK], true)]
  /\ state_machine (fst run) = state_machine (app_main_startup power_on).
Proof.
  cbn zeta.
  destruct (unbound_command_changes_nothing app_main_callbacks CMD_SET_STATE
              (app_main_startup power_on) [STATE_TALK])
    as (Hsum & _ & _ & Hworld).
  - split; reflexivity.
  - unfold MAX_DATA_LEN. cbn. lia.
  - reflexivity.
  - split; [exact Hsum |]. rewrite Hworld. reflexivity.
Defined.

(** ** Telemetry payloads *)

Lemma uint_of_bytes_uint16 (v : Z) :
  0 <= v < 65536 -> uint_of_bytes (bytes_of_uint16 v) = v.
Proof.
  intros Hv. unfold bytes_of_uint16, uint_of_bytes.
  change 0xFF with (Z.ones 8). rewrite !Z.land_ones by lia.
  rewrite !Z.shiftr_div_pow2 by lia.
  change (2 ^ 8) with 256.
  Z.div_mod_to_equations. lia.
Qed.

Lemma uint_of_bytes_uint32 (v : Z) :
  0 <= v < 4294967296 -> uint_of_bytes (bytes_of_uint32 v) = v.
Proof.
  intros Hv. unfold bytes_of_uint32, uint_of_bytes.
  change 0xFF with (Z.ones 8). rewrite !Z.land_ones by lia.
  rewrite !Z.shiftr_div_pow2 by lia.
  change (2 ^ 8) with 256. change (2 ^ 16) with 65536.
  change (2 ^ 24) with 16777216.
  Z.div_mod_to_equations. lia.
Qed.

Lemma send_response_queue (w : World) (c : Z) (payload : list Z) (n : Z) :
  Z.of_nat (length (tx_queue (protocol_handler w))) < TX_QUEUE_LENGTH ->
  tx_queue (protocol_handler (protocol_send_response w c payload n))
  = tx_queue (protocol_handler w) ++ [response_frame c payload n].
Proof.
  intros Hroom. unfold protocol_send_response, protocol_send_frame.
  rewrite xQueueSend_room by exact Hroom. reflexivity.
Qed.

(** The fields of the frame [protocol_send_response] builds from a payload of
    [n] bytes, and the consistency of its checksum. *)
Lemma response_frame_fields (c : Z) (payload : list Z) (n : Z) :
  Z.of_nat (length payload) = n ->
  n <= MAX_DATA_LEN ->
  head (response_frame c payload n) = FRAME_HEAD
  /\ cmd (response_frame c payload n) = c
  /\ len (response_frame c payload n) = n
  /\ data (response_frame c payload n) = payload
  /\ crc (response_frame c payload n) = computed_crc (response_frame c payload n).
Proof.
  intros Hn Hfit. subst n. unfold MAX_DATA_LEN in Hfit.
  unfold response_frame, set_crc, computed_crc.
  cbn [head cmd len data crc]. rewrite Nat2Z.id, firstn_all.
  split; [reflexivity |]. split; [reflexivity |]. split; [reflexivity |].
  split; [reflexivity |].
  unfold calc_crc8. f_equal. apply crc8_loop_prefix.
  unfold frame_bytes. cbn [head cmd len data crc].
  assert (Hk : Z.to_nat (uint16 (4 + Z.of_nat (length payload)))
               = (4 + length payload)%nat).
  { unfold uint16. rewrite Z.mod_small by lia. lia. }
  rewrite Hk. cbn [Nat.add app take]. do 4 f_equal.
  rewrite !take_app_le by lia. reflexivity.
Qed.

(** X10: with room in the queue, [protocol_send_sensor_data] enqueues one
    frame of command 0x09 and length 4 whose four payload bytes are bytes;
    the first two give back the distance, low byte first, the third is the
    proximity flag and the fourth the light level. *)
Theorem sensor_data_frame_layout (w : World) (distance proximity light : Z) :
  Z.of_nat (length (tx_queue (protocol_handler w))) < TX_QUEUE_LENGTH ->
  0 <= distance < 65536 -> is_uint8 proximity -> is_uint8 light ->
  exists frame,
    tx_queue (protocol_handler (protocol_send_sensor_data w distance proximity light))
    = tx_queue (protocol_handler w) ++ [frame]
    /\ head frame = FRAME_HEAD
    /\ cmd frame = CMD_SENSOR_DATA
    /\ len frame = 4
    /\ length (data frame) = 4%nat
    /\ Forall is_uint8 (data frame)
    /\ uint_of_bytes (take 2 (data frame)) = distance
    /\ drop 2 (data frame) = [proximity; light]
    /\ crc frame = computed_crc frame.
Proof.
  intros Hroom Hd Hp Hl. unfold protocol_send_sensor_data.
  eexists. split; [apply send_response_queue; exact Hroom |].
  destruct (response_frame_fields CMD_SENSOR_DATA
              (bytes_of_uint16 distance ++ [proximity; light]) 4)
    as (Hhead & Hcmd & Hlen & Hdata & Hcrc);
    [reflexivity | unfold MAX_DATA_LEN; lia |].
  rewrite Hhead, Hcmd, Hlen, Hdata.
  split; [reflexivity |]. split; [reflexivity |]. split; [reflexivity |].
  split; [reflexivity |]. split.
  { cbn [bytes_of_uint16 app].
    repeat (constructor; [first [apply is_uint8_land | assumption] |]).
    constructor. }
  split; [exact (uint_of_bytes_uint16 distance Hd) |].
  split; [reflexivity | exact Hcrc].
Qed.

Lemma sensor_data_frame_layout_witness :
  exists frame,
    tx_queue (protocol_handler
                (protocol_send_sensor_data (app_main_startup power_on) 300 0 17))
    = [frame]
    /\ data frame = [0x2C; 0x01; 0; 17]
    /\ uint_of_bytes (take 2 (data frame)) = 300.
Proof.
  destruct (sensor_data_frame_layout (app_main_startup power_on) 300 0 17)
    as (frame & Hq & _ & _ & _ & _ & _ & Hdist & _).
  - unfold TX_QUEUE_LENGTH. cbn. lia.
  - lia.
  - unfold is_uint8. lia.
  - unfold is_uint8. lia.
  - exists frame. split; [exact Hq |]. split; [| exact Hdist].
    cbn [app] in Hq. injection Hq as <-. reflexivity.
Defined.

(** X11: with room in the queue, [protocol_send_heartbeat] enqueues one frame
    of command 0x01 and length 8 whose eight payload bytes are bytes: the
    first four give back the whole seconds since boot (modulo 2^32), the
    last four the free heap size, both low byte first. *)
Theorem heartbeat_frame_layout (w : World) (free_heap : Z) :
  Z.of_nat (length (tx_queue (protocol_handler w))) < TX_QUEUE_LENGTH ->
  0 <= free_heap < 4294967296 ->
  exists frame,
    tx_queue (protocol_handler (protocol_send_heartbeat free_heap w))
    = tx_queue (protocol_handler w) ++ [frame]
    /\ head frame = FRAME_HEAD
    /\ cmd frame = CMD_HEARTBEAT
    /\ len frame = 8
    /\ length (data frame) = 8%nat
    /\ Forall is_uint8 (data frame)
    /\ uint_of_bytes (take 4 (data frame))
       = Z.quot (timer_us w) 1000000 mod 4294967296
    /\ uint_of_bytes (drop 4 (data frame)) = free_heap
    /\ crc frame = computed_crc frame.
Proof.
  intros Hroom Hheap. unfold protocol_send_heartbeat.
  eexists. split; [apply send_response_queue; exact Hroom |].
  set (uptime := uint32 (Z.quot (timer_us w) 1000000)).
  assert (Hup : 0 <= uptime < 4294967296)
    by (unfold uptime, uint32; apply Z.mod_pos_bound; lia).
  destruct (response_frame_fields CMD_HEARTBEAT
              (bytes_of_uint32 uptime ++ bytes_of_uint32 free_heap) 8)
    as (Hhead & Hcmd & Hlen & Hdata & Hcrc);
    [reflexivity | unfold MAX_DATA_LEN; lia |].
  rewrite Hhead, Hcmd, Hlen, Hdata.
  split; [reflexivity |]. split; [reflexivity |]. split; [reflexivity |].
  split; [reflexivity |]. split.
  { cbn [bytes_of_uint32 app].
    repeat (constructor; [apply is_uint8_land |]). constructor. }
  split; [exact (uint_of_bytes_uint32 uptime Hup) |].
  split; [exact (uint_of_bytes_uint32 free_heap Hheap) | exact Hcrc].
Qed.

Lemma heartbeat_frame_layout_witness :
  exists frame,
    tx_queue (protocol_handler
                (protocol_send_heartbeat 200000
                   (set_timer_us 61500000 (app_main_startup power_on))))
    = [frame]
    /\ uint_of_bytes (take 4 (data frame)) = 61
    /\ uint_of_bytes (drop 4 (data frame)) = 200000.
Proof.
  destruct (heartbeat_frame_layout
              (set_timer_us 61500000 (app_main_startup power_on)) 200000)
    as (frame & Hq & _ & _ & _ & _ & _ & Hup & Hheap & _).
  - unfold TX_QUEUE_LENGTH. cbn. lia.
  - lia.
  - exists frame. split; [exact Hq |]. split; [exact Hup | exact Hheap].
Defined.

(** X12: with room in the queue, [protocol_send_status] enqueues one frame
    of command 0x08 that announces nine payload bytes: state, battery,
    expression, the two servo angles (low byte first, each giving back its
    angle) and two bytes the function never wrote; the checksum covers all
    nine. *)
Theorem status_frame_layout (stack_7 stack_8 : Z) (w : World)
    (state battery expression servo_h servo_v : Z) :
  Z.of_nat (length (tx_queue (protocol_handler w))) < TX_QUEUE_LENGTH ->
  is_uint8 state -> 0 <= servo_h < 65536 -> 0 <= servo_v < 65536 ->
  exists frame,
    tx_queue (protocol_handler
                (protocol_send_status stack_7 stack_8 w state battery expression
                   servo_h servo_v))
    = tx_queue (protocol_handler w) ++ [frame]
    /\ cmd frame = CMD_GET_STATUS
    /\ len frame = 9
    /\ take 3 (data frame) = [state; battery; expression]
    /\ uint_of_bytes (take 2 (drop 3 (data frame))) = servo_h
    /\ uint_of_bytes (take 2 (drop 5 (data frame))) = servo_v
    /\ drop 7 (data frame) = [stack_7; stack_8]
    /\ crc frame = computed_crc frame.
Proof.
  intros Hroom Hstate Hh Hv. unfold protocol_send_status.
  eexists. split; [apply send_response_queue; exact Hroom |].
  assert (Hs : uint8 state = state) by (apply Z.mod_small; exact Hstate).
  rewrite Hs.
  destruct (response_frame_fields CMD_GET_STATUS
              ([state; battery; expression]
                 ++ bytes_of_uint16 servo_h ++ bytes_of_uint16 servo_v
                 ++ [stack_7; stack_8]) 9)
    as (_ & Hcmd & Hlen & Hdata & Hcrc);
    [reflexivity | unfold MAX_DATA_LEN; lia |].
  rewrite Hcmd, Hlen, Hdata.
  split; [reflexivity |]. split; [reflexivity |]. split; [reflexivity |].
  split; [exact (uint_of_bytes_uint16 servo_h Hh) |].
  split; [exact (uint_of_bytes_uint16 servo_v Hv) |].
  split; [reflexivity | exact Hcrc].
Qed.

Lemma status_frame_layout_witness :
  exists frame,
    tx_queue (protocol_handler
                (protocol_send_status 0xEE 0xFF (app_main_startup power_on)
                   STATE_TALK 100 0x04 90 90))
    = [frame]
    /\ len frame = 9
    /\ drop 7 (data frame) = [0xEE; 0xFF].
Proof.
  destruct (status_frame_layout 0xEE 0xFF (app_main_startup power_on)
              STATE_TALK 100 0x04 90 90)
    as (frame & Hq & _ & Hlen & _ & _ & _ & Hstack & _).
  - unfold TX_QUEUE_LENGTH. cbn. lia.
  - unfold is_uint8, STATE_TALK. lia.
  - lia.
  - lia.
  - exists frame. split; [exact Hq |]. split; [exact Hlen | exact Hstack].
Defined.

(** * Further properties of the behaviour controller and of the main loop *)

Lemma transition_keeps_running (stack_byte : Z -> Z) (s : Z) (w : World) :
  running (state_machine (state_machine_transition stack_byte s w))
  = running (state_machine w).
Proof.
  unfold state_machine_transition.
  now destruct (s =? current_state (state_machine w)).
Qed.

Lemma update_cases (stack_byte : Z -> Z) (w : World) :
  state_machine_update stack_byte w = w
  \/ (state_machine_update stack_byte w
      = state_machine_transition stack_byte STATE_LISTEN w
      /\ running (state_machine w) = true).
Proof.
  unfold state_machine_update.
  destruct (running (state_machine w)); cbn [negb]; [| now left].
  repeat match goal with
         | |- context [if ?b then _ else _] => destruct b
         end; first [now left | right; split; reflexivity].
Qed.

(** X13: the timed update fires at most once: applying it a second time, at
    the same clock, changes nothing. *)
Theorem update_twice_is_update_once (stack_byte : Z -> Z) (w : World) :
  state_machine_update stack_byte (state_machine_update stack_byte w)
  = state_machine_update stack_byte w.
Proof.
  destruct (update_cases stack_byte w) as [Hsame | [Hfired Hrun]].
  - now rewrite !Hsame.
  - rewrite Hfired.
    set (w' := state_machine_transition stack_byte STATE_LISTEN w).
    assert (Hstate : current_state (state_machine w') = STATE_LISTEN)
      by apply transition_current_state.
    assert (Hrun' : running (state_machine w') = true)
      by (unfold w'; rewrite transition_keeps_running; exact Hrun).
    unfold state_machine_update. rewrite Hrun', Hstate. reflexivity.
Qed.

(** X14: the elapsed time is right across the wrap of the 32-bit millisecond
    counter: when the millisecond clock stands [d] milliseconds (less than
    2^32) after the stamp taken on entering WAKE, wrapped or not, the update
    sees exactly [d], transitions to LISTEN when [d] exceeds 2000 and does
    nothing otherwise. *)
Theorem update_is_right_across_clock_wrap (stack_byte : Z -> Z) (w : World) (d : Z) :
  running (state_machine w) = true ->
  current_state (state_machine w) = STATE_WAKE ->
  0 <= state_enter_time (state_machine w) < 4294967296 ->
  0 <= d < 4294967296 ->
  now_ms w = uint32 (state_enter_time (state_machine w) + d) ->
  elapsed_ms w = d
  /\ (2000 < d ->
      current_state (state_machine (state_machine_update stack_byte w))
      = STATE_LISTEN)
  /\ (d <= 2000 -> state_machine_update stack_byte w = w).
Proof.
  intros Hrun Hwake Henter Hd Hnow.
  assert (Helapsed : elapsed_ms w = d).
  { unfold elapsed_ms. rewrite Hnow. unfold uint32.
    rewrite Zminus_mod_idemp_l.
    replace (state_enter_time (state_machine w) + d
             - state_enter_time (state_machine w)) with d by lia.
    apply Z.mod_small. exact Hd. }
  split; [exact Helapsed |].
  unfold elapsed_ms in Helapsed.
  unfold state_machine_update. rewrite Hrun, Hwake, Helapsed. cbn [negb].
  change (STATE_WAKE =? STATE_SLEEP) with false.
  change (STATE_WAKE =? STATE_WAKE) with true. cbn iota.
  split; intros Hcase.
  - destruct (Z.gtb_spec d 2000); [| lia]. apply transition_current_state.
  - destruct (Z.gtb_spec d 2000); [lia | reflexivity].
Qed.

Lemma update_is_right_across_clock_wrap_witness :
  let w :=
    mkWorld (mkHandler (mkFrame 0 0 0 [] 0) 0 false [])
      (mkStateMachine STATE_WAKE STATE_SLEEP 4294966296 100 0x01 90 90 true)
      [] [] ((4294967296 + 1500) * 1000) in
  now_ms w = 1500
  /\ elapsed_ms w = 2500
  /\ current_state (state_machine (state_machine_update (fun _ => 0) w))
     = STATE_LISTEN.
Proof.
  cbn zeta. split; [reflexivity |].
  destruct (update_is_right_across_clock_wrap (fun _ => 0)
              (mkWorld (mkHandler (mkFrame 0 0 0 [] 0) 0 false [])
                 (mkStateMachine STATE_WAKE STATE_SLEEP 4294966296 100 0x01 90 90 true)
                 [] [] ((4294967296 + 1500) * 1000)) 2500)
    as (Helapsed & Hlate & _); try reflexivity.
  - cbn. lia.
  - lia.
  - split; [exact Helapsed |]. apply Hlate. lia.
Defined.

(** ** The loop of the firmware as built *)

Lemma process_byte_no_callbacks (w : World) (byte : Z) :
  let w' := fst (process_byte app_main_callbacks w byte) in
  state_machine w' = state_machine w
  /\ tx_queue (protocol_handler w') = tx_queue (protocol_handler w)
  /\ led_expressions w' = led_expressions w
  /\ uart_tx w' = uart_tx w
  /\ timer_us w' = timer_us w.
Proof.
  cbn zeta. unfold process_byte, app_main_callbacks, protocol_init_callbacks.
  repeat match goal with
         | |- context [if ?b then _ else _] => destruct b
         end; cbn; repeat split; reflexivity.
Qed.

Lemma process_data_no_callbacks (bytes : list Z) :
  forall w,
    let w' := fst (protocol_process_data app_main_callbacks w bytes) in
    state_machine w' = state_machine w
    /\ tx_queue (protocol_handler w') = tx_queue (protocol_handler w)
    /\ led_expressions w' = led_expressions w
    /\ uart_tx w' = uart_tx w
    /\ timer_us w' = timer_us w.
Proof.
  induction bytes as [| b rest IH]; intros w; cbn zeta.
  - cbn. repeat split; reflexivity.
  - cbn [protocol_process_data].
    pose proof (process_byte_no_callbacks w b) as Hb. cbn zeta in Hb.
    destruct (process_byte app_main_callbacks w b) as [w1 evs1].
    pose proof (IH w1) as Hrest. cbn zeta in Hrest.
    destruct (protocol_process_data app_main_callbacks w1 rest) as [w2 evs2].
    cbn [fst] in *.
    destruct Hb as (Hb1 & Hb2 & Hb3 & Hb4 & Hb5).
    destruct Hrest as (Hr1 & Hr2 & Hr3 & Hr4 & Hr5).
    repeat split; congruence.
Qed.

Lemma iteration_in_sleep (stack_byte : Z -> Z) (bytes : list Z) (w : World) :
  current_state (state_machine w) = STATE_SLEEP ->
  tx_queue (protocol_handler w) = [] ->
  let w' := main_loop_iteration app_main_callbacks stack_byte bytes w in
  state_machine w' = state_machine w
  /\ tx_queue (protocol_handler w') = []
  /\ led_expressions w' = led_expressions w
  /\ uart_tx w' = uart_tx w.
Proof.
  intros Hsleep Hempty. cbn zeta. unfold main_loop_iteration.
  remember (if 0 <? Z.of_nat (length bytes)
            then fst (protocol_process_data app_main_callbacks w bytes)
            else w) as w1 eqn:Hw1.
  assert (H1 : state_machine w1 = state_machine w
               /\ tx_queue (protocol_handler w1) = tx_queue (protocol_handler w)
               /\ led_expressions w1 = led_expressions w
               /\ uart_tx w1 = uart_tx w
               /\ timer_us w1 = timer_us w).
  { subst w1. destruct (0 <? Z.of_nat (length bytes)).
    - apply process_data_no_callbacks.
    - repeat split; reflexivity. }
  clear Hw1. destruct H1 as (Hsm & Hq & Hled & Huart & _).
  assert (Hupdate : state_machine_update stack_byte (protocol_send_queued w1)
                    = protocol_send_queued w1).
  { unfold state_machine_update, protocol_send_queued, set_uart_tx,
      set_protocol_handler.
    cbn [state_machine].
    rewrite Hsm, Hsleep.
    destruct (running (state_machine w)); reflexivity. }
  rewrite Hupdate.
  unfold protocol_send_queued, set_uart_tx, set_protocol_handler, set_tx_queue.
  cbn [state_machine protocol_handler tx_queue led_expressions uart_tx].
  rewrite Hq, Hempty. cbn [send_queued_loop]. repeat split; assumption.
Qed.

(** X15: the firmware as built never leaves SLEEP and never sends.  No
    handler is registered at start-up, so whatever bytes arrive, in whatever
    reads and at whatever times, after any number of loop iterations the
    state machine is what start-up made it (state SLEEP), the display has
    been given the one expression of initialisation, the outbound queue is
    empty and no byte has been written to the UART. *)
Theorem firmware_stays_asleep (stack_byte : Z -> Z) (ticks : list (Z * list Z))
    (w0 : World) :
  let started := app_main_startup w0 in
  let w := main_loop app_main_callbacks stack_byte ticks started in
  state_machine w = state_machine started
  /\ current_state (state_machine w) = STATE_SLEEP
  /\ led_expressions w = led_expressions w0 ++ [0x00]
  /\ tx_queue (protocol_handler w) = []
  /\ uart_tx w = uart_tx w0.
Proof.
  cbn zeta.
  assert (Hgen : forall ticks w,
             current_state (state_machine w) = STATE_SLEEP ->
             tx_queue (protocol_handler w) = [] ->
             let w' := main_loop app_main_callbacks stack_byte ticks w in
             state_machine w' = state_machine w
             /\ tx_queue (protocol_handler w') = []
             /\ led_expressions w' = led_expressions w
             /\ uart_tx w' = uart_tx w).
  { clear. intros ticks. induction ticks as [| [now bytes] rest IH];
      intros w Hsleep Hempty; cbn zeta.
    - cbn. repeat split; try reflexivity. exact Hempty.
    - cbn [main_loop].
      destruct (iteration_in_sleep stack_byte bytes (set_timer_us now w)
                  Hsleep Hempty) as (Hsm & Hq & Hled & Huart).
      destruct (IH (main_loop_iteration app_main_callbacks stack_byte bytes
                      (set_timer_us now w))) as (Hsm' & Hq' & Hled' & Huart').
      + rewrite Hsm. exact Hsleep.
      + exact Hq.
      + rewrite Hsm', Hled', Huart', Hsm, Hled, Huart. repeat split. exact Hq'. }
  destruct (Hgen ticks (app_main_startup w0)) as (Hsm & Hq & Hled & Huart);
    try reflexivity.
  rewrite Hsm, Hled, Huart. repeat split. exact Hq.
Qed.


(** * servo.c: angles, pulses and the motion towards a target *)

Lemma angle_to_pulse_value (angle : Z) :
  0 <= angle ->
  ServoDriver.servo_angle_to_pulse angle = 500 + (2000 * Z.min angle 180) / 180.
Proof.
  intros Ha. unfold ServoDriver.servo_angle_to_pulse, ServoDriver.SERVO_MIN_PULSE,
    ServoDriver.SERVO_MAX_PULSE, uint16.
  change (2500 - 500) with 2000.
  destruct (Z.gtb_spec angle 180).
  - rewrite Z.min_r by lia. reflexivity.
  - rewrite Z.min_l by lia. rewrite Z.quot_div_nonneg by lia.
    apply Z.mod_small. Z.div_mod_to_equations. lia.
Qed.

Lemma pulse_to_angle_value (pulse : Z) :
  ServoDriver.servo_pulse_to_angle pulse
  = ((Z.max 500 (Z.min pulse 2500) - 500) * 180) / 2000.
Proof.
  unfold ServoDriver.servo_pulse_to_angle, ServoDriver.SERVO_MIN_PULSE,
    ServoDriver.SERVO_MAX_PULSE, uint16.
  change (2500 - 500) with 2000.
  destruct (Z.ltb_spec pulse 500).
  - cbn [Z.gtb Z.compare Pos.compare Pos.compare_cont].
    rewrite Z.max_l by lia. reflexivity.
  - destruct (Z.gtb_spec pulse 2500).
    + rewrite Z.min_r, Z.max_r by lia. reflexivity.
    + rewrite Z.min_l, Z.max_r by lia. rewrite Z.quot_div_nonneg by lia.
      apply Z.mod_small. Z.div_mod_to_equations. lia.
Qed.

(** X17: [servo_angle_to_pulse] maps every angle into the pulse range 500 to
    2500 microseconds, never decreases, sends 0 to 500 and every angle from
    180 up to 2500. *)
Theorem servo_angle_to_pulse_is_clamped_and_monotone (a b : Z) :
  0 <= a -> a <= b ->
  500 <= ServoDriver.servo_angle_to_pulse a
  /\ ServoDriver.servo_angle_to_pulse a <= ServoDriver.servo_angle_to_pulse b
  /\ ServoDriver.servo_angle_to_pulse b <= 2500
  /\ (180 <= a -> ServoDriver.servo_angle_to_pulse a = 2500)
  /\ ServoDriver.servo_angle_to_pulse 0 = 500.
Proof.
  intros Ha Hab. rewrite !angle_to_pulse_value by lia.
  split; [| split; [| split; [| split]]].
  - Z.div_mod_to_equations. lia.
  - apply Z.add_le_mono_l, Z.div_le_mono; lia.
  - Z.div_mod_to_equations. lia.
  - intros Hbig. rewrite Z.min_r by lia. reflexivity.
  - reflexivity.
Qed.

Lemma servo_angle_to_pulse_is_clamped_and_monotone_witness :
  ServoDriver.servo_angle_to_pulse 45 = 1000
  /\ ServoDriver.servo_angle_to_pulse 45 <= ServoDriver.servo_angle_to_pulse 300
  /\ ServoDriver.servo_angle_to_pulse 300 <= 2500.
Proof.
  destruct (servo_angle_to_pulse_is_clamped_and_monotone 45 300)
    as (_ & Hmono & Hmax & _); [lia | lia |].
  split; [reflexivity |]. split; assumption.
Defined.

(** X18: [servo_pulse_to_angle] maps every pulse into 0 to 180 degrees, never
    decreases, and sends every pulse up to 500 to 0 and every pulse from
    2500 up to 180. *)
Theorem servo_pulse_to_angle_is_clamped_and_monotone (p q : Z) :
  p <= q ->
  0 <= ServoDriver.servo_pulse_to_angle p
  /\ ServoDriver.servo_pulse_to_angle p <= ServoDriver.servo_pulse_to_angle q
  /\ ServoDriver.servo_pulse_to_angle q <= 180
  /\ (p <= 500 -> ServoDriver.servo_pulse_to_angle p = 0)
  /\ (2500 <= p -> ServoDriver.servo_pulse_to_angle p = 180).
Proof.
  intros Hpq. rewrite !pulse_to_angle_value.
  split; [| split; [| split; [| split]]].
  - Z.div_mod_to_equations. lia.
  - apply Z.div_le_mono; lia.
  - Z.div_mod_to_equations. lia.
  - intros Hcase. rewrite Z.max_l by lia. reflexivity.
  - intros Hcase. rewrite Z.min_r, Z.max_r by lia. reflexivity.
Qed.

Lemma servo_pulse_to_angle_is_clamped_and_monotone_witness :
  ServoDriver.servo_pulse_to_angle 100 = 0
  /\ ServoDriver.servo_pulse_to_angle 1500 = 90
  /\ ServoDriver.servo_pulse_to_angle 100 <= ServoDriver.servo_pulse_to_angle 1500.
Proof.
  destruct (servo_pulse_to_angle_is_clamped_and_monotone 100 1500)
    as (_ & Hmono & _); [lia |].
  split; [reflexivity |]. split; [reflexivity | exact Hmono].
Defined.

Lemma angle_round_trip (a : Z) :
  0 <= a <= 180 ->
  let back := ServoDriver.servo_pulse_to_angle (ServoDriver.servo_angle_to_pulse a) in
  a - 1 <= back <= a /\ (back = a <-> a mod 9 = 0).
Proof.
  intros Ha. cbn zeta.
  rewrite angle_to_pulse_value by lia. rewrite pulse_to_angle_value.
  rewrite (Z.min_l a 180) by lia.
  assert (Hp : 0 <= (2000 * a) / 180 <= 2000) by (Z.div_mod_to_equations; lia).
  rewrite Z.min_l, Z.max_r by lia.
  replace (500 + 2000 * a / 180 - 500) with (2000 * a / 180) by lia.
  Z.div_mod_to_equations. lia.
Qed.

(** X19: an angle of 0 to 180 degrees converted to a pulse and back comes
    out as itself or one degree less, and as itself exactly when it is a
    multiple of 9. *)
Theorem servo_angle_round_trip_loses_at_most_one (a : Z) :
  0 <= a <= 180 ->
  let back := ServoDriver.servo_pulse_to_angle (ServoDriver.servo_angle_to_pulse a) in
  a - 1 <= back <= a /\ (back = a <-> a mod 9 = 0).
Proof. exact (angle_round_trip a). Qed.

Lemma servo_angle_round_trip_loses_at_most_one_witness :
  ServoDriver.servo_pulse_to_angle (ServoDriver.servo_angle_to_pulse 91) = 90
  /\ ServoDriver.servo_pulse_to_angle (ServoDriver.servo_angle_to_pulse 90) = 90.
Proof.
  destruct (servo_angle_round_trip_loses_at_most_one 91) as [_ _]; [lia |].
  split; reflexivity.
Defined.

Lemma servo_id_of_index (i : Z) : (i + 1 =? 1) = (i =? 0).
Proof.
  destruct (Z.eqb_spec i 0), (Z.eqb_spec (i + 1) 1); try reflexivity; lia.
Qed.

(** One round of the loop of [servo_update] is [servo_step] on the servo of
    that round and leaves the other servo and the enable flag alone. *)
Lemma servo_update_one_is_local (i now : Z) (st : ServoDriver.State) :
  ServoDriver.enabled (ServoDriver.servo_controller st) = true ->
  let st' := ServoDriver.servo_update_one i now st in
  ServoDriver.get_servo (i =? 0) st'
  = ServoDriver.servo_step now (ServoDriver.get_servo (i =? 0) st)
  /\ ServoDriver.get_servo (negb (i =? 0)) st'
     = ServoDriver.get_servo (negb (i =? 0)) st
  /\ ServoDriver.enabled (ServoDriver.servo_controller st') = true.
Proof.
  intros Hen. cbn zeta.
  unfold ServoDriver.servo_update_one, ServoDriver.servo_step,
    ServoDriver.servo_set_pulse.
  rewrite servo_id_of_index.
  destruct st as [[h v en] duties]. cbn in Hen. subst en.
  destruct (i =? 0); cbn [ServoDriver.get_servo negb ServoDriver.servo_controller
                          ServoDriver.horizontal ServoDriver.vertical];
    match goal with
    | |- context [ServoDriver.moving ?s] => destruct (ServoDriver.moving s) eqn:Hmov
    end;
    try (repeat split; reflexivity);
    match goal with
    | |- context [?d <=? 1] => destruct (d <=? 1)
    end;
    cbn; rewrite ?Hmov; repeat split; reflexivity.
Qed.

Lemma servo_update_is_stepwise (now : Z) (st : ServoDriver.State) :
  ServoDriver.enabled (ServoDriver.servo_controller st) = true ->
  let st' := ServoDriver.servo_update now st in
  ServoDriver.horizontal (ServoDriver.servo_controller st')
  = ServoDriver.servo_step now (ServoDriver.horizontal (ServoDriver.servo_controller st))
  /\ ServoDriver.vertical (ServoDriver.servo_controller st')
     = ServoDriver.servo_step now (ServoDriver.vertical (ServoDriver.servo_controller st))
  /\ ServoDriver.enabled (ServoDriver.servo_controller st') = true.
Proof.
  intros Hen. cbn zeta. unfold ServoDriver.servo_update. rewrite Hen. cbn [negb].
  destruct (servo_update_one_is_local 0 now st Hen) as (Hh0 & Hv0 & Hen0).
  destruct (servo_update_one_is_local 1 now _ Hen0) as (Hv1 & Hh1 & Hen1).
  cbn [Z.eqb negb ServoDriver.get_servo] in *.
  rewrite Hh1, Hh0, Hv1, Hv0. repeat split. exact Hen1.
Qed.

(** What [servo_step] does to a moving servo. *)
Lemma servo_step_moving (now : Z) (servo : ServoDriver.Servo) :
  ServoDriver.moving servo = true ->
  ServoDriver.pulses_in_range servo ->
  let servo' := ServoDriver.servo_step now servo in
  ServoDriver.target_pulse servo' = ServoDriver.target_pulse servo
  /\ ServoDriver.target_angle servo' = ServoDriver.target_angle servo
  /\ ServoDriver.pulses_in_range servo'
  /\ ServoDriver.current_angle servo'
     = ServoDriver.servo_pulse_to_angle (ServoDriver.current_pulse servo')
  /\ (ServoDriver.distance servo <= 1 ->
      ServoDriver.moving servo' = false
      /\ ServoDriver.current_pulse servo' = ServoDriver.target_pulse servo)
  /\ (1 < ServoDriver.distance servo ->
      ServoDriver.moving servo' = true
      /\ ServoDriver.distance servo' < ServoDriver.distance servo
      /\ Z.min (ServoDriver.current_pulse servo) (ServoDriver.target_pulse servo)
         <= ServoDriver.current_pulse servo'
         <= Z.max (ServoDriver.current_pulse servo) (ServoDriver.target_pulse servo)).
Proof.
  intros Hmov [Hcur Htgt]. cbn zeta.
  unfold ServoDriver.servo_step, ServoDriver.distance, ServoDriver.pulses_in_range.
  rewrite Hmov.
  destruct servo as [pin ca ta cp tp sp mv lu]. cbn in Hcur, Htgt, Hmov |- *.
  assert (Hdiff : uint16 (Z.abs (tp - cp)) = Z.abs (tp - cp))
    by (unfold uint16; apply Z.mod_small; lia).
  rewrite Hdiff.
  destruct (Z.leb_spec (Z.abs (tp - cp)) 1) as [Hnear | Hfar]; cbn.
  - repeat split; try lia.
  - set (s0 := uint16 (Z.quot ((sp + 1) * 10) 100)).
    set (s1 := if s0 <? 1 then 1 else s0).
    set (s := if s1 >? Z.abs (tp - cp) then Z.abs (tp - cp) else s1).
    assert (Hs : 1 <= s <= Z.abs (tp - cp)).
    { subst s s1. destruct (Z.ltb_spec s0 1);
        match goal with |- context [?a >? ?b] => destruct (Z.gtb_spec a b) end;
        lia. }
    clearbody s. clear s0 s1.
    destruct (Z.gtb_spec tp cp) as [Hup | Hdown].
    + assert (Hp : uint16 (cp + s) = cp + s)
        by (unfold uint16; apply Z.mod_small; lia).
      rewrite Hp. repeat split; try lia.
    + assert (Hp : uint16 (cp - s) = cp - s)
        by (unfold uint16; apply Z.mod_small; lia).
      rewrite Hp. repeat split; try lia.
Qed.

(** X20: one call of [servo_update] on an enabled controller leaves a servo
    that is not moving as it is; stops a moving servo that is within one
    microsecond of its target exactly on the target pulse; and moves any
    other moving servo towards its target by at least one microsecond
    without passing it.  In both moving cases the current angle becomes the
    angle of the new pulse. *)
Theorem servo_update_approaches_target (now : Z) (st : ServoDriver.State)
    (is_horizontal : bool) :
  ServoDriver.enabled (ServoDriver.servo_controller st) = true ->
  ServoDriver.pulses_in_range (ServoDriver.get_servo is_horizontal st) ->
  let servo := ServoDriver.get_servo is_horizontal st in
  let servo' := ServoDriver.get_servo is_horizontal (ServoDriver.servo_update now st) in
  (ServoDriver.moving servo = false -> servo' = servo)
  /\ (ServoDriver.moving servo = true ->
      ServoDriver.target_pulse servo' = ServoDriver.target_pulse servo
      /\ ServoDriver.current_angle servo'
         = ServoDriver.servo_pulse_to_angle (ServoDriver.current_pulse servo')
      /\ (ServoDriver.distance servo <= 1 ->
          ServoDriver.moving servo' = false
          /\ ServoDriver.current_pulse servo' = ServoDriver.target_pulse servo)
      /\ (1 < ServoDriver.distance servo ->
          ServoDriver.moving servo' = true
          /\ ServoDriver.distance servo' < ServoDriver.distance servo
          /\ Z.min (ServoDriver.current_pulse servo) (ServoDriver.target_pulse servo)
             <= ServoDriver.current_pulse servo'
             <= Z.max (ServoDriver.current_pulse servo)
                  (ServoDriver.target_pulse servo))).
Proof.
  intros Hen Hrange. cbn zeta.
  destruct (servo_update_is_stepwise now st Hen) as (Hh & Hv & _).
  assert (Hstep : ServoDriver.get_servo is_horizontal (ServoDriver.servo_update now st)
                  = ServoDriver.servo_step now (ServoDriver.get_servo is_horizontal st)).
  { destruct is_horizontal; cbn [ServoDriver.get_servo]; assumption. }
  rewrite Hstep. split.
  - intros Hstill. unfold ServoDriver.servo_step. now rewrite Hstill.
  - intros Hmov.
    destruct (servo_step_moving now _ Hmov Hrange)
      as (Htp & _ & _ & Hangle & Hnear & Hfar).
    repeat split; try assumption; try (apply Hnear; assumption);
      try (apply Hfar; assumption).
Qed.

Lemma servo_update_approaches_target_witness :
  let st := ServoDriver.servo_init (ServoDriver.mkState
              (ServoDriver.mkServoController
                 (ServoDriver.mkServo 0 0 0 0 0 0 false 0)
                 (ServoDriver.mkServo 0 0 0 0 0 0 false 0) false) []) in
  let servo := ServoDriver.get_servo true st in
  let servo' := ServoDriver.get_servo true (ServoDriver.servo_update 7 st) in
  ServoDriver.current_pulse servo = 0
  /\ ServoDriver.target_pulse servo = 1500
  /\ ServoDriver.current_pulse servo' = 5
  /\ ServoDriver.distance servo' < ServoDriver.distance servo.
Proof.
  cbn zeta.
  destruct (servo_update_approaches_target 7
              (ServoDriver.servo_init (ServoDriver.mkState
                 (ServoDriver.mkServoController
                    (ServoDriver.mkServo 0 0 0 0 0 0 false 0)
                    (ServoDriver.mkServo 0 0 0 0 0 0 false 0) false) []))
              true) as (_ & Hmov).
  - reflexivity.
  - vm_compute. repeat split; discriminate.
  - destruct (Hmov eq_refl) as (_ & _ & _ & Hfar).
    destruct Hfar as (_ & Hless & _); [vm_compute; reflexivity |].
    split; [reflexivity |]. split; [reflexivity |].
    split; [reflexivity | exact Hless].
Defined.

Lemma updates_settle (is_horizontal : bool) (n : nat) :
  forall (now : Z) (st : ServoDriver.State),
    ServoDriver.enabled (ServoDriver.servo_controller st) = true ->
    let servo := ServoDriver.get_servo is_horizontal st in
    ServoDriver.pulses_in_range servo ->
    (ServoDriver.moving servo = true ->
     ServoDriver.distance servo <= Z.of_nat n /\ (1 <= n)%nat) ->
    let servo' := ServoDriver.get_servo is_horizontal (ServoDriver.updates n now st) in
    (ServoDriver.moving servo = false -> servo' = servo)
    /\ (ServoDriver.moving servo = true ->
        ServoDriver.moving servo' = false
        /\ ServoDriver.current_pulse servo' = ServoDriver.target_pulse servo
        /\ ServoDriver.target_pulse servo' = ServoDriver.target_pulse servo
        /\ ServoDriver.target_angle servo' = ServoDriver.target_angle servo
        /\ ServoDriver.current_angle servo'
           = ServoDriver.servo_pulse_to_angle (ServoDriver.target_pulse servo)).
Proof.
  induction n as [| n IH]; intros now st Hen; cbn zeta; intros Hrange Hbound.
  - cbn [ServoDriver.updates]. split; [reflexivity |].
    intros Hmov. destruct (Hbound Hmov) as [_ Hone]. lia.
  - cbn [ServoDriver.updates].
    destruct (servo_update_is_stepwise now st Hen) as (Hh & Hv & Hen1).
    assert (Hstep : ServoDriver.get_servo is_horizontal (ServoDriver.servo_update now st)
                    = ServoDriver.servo_step now (ServoDriver.get_servo is_horizontal st)).
    { destruct is_horizontal; cbn [ServoDriver.get_servo]; assumption. }
    set (servo := ServoDriver.get_servo is_horizontal st) in *.
    destruct (ServoDriver.moving servo) eqn:Hmov.
    + destruct (servo_step_moving now servo Hmov Hrange)
        as (Htp & Hta & Hrange1 & Hangle & Hnear & Hfar).
      split; [discriminate |]. intros _.
      destruct (Hbound eq_refl) as [Hdist _].
      destruct (Z.le_gt_cases (ServoDriver.distance servo) 1) as [Hle | Hgt].
      * destruct (Hnear Hle) as [Hstop Hcp].
        destruct (IH (now + 1) (ServoDriver.servo_update now st) Hen1) as [Hsame _].
        -- rewrite Hstep. exact Hrange1.
        -- rewrite Hstep, Hstop. discriminate.
        -- rewrite Hsame by (rewrite Hstep; exact Hstop).
           rewrite Hstep. rewrite Hangle, Hcp. repeat split; assumption.
      * destruct (Hfar Hgt) as (Hstill & Hless & _).
        destruct (IH (now + 1) (ServoDriver.servo_update now st) Hen1) as [_ Hdone].
        -- rewrite Hstep. exact Hrange1.
        -- rewrite Hstep. intros _. lia.
        -- rewrite Hstep in Hdone.
           destruct (Hdone Hstill) as (H1 & H2 & H3 & H4 & H5).
           rewrite Htp in H2, H3, H5. rewrite Hta in H4.
           repeat split; assumption.
    + split; [| discriminate]. intros _.
      assert (Hsame : ServoDriver.servo_step now servo = servo).
      { unfold ServoDriver.servo_step. now rewrite Hmov. }
      destruct (IH (now + 1) (ServoDriver.servo_update now st) Hen1) as [Hkeep _].
      * rewrite Hstep, Hsame. exact Hrange.
      * rewrite Hstep, Hsame, Hmov. discriminate.
      * rewrite Hkeep by (rewrite Hstep, Hsame; exact Hmov).
        rewrite Hstep. exact Hsame.
Qed.

(** X21: a moving servo of an enabled controller reaches its target after at
    most as many calls of [servo_update] as it is microseconds away (one
    call when it is already there): it has then stopped on the target
    pulse, its target unchanged, and its current angle is the angle of that
    pulse; later calls leave it there.  A servo that is not moving is never
    touched. *)
Theorem servo_updates_reach_target (is_horizontal : bool) (n : nat) (now : Z)
    (st : ServoDriver.State) :
  ServoDriver.enabled (ServoDriver.servo_controller st) = true ->
  ServoDriver.pulses_in_range (ServoDriver.get_servo is_horizontal st) ->
  ServoDriver.distance (ServoDriver.get_servo is_horizontal st) <= Z.of_nat n ->
  (1 <= n)%nat ->
  let servo := ServoDriver.get_servo is_horizontal st in
  let servo' := ServoDriver.get_servo is_horizontal (ServoDriver.updates n now st) in
  (ServoDriver.moving servo = false -> servo' = servo)
  /\ (ServoDriver.moving servo = true ->
      ServoDriver.moving servo' = false
      /\ ServoDriver.current_pulse servo' = ServoDriver.target_pulse servo
      /\ ServoDriver.target_pulse servo' = ServoDriver.target_pulse servo
      /\ ServoDriver.target_angle servo' = ServoDriver.target_angle servo
      /\ ServoDriver.current_angle servo'
         = ServoDriver.servo_pulse_to_angle (ServoDriver.target_pulse servo)).
Proof.
  intros Hen Hrange Hdist Hn.
  apply (updates_settle is_horizontal n now st Hen Hrange).
  intros _. split; assumption.
Qed.

Lemma servo_updates_reach_target_witness :
  let st := ServoDriver.servo_init (ServoDriver.mkState
              (ServoDriver.mkServoController
                 (ServoDriver.mkServo 0 0 0 0 0 0 false 0)
                 (ServoDriver.mkServo 0 0 0 0 0 0 false 0) false) []) in
  let servo' := ServoDriver.get_servo false (ServoDriver.updates 1500 0 st) in
  ServoDriver.moving servo' = false
  /\ ServoDriver.current_pulse servo' = 1500
  /\ ServoDriver.current_angle servo' = 90.
Proof.
  cbn zeta.
  destruct (servo_updates_reach_target false 1500 0
              (ServoDriver.servo_init (ServoDriver.mkState
                 (ServoDriver.mkServoController
                    (ServoDriver.mkServo 0 0 0 0 0 0 false 0)
                    (ServoDriver.mkServo 0 0 0 0 0 0 false 0) false) [])))
    as (_ & Hmov).
  - reflexivity.
  - vm_compute. repeat split; discriminate.
  - vm_compute. discriminate.
  - lia.
  - destruct (Hmov eq_refl) as (Hstop & Hcp & _ & _ & Hca).
    split; [exact Hstop |]. split; [exact Hcp | exact Hca].
Defined.

(** X22: a servo of an enabled controller that is commanded to an angle and
    then updated often enough stops on the pulse of that angle (of 180
    degrees for any larger angle), and the angle it then reports is the
    commanded one or one degree less, the commanded one exactly when that
    is a multiple of 9. *)
Theorem servo_settles_at_commanded_angle (servo_id angle speed : Z) (n : nat)
    (now : Z) (st : ServoDriver.State) :
  ServoDriver.enabled (ServoDriver.servo_controller st) = true ->
  0 <= angle ->
  0 <= ServoDriver.current_pulse (ServoDriver.get_servo (servo_id =? 1) st) < 65536 ->
  Z.abs (ServoDriver.servo_angle_to_pulse angle
         - ServoDriver.current_pulse (ServoDriver.get_servo (servo_id =? 1) st))
    <= Z.of_nat n ->
  (1 <= n)%nat ->
  let commanded := Z.min angle 180 in
  let servo' :=
    ServoDriver.get_servo (servo_id =? 1)
      (ServoDriver.updates n now
         (ServoDriver.servo_set_angle servo_id angle speed st)) in
  ServoDriver.moving servo' = false
  /\ ServoDriver.target_angle servo' = commanded
  /\ ServoDriver.current_pulse servo' = ServoDriver.servo_angle_to_pulse angle
  /\ commanded - 1 <= ServoDriver.current_angle servo' <= commanded
  /\ (ServoDriver.current_angle servo' = commanded <-> commanded mod 9 = 0).
Proof.
  intros Hen Hangle Hcur Hdist Hn. cbn zeta.
  set (h := servo_id =? 1) in *.
  set (st1 := ServoDriver.servo_set_angle servo_id angle speed st).
  assert (Hclamp : (if angle >? 180 then 180 else angle) = Z.min angle 180).
  { destruct (Z.gtb_spec angle 180); lia. }
  assert (Hpulse : ServoDriver.servo_angle_to_pulse (Z.min angle 180)
                   = ServoDriver.servo_angle_to_pulse angle).
  { rewrite !angle_to_pulse_value by lia. now rewrite Z.min_l by lia. }
  assert (Hen1 : ServoDriver.enabled (ServoDriver.servo_controller st1) = true).
  { subst st1. unfold ServoDriver.servo_set_angle. rewrite Hen. cbn [negb].
    unfold ServoDriver.set_servo. cbn [ServoDriver.servo_controller].
    destruct (servo_id =? 1); cbn [ServoDriver.enabled]; exact Hen. }
  assert (Hservo : ServoDriver.get_servo h st1
                   = ServoDriver.mkServo
                       (ServoDriver.pin (ServoDriver.get_servo h st))
                       (ServoDriver.current_angle (ServoDriver.get_servo h st))
                       (Z.min angle 180)
                       (ServoDriver.current_pulse (ServoDriver.get_servo h st))
                       (ServoDriver.servo_angle_to_pulse angle) speed true
                       (ServoDriver.last_update (ServoDriver.get_servo h st))).
  { subst st1. unfold ServoDriver.servo_set_angle. rewrite Hen. cbn [negb].
    fold h. rewrite Hclamp, Hpulse.
    unfold ServoDriver.set_servo, ServoDriver.get_servo.
    destruct h; reflexivity. }
  assert (Hp : 500 <= ServoDriver.servo_angle_to_pulse angle <= 2500).
  { rewrite angle_to_pulse_value by lia. Z.div_mod_to_equations. lia. }
  destruct (updates_settle h n now st1 Hen1) as (_ & Hmov).
  - rewrite Hservo. unfold ServoDriver.pulses_in_range.
    cbn [ServoDriver.current_pulse ServoDriver.target_pulse]. lia.
  - rewrite Hservo. unfold ServoDriver.distance.
    cbn [ServoDriver.current_pulse ServoDriver.target_pulse]. intros _.
    split; assumption.
  - rewrite Hservo in Hmov.
    cbn [ServoDriver.moving ServoDriver.target_pulse ServoDriver.target_angle] in Hmov.
    destruct (Hmov eq_refl) as (Hstop & Hcp & _ & Hta & Hca).
    rewrite Hca, <- Hpulse.
    destruct (angle_round_trip (Z.min angle 180)) as [Hnear Hexact]; [lia |].
    split; [exact Hstop |]. split; [exact Hta |]. split; [rewrite Hpulse; exact Hcp |].
    split; [exact Hnear | exact Hexact].
Qed.

Lemma servo_settles_at_commanded_angle_witness :
  let st := ServoDriver.servo_init (ServoDriver.mkState
              (ServoDriver.mkServoController
                 (ServoDriver.mkServo 0 0 0 0 0 0 false 0)
                 (ServoDriver.mkServo 0 0 0 0 0 0 false 0) false) []) in
  let servo' :=
    ServoDriver.get_servo true
      (ServoDriver.updates 2000 0 (ServoDriver.servo_set_angle 1 91 255 st)) in
  ServoDriver.target_angle servo' = 91
  /\ ServoDriver.current_pulse servo' = 1511
  /\ 90 <= ServoDriver.current_angle servo' <= 91
  /\ (ServoDriver.current_angle servo' = 91 <-> 91 mod 9 = 0).
Proof.
  cbn zeta.
  destruct (servo_settles_at_commanded_angle 1 91 255 2000 0
              (ServoDriver.servo_init (ServoDriver.mkState
                 (ServoDriver.mkServoController
                    (ServoDriver.mkServo 0 0 0 0 0 0 false 0)
                    (ServoDriver.mkServo 0 0 0 0 0 0 false 0) false) [])))
    as (_ & Hta & Hcp & Hnear & Hexact).
  - reflexivity.
  - lia.
  - vm_compute. split; [discriminate | reflexivity].
  - vm_compute. discriminate.
  - lia.
  - split; [exact Hta |]. split; [exact Hcp |]. split; [exact Hnear | exact Hexact].
Defined.

(** * led_matrix.c: pixels, eyes and what is put on the wire *)

Lemma nth_insert_same (l : list Z) (i : nat) (v d : Z) :
  (i < length l)%nat -> nth i (<[i := v]> l) d = v.
Proof.
  intros Hi. rewrite nth_lookup, list_lookup_insert_eq by exact Hi. reflexivity.
Qed.

Lemma nth_insert_other (l : list Z) (i j : nat) (v d : Z) :
  i <> j -> nth j (<[i := v]> l) d = nth j l d.
Proof.
  intros Hne. rewrite !nth_lookup, list_lookup_insert_ne by exact Hne. reflexivity.
Qed.

Lemma set_pixel_outside (x y r g b : Z) (m : LedMatrixDriver.LedMatrix) :
  8 <= x \/ 8 <= y -> LedMatrixDriver.led_matrix_set_pixel x y r g b m = m.
Proof.
  intros Hout. unfold LedMatrixDriver.led_matrix_set_pixel, LedMatrixDriver.MATRIX_SIZE.
  destruct (Z.geb_spec x 8), (Z.geb_spec y 8); try reflexivity. lia.
Qed.

Lemma set_pixel_inside (x y r g b : Z) (m : LedMatrixDriver.LedMatrix) :
  0 <= x < 8 -> 0 <= y < 8 ->
  length (LedMatrixDriver.matrix m) = 192%nat ->
  let m' := LedMatrixDriver.led_matrix_set_pixel x y r g b m in
  length (LedMatrixDriver.matrix m') = 192%nat
  /\ LedMatrixDriver.brightness m' = LedMatrixDriver.brightness m
  /\ LedMatrixDriver.last_update m' = LedMatrixDriver.last_update m
  /\ LedMatrixDriver.animating m' = LedMatrixDriver.animating m
  /\ LedMatrixDriver.animation_frame m' = LedMatrixDriver.animation_frame m
  /\ LedMatrixDriver.led_matrix_get_pixel x y m'
     = Some (LedMatrixDriver.scaled r m, LedMatrixDriver.scaled g m,
             LedMatrixDriver.scaled b m)
  /\ (forall x' y', 0 <= x' < 8 -> 0 <= y' < 8 -> (x', y') <> (x, y) ->
      LedMatrixDriver.led_matrix_get_pixel x' y' m'
      = LedMatrixDriver.led_matrix_get_pixel x' y' m).
Proof.
  intros Hx Hy Hlen. cbn zeta.
  unfold LedMatrixDriver.led_matrix_set_pixel, LedMatrixDriver.led_matrix_get_pixel,
    LedMatrixDriver.MATRIX_SIZE, LedMatrixDriver.scaled, LedMatrixDriver.set_matrix.
  destruct (Z.geb_spec x 8); [lia |]. destruct (Z.geb_spec y 8); [lia |].
  cbn [orb LedMatrixDriver.matrix LedMatrixDriver.brightness
       LedMatrixDriver.last_update LedMatrixDriver.animating
       LedMatrixDriver.animation_frame].
  assert (Ho : forall c, 0 <= c < 3 ->
               (LedMatrixDriver.offset x y c < 192)%nat)
    by (intros c Hc; unfold LedMatrixDriver.offset; lia).
  rewrite !length_insert.
  split; [exact Hlen |]. do 4 (split; [reflexivity |]). split.
  - f_equal. f_equal; [f_equal |].
    + rewrite nth_insert_other by (unfold LedMatrixDriver.offset; lia).
      rewrite nth_insert_other by (unfold LedMatrixDriver.offset; lia).
      apply nth_insert_same. rewrite Hlen. apply Ho. lia.
    + rewrite nth_insert_other by (unfold LedMatrixDriver.offset; lia).
      apply nth_insert_same. rewrite length_insert, Hlen. apply Ho. lia.
    + apply nth_insert_same. rewrite !length_insert, Hlen. apply Ho. lia.
  - intros x' y' Hx' Hy' Hne.
    destruct (Z.geb_spec x' 8); [lia |]. destruct (Z.geb_spec y' 8); [lia |].
    cbn [orb].
    assert (Hdiff : x' <> x \/ y' <> y).
    { destruct (Z.eq_dec x' x) as [-> |]; [| now left].
      destruct (Z.eq_dec y' y) as [-> |]; [| now right]. now contradiction Hne. }
    rewrite !nth_insert_other by (unfold LedMatrixDriver.offset; lia).
    reflexivity.
Qed.

(** X23: [led_matrix_set_pixel] with a coordinate of 8 or more changes
    nothing, and [led_matrix_get_pixel] then stores nothing; inside the
    matrix the pixel reads back as the colour scaled by the brightness, the
    colour itself at full brightness, every other pixel reads as before and
    the array keeps its 192 bytes. *)
Theorem set_pixel_then_get_pixel (x y r g b : Z) (m : LedMatrixDriver.LedMatrix) :
  0 <= x -> 0 <= y ->
  length (LedMatrixDriver.matrix m) = 192%nat ->
  let m' := LedMatrixDriver.led_matrix_set_pixel x y r g b m in
  length (LedMatrixDriver.matrix m') = 192%nat
  /\ (8 <= x \/ 8 <= y ->
      m' = m /\ LedMatrixDriver.led_matrix_get_pixel x y m' = None)
  /\ (x < 8 -> y < 8 ->
      LedMatrixDriver.led_matrix_get_pixel x y m'
      = Some (LedMatrixDriver.scaled r m, LedMatrixDriver.scaled g m,
              LedMatrixDriver.scaled b m)
      /\ (LedMatrixDriver.brightness m = 255 ->
          is_uint8 r -> is_uint8 g -> is_uint8 b ->
          LedMatrixDriver.led_matrix_get_pixel x y m' = Some (r, g, b))
      /\ (forall x' y', 0 <= x' < 8 -> 0 <= y' < 8 -> (x', y') <> (x, y) ->
          LedMatrixDriver.led_matrix_get_pixel x' y' m'
          = LedMatrixDriver.led_matrix_get_pixel x' y' m)).
Proof.
  intros Hx Hy Hlen. cbn zeta.
  destruct (Z.le_gt_cases 8 x) as [Hbig | Hsmall].
  { rewrite set_pixel_outside by lia. split; [exact Hlen |]. split; [| lia].
    intros _. split; [reflexivity |].
    unfold LedMatrixDriver.led_matrix_get_pixel, LedMatrixDriver.MATRIX_SIZE.
    destruct (Z.geb_spec x 8); [reflexivity | lia]. }
  destruct (Z.le_gt_cases 8 y) as [Hbig | Hsmall'].
  { rewrite set_pixel_outside by lia. split; [exact Hlen |]. split; [| lia].
    intros _. split; [reflexivity |].
    unfold LedMatrixDriver.led_matrix_get_pixel, LedMatrixDriver.MATRIX_SIZE.
    destruct (Z.geb_spec y 8); [| lia]. now rewrite orb_true_r. }
  destruct (set_pixel_inside x y r g b m ltac:(lia) ltac:(lia) Hlen)
    as (Hlen' & _ & _ & _ & _ & Hget & Hother).
  split; [exact Hlen' |]. split; [lia |]. intros _ _.
  split; [exact Hget |]. split; [| exact Hother].
  intros Hfull Hr Hg Hb. rewrite Hget. unfold LedMatrixDriver.scaled, uint8.
  rewrite Hfull. unfold is_uint8 in *.
  rewrite !Z.quot_div_nonneg, !Z.div_mul, !Z.mod_small by lia. reflexivity.
Qed.

Lemma set_pixel_then_get_pixel_witness :
  let m := LedMatrixDriver.led_matrix
             (LedMatrixDriver.led_matrix_init
                (LedMatrixDriver.mkState
                   (LedMatrixDriver.mkLedMatrix [] 0 0 false 0) [])) in
  LedMatrixDriver.led_matrix_get_pixel 3 4
    (LedMatrixDriver.led_matrix_set_pixel 3 4 10 20 30 m) = Some (10, 20, 30)
  /\ LedMatrixDriver.led_matrix_set_pixel 8 4 10 20 30 m = m.
Proof.
  cbn zeta.
  destruct (set_pixel_then_get_pixel 3 4 10 20 30
              (LedMatrixDriver.led_matrix
                 (LedMatrixDriver.led_matrix_init
                    (LedMatrixDriver.mkState
                       (LedMatrixDriver.mkLedMatrix [] 0 0 false 0) []))))
    as (_ & _ & Hin); [lia | lia | reflexivity |].
  destruct (Hin ltac:(lia) ltac:(lia)) as (_ & Hfull & _).
  split.
  - apply Hfull; [reflexivity | | |]; unfold is_uint8; lia.
  - reflexivity.
Defined.

Lemma In_int_range (lo hi v : Z) :
  In v (LedMatrixDriver.int_range lo hi) <-> lo <= v <= hi.
Proof.
  unfold LedMatrixDriver.int_range. rewrite in_map_iff. split.
  - intros (k & <- & Hk). apply in_seq in Hk. lia.
  - intros Hv. exists (Z.to_nat (v - lo)). split; [lia |]. apply in_seq. lia.
Qed.

Lemma scaled_colour_settings (r g b : Z) (m m' : LedMatrixDriver.LedMatrix) :
  same_settings m m' -> scaled_colour r g b m' = scaled_colour r g b m.
Proof.
  intros (Hb & _). unfold scaled_colour, LedMatrixDriver.scaled. now rewrite Hb.
Qed.

(** The effect of one round of the inner loop of [led_matrix_draw_eye]. *)
Lemma eye_step (cx cy radius r g b x y : Z) (m : LedMatrixDriver.LedMatrix) :
  length (LedMatrixDriver.matrix m) = 192%nat ->
  let m' :=
    if (x >=? 0) && (x <? LedMatrixDriver.MATRIX_SIZE) && (y >=? 0)
       && (y <? LedMatrixDriver.MATRIX_SIZE)
    then
      if (x - cx) * (x - cx) + (y - cy) * (y - cy) <=? radius * radius
      then LedMatrixDriver.led_matrix_set_pixel (uint8 x) (uint8 y) r g b m
      else m
    else m in
  length (LedMatrixDriver.matrix m') = 192%nat
  /\ same_settings m m'
  /\ forall px py, 0 <= px < 8 -> 0 <= py < 8 ->
       LedMatrixDriver.led_matrix_get_pixel px py m'
       = if (px =? x) && ((py =? y) && eye_hit cx cy radius x y)
         then scaled_colour r g b m
         else LedMatrixDriver.led_matrix_get_pixel px py m.
Proof.
  intros Hlen. cbn zeta. unfold eye_hit, LedMatrixDriver.MATRIX_SIZE.
  destruct ((x >=? 0) && (x <? 8) && (y >=? 0) && (y <? 8)) eqn:Hin;
    cbn [andb].
  2:{ split; [exact Hlen |]. split; [repeat split |].
      intros px py _ _. now rewrite !andb_false_r. }
  destruct ((x - cx) * (x - cx) + (y - cy) * (y - cy) <=? radius * radius);
    cbn [andb].
  2:{ split; [exact Hlen |]. split; [repeat split |].
      intros px py _ _. now rewrite !andb_false_r. }
  assert (Hx : 0 <= x < 8 /\ 0 <= y < 8).
  { apply andb_prop in Hin. destruct Hin as [Hin Hy2].
    apply andb_prop in Hin. destruct Hin as [Hin Hy1].
    apply andb_prop in Hin. destruct Hin as [Hx1 Hx2]. lia. }
  destruct Hx as [Hx Hy].
  assert (Hux : uint8 x = x) by (apply Z.mod_small; lia).
  assert (Huy : uint8 y = y) by (apply Z.mod_small; lia).
  rewrite Hux, Huy.
  destruct (set_pixel_inside x y r g b m Hx Hy Hlen)
    as (Hlen' & Hb & Hl & Ha & Hf & Hget & Hother).
  split; [exact Hlen' |]. split; [repeat split; assumption |].
  intros px py Hpx Hpy. rewrite andb_true_r.
  destruct (Z.eqb_spec px x) as [-> | Hnx]; cbn [andb].
  - destruct (Z.eqb_spec py y) as [-> | Hny].
    + exact Hget.
    + apply Hother; try assumption. intros Heq. injection Heq as Heq. contradiction.
  - apply Hother; try assumption. intros Heq. injection Heq as Heq _. contradiction.
Qed.

Lemma same_settings_trans (m1 m2 m3 : LedMatrixDriver.LedMatrix) :
  same_settings m1 m2 -> same_settings m2 m3 -> same_settings m1 m3.
Proof.
  unfold same_settings. intros (H1 & H2 & H3 & H4) (H5 & H6 & H7 & H8).
  repeat split; congruence.
Qed.

(** The effect of the inner loop, for a fixed [x]. *)
Lemma eye_row (cx cy radius r g b x : Z) (ys : list Z) :
  forall m,
    length (LedMatrixDriver.matrix m) = 192%nat ->
    let m' :=
      fold_left
        (fun m y =>
           if (x >=? 0) && (x <? LedMatrixDriver.MATRIX_SIZE) && (y >=? 0)
              && (y <? LedMatrixDriver.MATRIX_SIZE)
           then
             if (x - cx) * (x - cx) + (y - cy) * (y - cy) <=? radius * radius
             then LedMatrixDriver.led_matrix_set_pixel (uint8 x) (uint8 y) r g b m
             else m
           else m) ys m in
    length (LedMatrixDriver.matrix m') = 192%nat
    /\ same_settings m m'
    /\ forall px py, 0 <= px < 8 -> 0 <= py < 8 ->
         LedMatrixDriver.led_matrix_get_pixel px py m'
         = if (px =? x)
              && existsb (fun y => (py =? y) && eye_hit cx cy radius x y) ys
           then scaled_colour r g b m
           else LedMatrixDriver.led_matrix_get_pixel px py m.
Proof.
  induction ys as [| y ys IH]; intros m Hlen; cbn zeta.
  - cbn [fold_left existsb]. split; [exact Hlen |]. split; [repeat split |].
    intros px py _ _. now rewrite andb_false_r.
  - cbn [fold_left existsb].
    destruct (eye_step cx cy radius r g b x y m Hlen) as (Hlen1 & Hset1 & Hget1).
    destruct (IH _ Hlen1) as (Hlen2 & Hset2 & Hget2).
    split; [exact Hlen2 |].
    split; [exact (same_settings_trans _ _ _ Hset1 Hset2) |].
    intros px py Hpx Hpy. rewrite (Hget2 px py Hpx Hpy), (Hget1 px py Hpx Hpy).
    rewrite (scaled_colour_settings r g b m _ Hset1).
    destruct (px =? x); cbn [andb]; [| reflexivity].
    destruct (existsb _ ys); [now rewrite orb_true_r |].
    now rewrite orb_false_r.
Qed.

(** The effect of the two loops. *)
Lemma eye_rows (cx cy radius r g b : Z) (ys xs : list Z) :
  forall m,
    length (LedMatrixDriver.matrix m) = 192%nat ->
    let m' :=
      fold_left
        (fun m x =>
           fold_left
             (fun m y =>
                if (x >=? 0) && (x <? LedMatrixDriver.MATRIX_SIZE) && (y >=? 0)
                   && (y <? LedMatrixDriver.MATRIX_SIZE)
                then
                  if (x - cx) * (x - cx) + (y - cy) * (y - cy) <=? radius * radius
                  then LedMatrixDriver.led_matrix_set_pixel (uint8 x) (uint8 y) r g b m
                  else m
                else m) ys m) xs m in
    length (LedMatrixDriver.matrix m') = 192%nat
    /\ same_settings m m'
    /\ forall px py, 0 <= px < 8 -> 0 <= py < 8 ->
         LedMatrixDriver.led_matrix_get_pixel px py m'
         = if eye_covers cx cy radius xs ys px py
           then scaled_colour r g b m
           else LedMatrixDriver.led_matrix_get_pixel px py m.
Proof.
  induction xs as [| x xs IH]; intros m Hlen; cbn zeta.
  - cbn [fold_left]. split; [exact Hlen |]. split; [repeat split |].
    intros px py _ _. reflexivity.
  - cbn [fold_left]. unfold eye_covers. cbn [existsb].
    destruct (eye_row cx cy radius r g b x ys m Hlen) as (Hlen1 & Hset1 & Hget1).
    destruct (IH _ Hlen1) as (Hlen2 & Hset2 & Hget2).
    split; [exact Hlen2 |].
    split; [exact (same_settings_trans _ _ _ Hset1 Hset2) |].
    intros px py Hpx Hpy. rewrite (Hget2 px py Hpx Hpy), (Hget1 px py Hpx Hpy).
    rewrite (scaled_colour_settings r g b m _ Hset1).
    unfold eye_covers.
    destruct (existsb _ xs); [now rewrite orb_true_r |].
    now rewrite orb_false_r.
Qed.

Lemma disc_is_in_square (a b r : Z) :
  0 <= r -> a * a + b * b <= r * r -> - r <= a <= r.
Proof.
  intros Hr Hin.
  assert (Hb : 0 <= b * b) by apply Z.square_nonneg.
  destruct (Z.le_gt_cases (Z.abs a) r) as [Hle | Hgt]; [lia |].
  assert (Hsq : r * r < Z.abs a * Z.abs a)
    by (apply Z.mul_lt_mono_nonneg; lia).
  assert (Habs : Z.abs a * Z.abs a = a * a) by (destruct (Z.abs_spec a); nia).
  lia.
Qed.

Lemma eye_covers_disc (cx cy radius px py : Z) :
  0 <= radius -> 0 <= px < 8 -> 0 <= py < 8 ->
  eye_covers cx cy radius
    (LedMatrixDriver.int_range (cx - radius) (cx + radius))
    (LedMatrixDriver.int_range (cy - radius) (cy + radius)) px py
  = in_disc cx cy radius px py.
Proof.
  intros Hr Hpx Hpy. unfold in_disc.
  destruct (Z.leb_spec ((px - cx) * (px - cx) + (py - cy) * (py - cy))
              (radius * radius)) as [Hin | Hout].
  - unfold eye_covers. apply existsb_exists. exists px. split.
    + apply In_int_range.
      pose proof (disc_is_in_square (px - cx) (py - cy) radius Hr Hin). lia.
    + rewrite Z.eqb_refl. cbn [andb]. apply existsb_exists. exists py. split.
      * apply In_int_range.
        pose proof (disc_is_in_square (py - cy) (px - cx) radius Hr
                      ltac:(lia)). lia.
      * rewrite Z.eqb_refl. unfold eye_hit.
        destruct (Z.geb_spec px 0), (Z.ltb_spec px 8), (Z.geb_spec py 0),
          (Z.ltb_spec py 8); try lia;
          cbn [andb]; apply Z.leb_le; exact Hin.
  - apply not_true_is_false. intros Hcov. unfold eye_covers in Hcov.
    apply existsb_exists in Hcov. destruct Hcov as (x & _ & Hx).
    apply andb_prop in Hx. destruct Hx as [Hxe Hys].
    apply Z.eqb_eq in Hxe. subst x.
    apply existsb_exists in Hys. destruct Hys as (y & _ & Hy).
    apply andb_prop in Hy. destruct Hy as [Hye Hhit].
    apply Z.eqb_eq in Hye. subst y.
    unfold eye_hit in Hhit. apply andb_prop in Hhit. destruct Hhit as [_ Hle].
    apply Z.leb_le in Hle. lia.
Qed.

Lemma draw_eye_effect (cx cy radius r g b : Z) (m : LedMatrixDriver.LedMatrix) :
  0 <= radius ->
  length (LedMatrixDriver.matrix m) = 192%nat ->
  let m' := LedMatrixDriver.led_matrix_draw_eye cx cy radius r g b m in
  length (LedMatrixDriver.matrix m') = 192%nat
  /\ same_settings m m'
  /\ forall px py, 0 <= px < 8 -> 0 <= py < 8 ->
       LedMatrixDriver.led_matrix_get_pixel px py m'
       = if in_disc cx cy radius px py
         then scaled_colour r g b m
         else LedMatrixDriver.led_matrix_get_pixel px py m.
Proof.
  intros Hr Hlen. cbn zeta. unfold LedMatrixDriver.led_matrix_draw_eye.
  destruct (eye_rows cx cy radius r g b
              (LedMatrixDriver.int_range (cy - radius) (cy + radius))
              (LedMatrixDriver.int_range (cx - radius) (cx + radius)) m Hlen)
    as (Hlen' & Hset & Hget).
  split; [exact Hlen' |]. split; [exact Hset |].
  intros px py Hpx Hpy. rewrite (Hget px py Hpx Hpy).
  now rewrite eye_covers_disc by assumption.
Qed.

(** X24: [led_matrix_draw_eye] with a radius that is not negative paints
    exactly the pixels of the matrix that lie in the disc around the centre:
    each of them reads back as the colour scaled by the brightness, every
    other pixel reads as before; the array keeps its 192 bytes, so nothing
    is written outside it, and the brightness is untouched.  The bounds on
    centre and radius keep the [int] arithmetic of the loops in range. *)
Theorem draw_eye_paints_the_disc (cx cy radius r g b : Z)
    (m : LedMatrixDriver.LedMatrix) :
  -10000 <= cx <= 10000 -> -10000 <= cy <= 10000 -> 0 <= radius <= 10000 ->
  length (LedMatrixDriver.matrix m) = 192%nat ->
  let m' := LedMatrixDriver.led_matrix_draw_eye cx cy radius r g b m in
  length (LedMatrixDriver.matrix m') = 192%nat
  /\ LedMatrixDriver.brightness m' = LedMatrixDriver.brightness m
  /\ forall px py, 0 <= px < 8 -> 0 <= py < 8 ->
       LedMatrixDriver.led_matrix_get_pixel px py m'
       = if (px - cx) * (px - cx) + (py - cy) * (py - cy) <=? radius * radius
         then Some (LedMatrixDriver.scaled r m, LedMatrixDriver.scaled g m,
                    LedMatrixDriver.scaled b m)
         else LedMatrixDriver.led_matrix_get_pixel px py m.
Proof.
  intros _ _ Hr Hlen.
  destruct (draw_eye_effect cx cy radius r g b m ltac:(lia) Hlen)
    as (Hlen' & (Hb & _) & Hget).
  split; [exact Hlen' |]. split; [exact Hb | exact Hget].
Qed.

Lemma draw_eye_paints_the_disc_witness :
  let m := LedMatrixDriver.led_matrix
             (LedMatrixDriver.led_matrix_init
                (LedMatrixDriver.mkState
                   (LedMatrixDriver.mkLedMatrix [] 0 0 false 0) [])) in
  let m' := LedMatrixDriver.led_matrix_draw_eye 2 4 2 0 255 0 m in
  LedMatrixDriver.led_matrix_get_pixel 0 4 m' = Some (0, 255, 0)
  /\ LedMatrixDriver.led_matrix_get_pixel 0 3 m' = Some (0, 0, 0).
Proof.
  cbn zeta.
  destruct (draw_eye_paints_the_disc 2 4 2 0 255 0
              (LedMatrixDriver.led_matrix
                 (LedMatrixDriver.led_matrix_init
                    (LedMatrixDriver.mkState
                       (LedMatrixDriver.mkLedMatrix [] 0 0 false 0) []))))
    as (_ & _ & Hget); [lia | lia | lia | reflexivity |].
  split.
  - rewrite (Hget 0 4) by lia. reflexivity.
  - rewrite (Hget 0 3) by lia. reflexivity.
Defined.

Lemma nth_replicate_zero (n i : nat) : nth i (replicate n 0) 0 = 0.
Proof.
  revert i. induction n as [| n IH]; intros [| i]; cbn; try reflexivity. apply IH.
Qed.

Lemma get_pixel_clear (px py : Z) (m : LedMatrixDriver.LedMatrix) :
  0 <= px < 8 -> 0 <= py < 8 ->
  LedMatrixDriver.led_matrix_get_pixel px py (LedMatrixDriver.led_matrix_clear m)
  = Some (0, 0, 0).
Proof.
  intros Hpx Hpy.
  unfold LedMatrixDriver.led_matrix_get_pixel, LedMatrixDriver.led_matrix_clear,
    LedMatrixDriver.set_matrix, LedMatrixDriver.MATRIX_SIZE.
  destruct (Z.geb_spec px 8); [lia |]. destruct (Z.geb_spec py 8); [lia |].
  cbn [orb LedMatrixDriver.matrix]. now rewrite !nth_replicate_zero.
Qed.

Lemma clear_same_settings (m m' : LedMatrixDriver.LedMatrix) :
  same_settings m m' ->
  LedMatrixDriver.led_matrix_clear m' = LedMatrixDriver.led_matrix_clear m.
Proof.
  intros (H1 & H2 & H3 & H4).
  unfold LedMatrixDriver.led_matrix_clear, LedMatrixDriver.set_matrix.
  now rewrite H1, H2, H3, H4.
Qed.

(** The matrix [led_matrix_set_expression] leaves. *)
Lemma set_expression_matrix (e : Z) (st : LedMatrixDriver.State) :
  let row := fst (LedMatrixDriver.expression_eyes e) in
  let colour := snd (LedMatrixDriver.expression_eyes e) in
  LedMatrixDriver.led_matrix (LedMatrixDriver.led_matrix_set_expression e st)
  = LedMatrixDriver.led_matrix_draw_eye 5 row 2
      (fst (fst colour)) (snd (fst colour)) (snd colour)
      (LedMatrixDriver.led_matrix_draw_eye 2 row 2
         (fst (fst colour)) (snd (fst colour)) (snd colour)
         (LedMatrixDriver.led_matrix_clear (LedMatrixDriver.led_matrix st))).
Proof.
  cbn zeta. unfold LedMatrixDriver.led_matrix_set_expression.
  destruct (LedMatrixDriver.expression_eyes e) as [row [[r g] b]].
  reflexivity.
Qed.

(** X25: [led_matrix_set_expression] shows the two eyes of the expression
    and nothing else, whatever the matrix held before: a pixel in the disc
    of radius 2 around column 2 or column 5 of the expression's row reads
    back as the expression's colour scaled by the brightness, every other
    pixel as black.  Setting an expression after another one leaves the
    matrix that setting it alone leaves. *)
Theorem set_expression_shows_two_eyes (e e' : Z) (st : LedMatrixDriver.State) :
  let m := LedMatrixDriver.led_matrix st in
  let m' := LedMatrixDriver.led_matrix
              (LedMatrixDriver.led_matrix_set_expression e st) in
  let colour := snd (LedMatrixDriver.expression_eyes e) in
  length (LedMatrixDriver.matrix m') = 192%nat
  /\ LedMatrixDriver.brightness m' = LedMatrixDriver.brightness m
  /\ (forall px py, 0 <= px < 8 -> 0 <= py < 8 ->
      LedMatrixDriver.led_matrix_get_pixel px py m'
      = if in_eyes e px py
        then Some (LedMatrixDriver.scaled (fst (fst colour)) m,
                   LedMatrixDriver.scaled (snd (fst colour)) m,
                   LedMatrixDriver.scaled (snd colour) m)
        else Some (0, 0, 0))
  /\ LedMatrixDriver.led_matrix
       (LedMatrixDriver.led_matrix_set_expression e
          (LedMatrixDriver.led_matrix_set_expression e' st))
     = m'.
Proof.
  cbn zeta.
  assert (Hpicture : forall e st,
            let m := LedMatrixDriver.led_matrix st in
            let m' := LedMatrixDriver.led_matrix
                        (LedMatrixDriver.led_matrix_set_expression e st) in
            let colour := snd (LedMatrixDriver.expression_eyes e) in
            length (LedMatrixDriver.matrix m') = 192%nat
            /\ same_settings m m'
            /\ (forall px py, 0 <= px < 8 -> 0 <= py < 8 ->
                LedMatrixDriver.led_matrix_get_pixel px py m'
                = if in_eyes e px py
                  then scaled_colour (fst (fst colour)) (snd (fst colour))
                         (snd colour) m
                  else Some (0, 0, 0))).
  { clear. intros e st. cbn zeta. rewrite set_expression_matrix. cbn zeta.
    set (row := fst (LedMatrixDriver.expression_eyes e)).
    set (colour := snd (LedMatrixDriver.expression_eyes e)).
    set (m0 := LedMatrixDriver.led_matrix_clear (LedMatrixDriver.led_matrix st)).
    assert (Hset0 : same_settings (LedMatrixDriver.led_matrix st) m0)
      by (repeat split).
    assert (Hlen0 : length (LedMatrixDriver.matrix m0) = 192%nat) by reflexivity.
    destruct (draw_eye_effect 2 row 2 (fst (fst colour)) (snd (fst colour))
                (snd colour) m0 ltac:(lia) Hlen0) as (Hlen1 & Hset1 & Hget1).
    destruct (draw_eye_effect 5 row 2 (fst (fst colour)) (snd (fst colour))
                (snd colour) _ ltac:(lia) Hlen1) as (Hlen2 & Hset2 & Hget2).
    split; [exact Hlen2 |].
    split; [exact (same_settings_trans _ _ _ Hset0
                     (same_settings_trans _ _ _ Hset1 Hset2)) |].
    intros px py Hpx Hpy.
    rewrite (Hget2 px py Hpx Hpy), (Hget1 px py Hpx Hpy).
    rewrite (scaled_colour_settings _ _ _ m0 _ Hset1).
    rewrite (scaled_colour_settings _ _ _ _ m0 Hset0).
    unfold m0. rewrite (get_pixel_clear px py _ Hpx Hpy).
    unfold in_eyes. fold row.
    destruct (in_disc 5 row 2 px py); [now rewrite orb_true_r |].
    now rewrite orb_false_r. }
  destruct (Hpicture e st) as (Hlen & (Hb & _) & Hget). cbn zeta in *.
  split; [exact Hlen |]. split; [exact Hb |]. split; [exact Hget |].
  destruct (Hpicture e' st) as (_ & Hset' & _). cbn zeta in Hset'.
  rewrite (set_expression_matrix e (LedMatrixDriver.led_matrix_set_expression e' st)).
  rewrite (set_expression_matrix e st). cbn zeta.
  rewrite (clear_same_settings _ _ Hset'). reflexivity.
Qed.

(** ** The transmission *)

Lemma byte_items_round_trip (byte : Z) :
  is_uint8 byte ->
  LedMatrixDriver.byte_of_items (LedMatrixDriver.ws2812_byte_items byte) = byte.
Proof.
  intros Hb.
  assert (Hall : forallb
                   (fun b => LedMatrixDriver.byte_of_items
                               (LedMatrixDriver.ws2812_byte_items b) =? b)
                   byte_values = true) by (vm_compute; reflexivity).
  rewrite forallb_forall in Hall.
  apply Z.eqb_eq, Hall, In_byte_values. exact Hb.
Qed.

Lemma items_round_trip (bytes : list Z) :
  Forall is_uint8 bytes ->
  LedMatrixDriver.bytes_of_items (length bytes)
    (flat_map LedMatrixDriver.ws2812_byte_items bytes) = bytes
  /\ length (flat_map LedMatrixDriver.ws2812_byte_items bytes)
     = (8 * length bytes)%nat.
Proof.
  induction 1 as [| b rest Hb Hrest [IH1 IH2]]; [split; reflexivity |].
  cbn [flat_map length LedMatrixDriver.bytes_of_items].
  rewrite take_app_length' by reflexivity.
  rewrite drop_app_length' by reflexivity.
  rewrite byte_items_round_trip by exact Hb. rewrite IH1. split; [reflexivity |].
  rewrite length_app, IH2. cbn [LedMatrixDriver.ws2812_byte_items map length]. lia.
Qed.



Lemma grb_bytes_offsets (m : LedMatrixDriver.LedMatrix) :
  LedMatrixDriver.grb_bytes m
  = map (fun k => nth k (LedMatrixDriver.matrix m) 0) grb_offsets.
Proof. reflexivity. Qed.

Lemma grb_offsets_prefix (k : nat) :
  In k (take 64 grb_offsets) -> (k < 66)%nat.
Proof.
  assert (Hall : forallb (fun k => k <? 66)%nat (take 64 grb_offsets) = true)
    by (vm_compute; reflexivity).
  rewrite forallb_forall in Hall. intros Hin. apply Nat.ltb_lt, Hall, Hin.
Qed.

Lemma nth_is_uint8 (l : list Z) (k : nat) :
  Forall is_uint8 l -> is_uint8 (nth k l 0).
Proof.
  intros Hl. revert k.
  induction Hl as [| x l Hx Hl IH]; intros [| k]; cbn;
    try (unfold is_uint8; lia); [exact Hx | apply IH].
Qed.

Lemma grb_bytes_are_bytes (m : LedMatrixDriver.LedMatrix) :
  Forall is_uint8 (LedMatrixDriver.matrix m) ->
  Forall is_uint8 (LedMatrixDriver.grb_bytes m)
  /\ length (LedMatrixDriver.grb_bytes m) = 192%nat.
Proof.
  intros Hm. split; [| reflexivity].
  rewrite grb_bytes_offsets. apply List.Forall_forall. intros v Hin.
  apply in_map_iff in Hin. destruct Hin as (k & <- & _).
  apply nth_is_uint8, Hm.
Qed.

Lemma grb_prefix_after_set_pixel (x y r g b : Z) (m : LedMatrixDriver.LedMatrix) :
  0 <= x < 8 -> 0 <= y < 8 -> 22 <= 8 * x + y ->
  take 64 (LedMatrixDriver.grb_bytes (LedMatrixDriver.led_matrix_set_pixel x y r g b m))
  = take 64 (LedMatrixDriver.grb_bytes m).
Proof.
  intros Hx Hy Hfar. rewrite !grb_bytes_offsets, !firstn_map.
  apply map_ext_in. intros k Hk. apply grb_offsets_prefix in Hk.
  unfold LedMatrixDriver.led_matrix_set_pixel, LedMatrixDriver.MATRIX_SIZE,
    LedMatrixDriver.set_matrix.
  destruct (Z.geb_spec x 8); [lia |]. destruct (Z.geb_spec y 8); [lia |].
  cbn [orb LedMatrixDriver.matrix].
  rewrite !nth_insert_other by (unfold LedMatrixDriver.offset; lia).
  reflexivity.
Qed.

(** X27: [led_matrix_update] collects the 192 colour bytes of the matrix but
    passes the pixel count 64 to [ws2812_write_pixels], whose loop runs over
    bytes: 512 items go to the RMT and they stand for the first 64 of the
    192 bytes only.  So a pixel [(x, y)] with [22 <= 8 * x + y] never
    reaches the wire: setting it to any colour leaves the transmission as it
    was. *)
Theorem update_transmits_the_first_64_bytes (st : LedMatrixDriver.State) :
  LedMatrixDriver.well_formed (LedMatrixDriver.led_matrix st) ->
  exists items,
    LedMatrixDriver.led_matrix_update st
    = LedMatrixDriver.mkState (LedMatrixDriver.led_matrix st)
        (LedMatrixDriver.rmt_writes st ++ [items])
    /\ length items = 512%nat
    /\ length (LedMatrixDriver.grb_bytes (LedMatrixDriver.led_matrix st)) = 192%nat
    /\ LedMatrixDriver.bytes_of_items 64 items
       = take 64 (LedMatrixDriver.grb_bytes (LedMatrixDriver.led_matrix st))
    /\ forall x y r g b, 0 <= x < 8 -> 0 <= y < 8 -> 22 <= 8 * x + y ->
         LedMatrixDriver.rmt_writes
           (LedMatrixDriver.led_matrix_update
              (LedMatrixDriver.set_led_matrix
                 (LedMatrixDriver.led_matrix_set_pixel x y r g b
                    (LedMatrixDriver.led_matrix st)) st))
         = LedMatrixDriver.rmt_writes st ++ [items].
Proof.
  intros [Hlen Hbytes].
  destruct (grb_bytes_are_bytes _ Hbytes) as [Hgrb Hgrblen].
  assert (Htake : Forall is_uint8
                    (take 64 (LedMatrixDriver.grb_bytes (LedMatrixDriver.led_matrix st))))
    by (apply Forall_take; exact Hgrb).
  destruct (items_round_trip _ Htake) as [Hback Hitems].
  rewrite length_take_le in Hback, Hitems by (rewrite Hgrblen; lia).
  eexists. split; [reflexivity |].
  change (Z.to_nat (LedMatrixDriver.MATRIX_SIZE * LedMatrixDriver.MATRIX_SIZE))
    with 64%nat.
  split; [exact Hitems |]. split; [exact Hgrblen |]. split; [exact Hback |].
  intros x y r g b Hx Hy Hfar.
  unfold LedMatrixDriver.led_matrix_update, LedMatrixDriver.ws2812_write_pixels,
    LedMatrixDriver.set_led_matrix.
  cbn [LedMatrixDriver.led_matrix LedMatrixDriver.rmt_writes].
  change (Z.to_nat (LedMatrixDriver.MATRIX_SIZE * LedMatrixDriver.MATRIX_SIZE))
    with 64%nat.
  rewrite (grb_prefix_after_set_pixel x y r g b _ Hx Hy Hfar). reflexivity.
Qed.

Lemma update_transmits_the_first_64_bytes_witness :
  exists items,
    LedMatrixDriver.rmt_writes
      (LedMatrixDriver.led_matrix_update
         (LedMatrixDriver.led_matrix_init
            (LedMatrixDriver.mkState (LedMatrixDriver.mkLedMatrix [] 0 0 false 0) [])))
    = [items]
    /\ length items = 512%nat
    /\ LedMatrixDriver.rmt_writes
         (LedMatrixDriver.led_matrix_update
            (LedMatrixDriver.set_led_matrix
               (LedMatrixDriver.led_matrix_set_pixel 7 7 255 255 255
                  (LedMatrixDriver.led_matrix
                     (LedMatrixDriver.led_matrix_init
                        (LedMatrixDriver.mkState
                           (LedMatrixDriver.mkLedMatrix [] 0 0 false 0) []))))
               (LedMatrixDriver.led_matrix_init
                  (LedMatrixDriver.mkState
                     (LedMatrixDriver.mkLedMatrix [] 0 0 false 0) []))))
       = [items].
Proof.
  destruct (update_transmits_the_first_64_bytes
              (LedMatrixDriver.led_matrix_init
                 (LedMatrixDriver.mkState
                    (LedMatrixDriver.mkLedMatrix [] 0 0 false 0) [])))
    as (items & Hst & Hlen & _ & _ & Hfar).
  - split; [reflexivity |]. apply Forall_forall. intros v Hin.
    apply elem_of_replicate in Hin. destruct Hin as [-> _].
    unfold is_uint8. lia.
  - exists items. rewrite Hst. split; [reflexivity |]. split; [exact Hlen |].
    apply (Hfar 7 7 255 255 255); lia.
Defined.
